(** * Deesta: the spatial index, the scene engine, the replicated store and
      the interaction state machine, embedded in Rocq.

    JavaScript numbers are modelled as exact rationals ([Q]): every
    comparison and every arithmetic operation of the source is kept, rounding
    is not modelled there.  Where rounding decides what the program does, the
    code is embedded a second time over binary64 doubles (module
    [Doubles]).  Strings are
    [string], JavaScript [Map]s keyed by id are [gmap string _], arrays are
    lists. *)

From Stdlib Require Import QArith Qminmax Qabs Qround Lqa Lia List PrimFloat.
From stdpp Require Import gmap strings.

Set Warnings "-inexact-float".

Local Open Scope Q_scope.

(** * Part I: the embedding of the source *)

(** ** Comparisons on numbers, as booleans *)

Definition Qltb (a b : Q) : bool := negb (Qle_bool b a).
Definition Qgtb (a b : Q) : bool := Qltb b a.

(** ** src/utils/quadtree.ts *)

Module Rect.
Record t : Type := mk { x : Q; y : Q; width : Q; height : Q }.
End Rect.
Abbreviation Rect := Rect.t.

(** [intersects(a, b)]: open overlap of two rectangles. *)
Definition intersects (a b : Rect) : bool :=
  Qltb (Rect.x a) (Rect.x b + Rect.width b) &&
  Qgtb (Rect.x a + Rect.width a) (Rect.x b) &&
  Qltb (Rect.y a) (Rect.y b + Rect.height b) &&
  Qgtb (Rect.y a + Rect.height a) (Rect.y b).

(** The value returned by [getIndex]: [-1] is [None]; [0], [1], [2], [3] are
    the positions of the four children in [nodes]. *)
Inductive Index : Type :=
| NE (* 0 *)
| NW (* 1 *)
| SW (* 2 *)
| SE (* 3 *).

#[global] Instance Index_eq_dec : EqDecision Index.
Proof. solve_decision. Defined.

Definition getIndex (bounds rect : Rect) : option Index :=
  let verticalMidpoint := Rect.x bounds + Rect.width bounds / 2 in
  let horizontalMidpoint := Rect.y bounds + Rect.height bounds / 2 in
  let topQuadrant :=
    Qltb (Rect.y rect) horizontalMidpoint &&
    Qltb (Rect.y rect + Rect.height rect) horizontalMidpoint in
  let bottomQuadrant := Qgtb (Rect.y rect) horizontalMidpoint in
  if Qltb (Rect.x rect) verticalMidpoint &&
     Qltb (Rect.x rect + Rect.width rect) verticalMidpoint
  then
    if topQuadrant then Some NW
    else if bottomQuadrant then Some SW
    else None
  else if Qgtb (Rect.x rect) verticalMidpoint then
    if topQuadrant then Some NE
    else if bottomQuadrant then Some SE
    else None
  else None.

(** The fields of a node other than its bucket and its children. *)
Record Header : Type := mkHeader {
  bounds : Rect;
  capacity : nat;
  maxLevel : nat;
  level : nat
}.

(** The bounds [split] gives to child [i]. *)
Definition quadrant (b : Rect) (i : Index) : Rect :=
  let subWidth := Rect.width b / 2 in
  let subHeight := Rect.height b / 2 in
  let x := Rect.x b in
  let y := Rect.y b in
  match i with
  | NE => Rect.mk (x + subWidth) y subWidth subHeight
  | NW => Rect.mk x y subWidth subHeight
  | SW => Rect.mk x (y + subHeight) subWidth subHeight
  | SE => Rect.mk (x + subWidth) (y + subHeight) subWidth subHeight
  end.

Definition childHeader (h : Header) (i : Index) : Header :=
  mkHeader (quadrant (bounds h) i) (capacity h) (maxLevel h) (S (level h)).

(** Four children, in the order of [nodes]. *)
Record Four (A : Type) : Type := mkFour { n0 : A; n1 : A; n2 : A; n3 : A }.
Arguments mkFour {A} _ _ _ _.
Arguments n0 {A} _.
Arguments n1 {A} _.
Arguments n2 {A} _.
Arguments n3 {A} _.

Definition nth4 {A : Type} (f : Four A) (i : Index) : A :=
  match i with NE => n0 f | NW => n1 f | SW => n2 f | SE => n3 f end.

Definition set4 {A : Type} (f : Four A) (i : Index) (a : A) : Four A :=
  match i with
  | NE => mkFour a (n1 f) (n2 f) (n3 f)
  | NW => mkFour (n0 f) a (n2 f) (n3 f)
  | SW => mkFour (n0 f) (n1 f) a (n3 f)
  | SE => mkFour (n0 f) (n1 f) (n2 f) a
  end.

Section Quadtree.
(** [T extends { id: string }] *)
Context {T : Type} (itemId : T -> string).

(** An element of [objects]: [{ item, bounds }]. *)
Record Entry : Type := mkEntry { item : T; ebounds : Rect }.

(** [nodes] is private and written by the constructor and [clear] (the
    empty array) and by [split] (indices 0 to 3) only, so it is empty
    ([Leaf]) or holds the four children ([Split]). *)
Inductive Quadtree : Type :=
| Leaf (h : Header) (objects : list Entry)
| Split (h : Header) (objects : list Entry) (c0 c1 c2 c3 : Quadtree).

Definition header (t : Quadtree) : Header :=
  match t with Leaf h _ => h | Split h _ _ _ _ _ => h end.

Definition objects (t : Quadtree) : list Entry :=
  match t with Leaf _ o => o | Split _ o _ _ _ _ => o end.

(** [new Quadtree(bounds, capacity, maxLevel, level)] *)
Definition newQuadtree (b : Rect) (cap maxLvl lvl : nat) : Quadtree :=
  Leaf (mkHeader b cap maxLvl lvl) [].

Definition clear (t : Quadtree) : Quadtree := Leaf (header t) [].

(** [split] creates the four empty children. *)
Definition split (h : Header) : Four Quadtree :=
  mkFour (Leaf (childHeader h NE) []) (Leaf (childHeader h NW) [])
         (Leaf (childHeader h SW) []) (Leaf (childHeader h SE) []).

(** The redistribution loop of [insert]: every object of the bucket that
    fits one quadrant is spliced out and inserted into that child, the
    others stay, in order.  [ins] is the recursive call. *)
Fixpoint redistribute (ins : Quadtree -> Entry -> option Quadtree)
    (b : Rect) (objs : list Entry) (ch : Four Quadtree)
    : option (list Entry * Four Quadtree) :=
  match objs with
  | [] => Some ([], ch)
  | obj :: rest =>
      match getIndex b (ebounds obj) with
      | Some index =>
          match ins (nth4 ch index) obj with
          | Some c => redistribute ins b rest (set4 ch index c)
          | None => None
          end
      | None =>
          match redistribute ins b rest ch with
          | Some (kept, ch') => Some (obj :: kept, ch')
          | None => None
          end
      end
  end.

(** What [insert] does once the item is not handed to a child: push it on
    the bucket, then split and redistribute when the bucket is over
    capacity and the level is below the maximum. *)
Definition pushHere (ins : Quadtree -> Entry -> option Quadtree)
    (h : Header) (objs : list Entry) (ch : option (Four Quadtree))
    (e : Entry) : option Quadtree :=
  let objs' := objs ++ [e] in
  if (Nat.ltb (capacity h) (length objs')) && (Nat.ltb (level h) (maxLevel h))
  then
    let ch' := match ch with Some c => c | None => split h end in
    match redistribute ins (bounds h) objs' ch' with
    | Some (kept, c) => Some (Split h kept (n0 c) (n1 c) (n2 c) (n3 c))
    | None => None
    end
  else
    Some (match ch with
          | Some c => Split h objs' (n0 c) (n1 c) (n2 c) (n3 c)
          | None => Leaf h objs'
          end).

(** [insert(item, itemBounds)].  The recursion of the source goes into a
    child, possibly one just created or just modified by the loop, so it
    is not structural: [fuel] bounds its depth and [None] means the fuel
    ran out. *)
Fixpoint insertFuel (fuel : nat) (t : Quadtree) (e : Entry)
    : option Quadtree :=
  match fuel with
  | O => None
  | S fuel' =>
      match t with
      | Leaf h objs => pushHere (insertFuel fuel') h objs None e
      | Split h objs c0 c1 c2 c3 =>
          let ch := mkFour c0 c1 c2 c3 in
          match getIndex (bounds h) (ebounds e) with
          | Some index =>
              match insertFuel fuel' (nth4 ch index) e with
              | Some c =>
                  let ch' := set4 ch index c in
                  Some (Split h objs (n0 ch') (n1 ch') (n2 ch') (n3 ch'))
              | None => None
              end
          | None => pushHere (insertFuel fuel') h objs (Some ch) e
          end
      end
  end.

(** A node splits only below [maxLevel], and children are one level
    deeper, so the recursion is at most [maxLevel - level] deep. *)
Definition insert (t : Quadtree) (e : Entry) : option Quadtree :=
  insertFuel (S (maxLevel (header t) - level (header t))) t e.

(** [retrieve(returnObjects, requestBounds)]: the candidates are pushed
    on [returnObjects], children first, then this node's bucket. *)
Fixpoint retrieve (t : Quadtree) (returnObjects : list T)
    (requestBounds : Rect) : list T :=
  match t with
  | Leaf h objs => returnObjects ++ map item objs
  | Split h objs c0 c1 c2 c3 =>
      let visit (c : Quadtree) (recur : list T -> list T) (acc : list T) :=
        if intersects (bounds (header c)) requestBounds then recur acc
        else acc in
      let acc :=
        match getIndex (bounds h) requestBounds with
        | Some NE => retrieve c0 returnObjects requestBounds
        | Some NW => retrieve c1 returnObjects requestBounds
        | Some SW => retrieve c2 returnObjects requestBounds
        | Some SE => retrieve c3 returnObjects requestBounds
        | None =>
            let a0 := visit c0 (fun a => retrieve c0 a requestBounds)
                            returnObjects in
            let a1 := visit c1 (fun a => retrieve c1 a requestBounds) a0 in
            let a2 := visit c2 (fun a => retrieve c2 a requestBounds) a1 in
            visit c3 (fun a => retrieve c3 a requestBounds) a2
        end in
      acc ++ map item objs
  end.

(** [getAll] *)
Fixpoint getAll (t : Quadtree) : list T :=
  match t with
  | Leaf _ objs => map item objs
  | Split _ objs c0 c1 c2 c3 =>
      map item objs ++ getAll c0 ++ getAll c1 ++ getAll c2 ++ getAll c3
  end.

(** [objects.findIndex(o => o.item.id === id)] followed by
    [objects.splice(idx, 1)]: [None] when no object has the id. *)
Fixpoint spliceById (id : string) (objs : list Entry)
    : option (list Entry) :=
  match objs with
  | [] => None
  | o :: rest =>
      if String.eqb (itemId (item o)) id then Some rest
      else match spliceById id rest with
           | Some rest' => Some (o :: rest')
           | None => None
           end
  end.

(** [removeById(id)]: the tree afterwards and the boolean returned. *)
Fixpoint removeById (id : string) (t : Quadtree) : Quadtree * bool :=
  match t with
  | Leaf h objs =>
      match spliceById id objs with
      | Some objs' => (Leaf h objs', true)
      | None => (t, false)
      end
  | Split h objs c0 c1 c2 c3 =>
      match spliceById id objs with
      | Some objs' => (Split h objs' c0 c1 c2 c3, true)
      | None =>
          let (c0', r0) := removeById id c0 in
          if r0 then (Split h objs c0' c1 c2 c3, true) else
          let (c1', r1) := removeById id c1 in
          if r1 then (Split h objs c0 c1' c2 c3, true) else
          let (c2', r2) := removeById id c2 in
          if r2 then (Split h objs c0 c1 c2' c3, true) else
          let (c3', r3) := removeById id c3 in
          if r3 then (Split h objs c0 c1 c2 c3', true) else
          (t, false)
      end
  end.

(** [remove(itemId)] *)
Definition remove (id : string) (t : Quadtree) : Quadtree :=
  fst (removeById id t).

(** Every entry stored in the tree, in the order of [getAll]. *)
Fixpoint entries (t : Quadtree) : list Entry :=
  match t with
  | Leaf _ objs => objs
  | Split _ objs c0 c1 c2 c3 =>
      objs ++ entries c0 ++ entries c1 ++ entries c2 ++ entries c3
  end.

End Quadtree.

Arguments Entry T : clear implicits.
Arguments Quadtree T : clear implicits.
Arguments mkEntry {T} _ _.
Arguments Leaf {T} _ _.
Arguments Split {T} _ _ _ _ _ _.

(** ** The invariant of the quadtree *)

(** [r] lies within [b] (edges included). *)
Definition inside (r b : Rect) : Prop :=
  Rect.x b <= Rect.x r /\
  Rect.x r + Rect.width r <= Rect.x b + Rect.width b /\
  Rect.y b <= Rect.y r /\
  Rect.y r + Rect.height r <= Rect.y b + Rect.height b.

Section QuadtreeInvariant.
Context {T : Type}.

(** The invariant is stated for a relation [P r b] between the bounds of an
    entry and the bounds of a node that holds it.  It is used twice: with
    [inside], and with the relation that always holds, which leaves the
    shape alone. *)
Variable P : Rect -> Rect -> Prop.

(** All the entries stored in [t] or below are related to the bounds of [t]. *)
Definition fitsP (t : Quadtree T) : Prop :=
  List.Forall (fun e => P (ebounds e) (bounds (header t))) (entries t).

(** A node with children is below the maximum level, its children carry the
    headers [split] gave them, and what they store is related to their
    bounds. *)
Fixpoint wfP (t : Quadtree T) : Prop :=
  match t with
  | Leaf _ _ => True
  | Split h _ c0 c1 c2 c3 =>
      (level h < maxLevel h)%nat /\
      (header c0 = childHeader h NE /\ fitsP c0 /\ wfP c0) /\
      (header c1 = childHeader h NW /\ fitsP c1 /\ wfP c1) /\
      (header c2 = childHeader h SW /\ fitsP c2 /\ wfP c2) /\
      (header c3 = childHeader h SE /\ fitsP c3 /\ wfP c3)
  end.

Definition entries4 (ch : Four (Quadtree T)) : list (Entry T) :=
  entries (n0 ch) ++ entries (n1 ch) ++ entries (n2 ch) ++ entries (n3 ch).

Definition childOk (h : Header) (ch : Four (Quadtree T)) (i : Index) : Prop :=
  header (nth4 ch i) = childHeader h i /\ fitsP (nth4 ch i) /\ wfP (nth4 ch i).

(** What the recursive call has to deliver, for [insert] to be correct. *)
Definition insertsWell (ins : Quadtree T -> Entry T -> option (Quadtree T))
    (c : Quadtree T) (e : Entry T) : Prop :=
  exists c', ins c e = Some c' /\ header c' = header c /\ wfP c' /\
             entries c' ≡ₚ e :: entries c.

End QuadtreeInvariant.

(** With [inside]: what the children store lies within their bounds. *)
Definition fits {T : Type} : Quadtree T -> Prop := fitsP inside.
Definition wf {T : Type} : Quadtree T -> Prop := wfP inside.

(** The shape alone. *)
Definition shaped {T : Type} : Quadtree T -> Prop := wfP (fun _ _ => True).

(** A sequence of [insert] calls. *)
Fixpoint insertAll {T : Type} (t : Quadtree T) (es : list (Entry T))
    : option (Quadtree T) :=
  match es with
  | [] => Some t
  | e :: rest =>
      match insert t e with
      | Some t' => insertAll t' rest
      | None => None
      end
  end.


(** *** The world of the engine, and a board with one stroke outside it *)

Definition worldBounds : Rect := Rect.mk (-50000) (-50000) 100000 100000.

Definition farItem : Entry string :=
  mkEntry "far"%string (Rect.mk (-100000) (-100) 10 10).

Definition nearItems : list (Entry string) :=
  map (fun s => mkEntry s (Rect.mk 10 10 1 1))
      ["a"; "b"; "c"; "d"; "e"; "f"; "g"; "h"; "i"; "j"]%string.

(** An eleventh item, in the north-west quadrant, within the world. *)
Definition westItem : Entry string :=
  mkEntry "west"%string (Rect.mk (-1000) (-100) 10 10).

Definition farQuery : Rect := Rect.mk (-100010) (-200) 100 400.

(** The entries after [remove]: without the first entry that has the id. *)
Definition dropFirst {T : Type} (itemId : T -> string) (id : string)
    (l : list (Entry T)) : list (Entry T) :=
  match spliceById itemId id l with Some l' => l' | None => l end.

(** ** src/core/document_store.ts *)

(** A point of a stroke: [[x, y, pressure]]. *)
Definition Point : Type := (Q * Q * Q)%type.
Definition pointX (p : Point) : Q := fst (fst p).
Definition pointY (p : Point) : Q := snd (fst p).
Definition pointPressure (p : Point) : Q := snd p.

Module CardData.
Record t : Type := mk {
  id : string;
  x : Q;
  y : Q;
  width : Q;
  height : Q;
  color : Z;
  text : string;
  imageUrl : option string;
  createdAt : Z;
  updatedAt : Z
}.
End CardData.
Abbreviation CardData := CardData.t.

(** [Partial<CardData>]: the fields an update carries. *)
Module CardUpdates.
Record t : Type := mk {
  id : option string;
  x : option Q;
  y : option Q;
  width : option Q;
  height : option Q;
  color : option Z;
  text : option string;
  imageUrl : option (option string);
  createdAt : option Z;
  updatedAt : option Z
}.
End CardUpdates.
Abbreviation CardUpdates := CardUpdates.t.

(** [Omit<CardData, 'id' | 'createdAt' | 'updatedAt'>] *)
Module NewCard.
Record t : Type := mk {
  x : Q;
  y : Q;
  width : Q;
  height : Q;
  color : Z;
  text : string;
  imageUrl : option string
}.
End NewCard.
Abbreviation NewCard := NewCard.t.

Module ConnectionData.
Record t : Type := mk { id : string; fromId : string; toId : string }.
End ConnectionData.
Abbreviation ConnectionData := ConnectionData.t.

Module StrokeData.
Record t : Type := mk {
  id : string;
  points : list Point;
  color : Z;
  width : Q
}.
End StrokeData.
Abbreviation StrokeData := StrokeData.t.

(** The id of the connection of an ordered pair: [`${fromId}-${toId}`]. *)
Definition connectionId (fromId toId : string) : string :=
  (fromId ++ "-" ++ toId)%string.

Module DocumentStore.

(** The three record maps of the document.  A transaction is one step of
    the model; the listeners are not part of it. *)
Record t : Type := mk {
  cardsMap : gmap string CardData;
  connectionsMap : gmap string ConnectionData;
  strokesMap : gmap string StrokeData
}.

Definition empty : t := mk ∅ ∅ ∅.

(** [createCard(data)], with the id [crypto.randomUUID()] returned and the
    time [Date.now()] read. *)
Definition createCard (id : string) (now : Z) (data : NewCard) (d : t)
    : t * CardData :=
  let card :=
    CardData.mk id (NewCard.x data) (NewCard.y data) (NewCard.width data)
      (NewCard.height data) (NewCard.color data) (NewCard.text data)
      (NewCard.imageUrl data) now now in
  (mk (<[id := card]> (cardsMap d)) (connectionsMap d) (strokesMap d), card).

Definition updateCardPosition (now : Z) (id : string) (x y : Q) (d : t) : t :=
  match cardsMap d !! id with
  | None => d
  | Some card =>
      let card' :=
        CardData.mk (CardData.id card) x y (CardData.width card)
          (CardData.height card) (CardData.color card) (CardData.text card)
          (CardData.imageUrl card) (CardData.createdAt card) now in
      mk (<[id := card']> (cardsMap d)) (connectionsMap d) (strokesMap d)
  end.

(** [{ ...card, ...updates, updatedAt: Date.now() }] *)
Definition spread (now : Z) (card : CardData) (updates : CardUpdates)
    : CardData :=
  CardData.mk
    (default (CardData.id card) (CardUpdates.id updates))
    (default (CardData.x card) (CardUpdates.x updates))
    (default (CardData.y card) (CardUpdates.y updates))
    (default (CardData.width card) (CardUpdates.width updates))
    (default (CardData.height card) (CardUpdates.height updates))
    (default (CardData.color card) (CardUpdates.color updates))
    (default (CardData.text card) (CardUpdates.text updates))
    (default (CardData.imageUrl card) (CardUpdates.imageUrl updates))
    (default (CardData.createdAt card) (CardUpdates.createdAt updates))
    now.

Definition updateCard (now : Z) (id : string) (updates : CardUpdates) (d : t)
    : t :=
  match cardsMap d !! id with
  | None => d
  | Some card =>
      mk (<[id := spread now card updates]> (cardsMap d))
         (connectionsMap d) (strokesMap d)
  end.

Definition deleteCard (id : string) (d : t) : t :=
  mk (delete id (cardsMap d)) (connectionsMap d) (strokesMap d).

(** [getSnapshot()]: copies of the three maps. *)
Definition getSnapshot (d : t)
    : gmap string CardData * gmap string ConnectionData *
      gmap string StrokeData :=
  (cardsMap d, connectionsMap d, strokesMap d).

Definition createConnection (fromId toId : string) (d : t) : t :=
  let id := connectionId fromId toId in
  match connectionsMap d !! id with
  | Some _ => d
  | None =>
      mk (cardsMap d)
         (<[id := ConnectionData.mk id fromId toId]> (connectionsMap d))
         (strokesMap d)
  end.

Definition deleteConnection (id : string) (d : t) : t :=
  mk (cardsMap d) (delete id (connectionsMap d)) (strokesMap d).

Definition addStroke (stroke : StrokeData) (d : t) : t :=
  mk (cardsMap d) (connectionsMap d)
     (<[StrokeData.id stroke := stroke]> (strokesMap d)).

Definition deleteStroke (id : string) (d : t) : t :=
  mk (cardsMap d) (connectionsMap d) (delete id (strokesMap d)).

End DocumentStore.
Abbreviation DocumentStore := DocumentStore.t.

(** ** [InteractionMode] of src/core/interaction_manager.ts *)

Inductive InteractionMode : Type :=
| IDLE
| PANNING
| DRAGGING
| SELECTING
| DRAWING
| ERASING
| CONNECTING
| EDITING.

#[global] Instance InteractionMode_eq_dec : EqDecision InteractionMode.
Proof. solve_decision. Defined.

(** ** src/core/canvas_engine.ts: the state *)

Module PHYSICS_CONFIG.
Definition mass : Q := 3 # 2.
Definition friction : Q := 23 # 25.
Definition spring : Q := 1 # 10.
Definition staticFrictionThreshold : Q := 1 # 20.
Definition minVelocity : Q := 1 # 100.
End PHYSICS_CONFIG.

Module PhysicsState.
Record t : Type := mk {
  x : Q;
  y : Q;
  vx : Q;
  vy : Q;
  targetX : Q;
  targetY : Q;
  isDragging : bool;
  dragOffsetX : Q;
  dragOffsetY : Q;
  cardId : string
}.
End PhysicsState.
Abbreviation PhysicsState := PhysicsState.t.

Module ViewportState.
Record t : Type := mk {
  x : Q;
  y : Q;
  scale : Q;
  vx : Q;
  vy : Q;
  isDragging : bool;
  lastPointerX : Q;
  lastPointerY : Q
}.
End ViewportState.
Abbreviation ViewportState := ViewportState.t.

(** [StrokeState], with the id the engine attaches to it.  The graphics
    object of the stroke is left out: it draws, and the engine reads
    nothing back from it.  A graphics object that was destroyed throws
    when it is drawn on again, which the model does not follow; see
    [strokeHealth] for the runs in which that cannot happen. *)
Module StrokeState.
Record t : Type := mk { points : list Point; id : string }.
End StrokeState.
Abbreviation StrokeState := StrokeState.t.

Module Connection.
Record t : Type := mk { id : string; fromId : string; toId : string }.
End Connection.
Abbreviation Connection := Connection.t.

(** What the engine reads and writes of a card's [Graphics]: its position,
    its cursor, its fill, the text of its [_textNode] and its image. *)
Module Graphics.
Record t : Type := mk {
  x : Q;
  y : Q;
  cursor : string;
  fill : Z;
  text : string;
  image : option string
}.
End Graphics.
Abbreviation Graphics := Graphics.t.

(** An entry of [cards]: [{ graphics, state }]. *)
Module Card.
Record t : Type := mk { graphics : Graphics; state : PhysicsState }.
End Card.
Abbreviation Card := Card.t.

(** The transform of [worldContainer]: a translation and a uniform scale. *)
Module Container.
Record t : Type := mk { x : Q; y : Q; scale : Q }.

Definition toLocal (c : t) (p : Q * Q) : Q * Q :=
  ((fst p - x c) / scale c, (snd p - y c) / scale c).

Definition toGlobal (c : t) (p : Q * Q) : Q * Q :=
  (fst p * scale c + x c, snd p * scale c + y c).
End Container.
Abbreviation Container := Container.t.

(** What the handlers read of a [FederatedPointerEvent].  [coalesced] is
    the result of [nativeEvent.getCoalescedEvents()] where the browser has
    it: the [clientX], [clientY] and [pressure] of each sample. *)
Module PointerEvent.
Record t : Type := mk {
  globalX : Q;
  globalY : Q;
  button : Z;
  buttons : Z;
  shiftKey : bool;
  pressure : Q;
  coalesced : option (list (Q * Q * Q))
}.
Definition global (e : t) : Q * Q := (globalX e, globalY e).
End PointerEvent.
Abbreviation PointerEvent := PointerEvent.t.

(** [insert] on an index of the engine.  It returns on every tree the
    engine holds (lemma [insert_total]); were it not to, the tree would stay
    as it is. *)
Definition insertInto {T : Type} (t : Quadtree T) (it : T) (b : Rect)
    : Quadtree T :=
  match insert t (mkEntry it b) with
  | Some t' => t'
  | None => t
  end.

(** [ids.includes(id)], [set.has(id)] *)
Definition includes (ids : list string) (id : string) : bool :=
  existsb (String.eqb id) ids.

(** Truthiness of a string. *)
Definition truthy (s : string) : bool := negb (String.eqb s "").

(** [p || 0.5] on a pressure. *)
Definition pressureOr (p : Q) : Q := if Qeq_bool p 0 then 1 # 2 else p.

(** The items of the two indexes: [{ id }] and [{ id, stroke }]. *)
Record CardItem : Type := mkCardItem { cardItemId : string }.
Record StrokeItem : Type := mkStrokeItem {
  strokeItemId : string;
  stroke : StrokeState
}.

(** A call the engine makes to one of its callbacks. *)
Inductive Call : Type :=
| PositionChange (cardId : string) (x y : Q)
| ConnectionCreated (fromId toId : string)
| StrokeFinished (id : string) (points : list Point)
| StrokeDeleted (id : string)
| CursorMove (x y : Q).

(** The fields of [CanvasEngine] the operations below use.  A callback
    field says whether a callback is registered; [calls] lists the calls
    made so far, oldest first. *)
Module CanvasEngine.
Record t : Type := mk {
  worldContainer : Container;
  viewport : ViewportState;
  cards : gmap string Card;
  connections : gmap string Connection;
  strokes : list StrokeState;
  strokeQuadtree : Quadtree StrokeItem;
  cardQuadtree : Quadtree CardItem;
  onPositionChange : bool;
  onConnectionCreated : bool;
  onStrokeFinished : bool;
  onStrokeDeleted : bool;
  onCursorMove : bool;
  currentStroke : option StrokeState;
  calls : list Call
}.

Definition setWorldContainer (w : Container) (e : t) : t :=
  mk w (viewport e) (cards e) (connections e) (strokes e) (strokeQuadtree e)
     (cardQuadtree e) (onPositionChange e) (onConnectionCreated e)
     (onStrokeFinished e) (onStrokeDeleted e) (onCursorMove e)
     (currentStroke e) (calls e).

Definition setViewport (v : ViewportState) (e : t) : t :=
  mk (worldContainer e) v (cards e) (connections e) (strokes e)
     (strokeQuadtree e) (cardQuadtree e) (onPositionChange e)
     (onConnectionCreated e) (onStrokeFinished e) (onStrokeDeleted e)
     (onCursorMove e) (currentStroke e) (calls e).

Definition setCards (c : gmap string Card) (e : t) : t :=
  mk (worldContainer e) (viewport e) c (connections e) (strokes e)
     (strokeQuadtree e) (cardQuadtree e) (onPositionChange e)
     (onConnectionCreated e) (onStrokeFinished e) (onStrokeDeleted e)
     (onCursorMove e) (currentStroke e) (calls e).

Definition setConnections (c : gmap string Connection) (e : t) : t :=
  mk (worldContainer e) (viewport e) (cards e) c (strokes e)
     (strokeQuadtree e) (cardQuadtree e) (onPositionChange e)
     (onConnectionCreated e) (onStrokeFinished e) (onStrokeDeleted e)
     (onCursorMove e) (currentStroke e) (calls e).

Definition setStrokes (s : list StrokeState) (e : t) : t :=
  mk (worldContainer e) (viewport e) (cards e) (connections e) s
     (strokeQuadtree e) (cardQuadtree e) (onPositionChange e)
     (onConnectionCreated e) (onStrokeFinished e) (onStrokeDeleted e)
     (onCursorMove e) (currentStroke e) (calls e).

Definition setStrokeQuadtree (q : Quadtree StrokeItem) (e : t) : t :=
  mk (worldContainer e) (viewport e) (cards e) (connections e) (strokes e)
     q (cardQuadtree e) (onPositionChange e) (onConnectionCreated e)
     (onStrokeFinished e) (onStrokeDeleted e) (onCursorMove e)
     (currentStroke e) (calls e).

Definition setCardQuadtree (q : Quadtree CardItem) (e : t) : t :=
  mk (worldContainer e) (viewport e) (cards e) (connections e) (strokes e)
     (strokeQuadtree e) q (onPositionChange e) (onConnectionCreated e)
     (onStrokeFinished e) (onStrokeDeleted e) (onCursorMove e)
     (currentStroke e) (calls e).

Definition setCurrentStroke (s : option StrokeState) (e : t) : t :=
  mk (worldContainer e) (viewport e) (cards e) (connections e) (strokes e)
     (strokeQuadtree e) (cardQuadtree e) (onPositionChange e)
     (onConnectionCreated e) (onStrokeFinished e) (onStrokeDeleted e)
     (onCursorMove e) s (calls e).

(** A call to a callback, made when one is registered. *)
Definition call (registered : bool) (c : Call) (e : t) : t :=
  if registered then
    mk (worldContainer e) (viewport e) (cards e) (connections e) (strokes e)
       (strokeQuadtree e) (cardQuadtree e) (onPositionChange e)
       (onConnectionCreated e) (onStrokeFinished e) (onStrokeDeleted e)
       (onCursorMove e) (currentStroke e) (calls e ++ [c])
  else e.

(** The constructor: an identity world transform, the viewport at the
    origin with scale 1, nothing on the board, no callback. *)
Definition new : t :=
  mk (Container.mk 0 0 1)
     (ViewportState.mk 0 0 1 0 0 false 0 0)
     ∅ ∅ []
     (newQuadtree worldBounds 10 5 0) (newQuadtree worldBounds 10 5 0)
     false false false false false None [].

Definition setOnPositionChange (e : t) : t :=
  mk (worldContainer e) (viewport e) (cards e) (connections e) (strokes e)
     (strokeQuadtree e) (cardQuadtree e) true (onConnectionCreated e)
     (onStrokeFinished e) (onStrokeDeleted e) (onCursorMove e)
     (currentStroke e) (calls e).

Definition setPersistenceCallbacks (e : t) : t :=
  mk (worldContainer e) (viewport e) (cards e) (connections e) (strokes e)
     (strokeQuadtree e) (cardQuadtree e) (onPositionChange e) true true true
     (onCursorMove e) (currentStroke e) (calls e).

Definition setOnCursorMove (e : t) : t :=
  mk (worldContainer e) (viewport e) (cards e) (connections e) (strokes e)
     (strokeQuadtree e) (cardQuadtree e) (onPositionChange e)
     (onConnectionCreated e) (onStrokeFinished e) (onStrokeDeleted e) true
     (currentStroke e) (calls e).


(** *** Cards *)

Definition createCard (cardId : string) (x y : Q) (color : Z)
    (textContent : string) (imageUrl : option string) (e : t) : t :=
  match cards e !! cardId with
  | Some _ => e
  | None =>
      let graphics := Graphics.mk x y "grab" color textContent imageUrl in
      let state :=
        PhysicsState.mk x y 0 0 x y false 0 0 cardId in
      let e := setCards (<[cardId := Card.mk graphics state]> (cards e)) e in
      setCardQuadtree
        (insertInto (cardQuadtree e) (mkCardItem cardId)
                    (Rect.mk x y 200 150)) e
  end.

Definition updateCardPosition (cardId : string) (x y : Q) (e : t) : t :=
  match cards e !! cardId with
  | Some card =>
      if negb (PhysicsState.isDragging (Card.state card)) then
        let s := Card.state card in
        let s' :=
          PhysicsState.mk (PhysicsState.x s) (PhysicsState.y s)
            (PhysicsState.vx s) (PhysicsState.vy s) x y
            (PhysicsState.isDragging s) (PhysicsState.dragOffsetX s)
            (PhysicsState.dragOffsetY s) (PhysicsState.cardId s) in
        let e := setCards (<[cardId := Card.mk (Card.graphics card) s']> (cards e)) e in
        let e := setCardQuadtree (remove cardItemId cardId (cardQuadtree e)) e in
        setCardQuadtree
          (insertInto (cardQuadtree e) (mkCardItem cardId)
                      (Rect.mk x y 200 150)) e
      else e
  | None => e
  end.

Definition updateCardText (cardId : string) (text : string) (e : t) : t :=
  match cards e !! cardId with
  | Some card =>
      let g := Card.graphics card in
      let g' :=
        Graphics.mk (Graphics.x g) (Graphics.y g) (Graphics.cursor g)
          (Graphics.fill g) text (Graphics.image g) in
      setCards (<[cardId := Card.mk g' (Card.state card)]> (cards e)) e
  | None => e
  end.

Definition removeCard (cardId : string) (e : t) : t :=
  match cards e !! cardId with
  | Some _ => setCards (delete cardId (cards e)) e
  | None => e
  end.

(** [getCardScreenBounds] *)
Definition getCardScreenBounds (cardId : string) (e : t) : option Rect :=
  match cards e !! cardId with
  | None => None
  | Some card =>
      let globalPos :=
        Container.toGlobal (worldContainer e)
          (PhysicsState.x (Card.state card), PhysicsState.y (Card.state card)) in
      let scale := Container.scale (worldContainer e) in
      Some (Rect.mk (fst globalPos) (snd globalPos) (200 * scale) (150 * scale))
  end.

(** [getCardsInRect] *)
Definition getCardsInRect (x y width height : Q) (e : t) : list string :=
  let rx := if Qltb width 0 then x + width else x in
  let ry := if Qltb height 0 then y + height else y in
  let rw := Qabs width in
  let rh := Qabs height in
  let candidates := retrieve (cardQuadtree e) [] (Rect.mk rx ry rw rh) in
  flat_map
    (fun c =>
       match cards e !! cardItemId c with
       | Some card =>
           let state := Card.state card in
           if Qltb (PhysicsState.x state) (rx + rw) &&
              Qgtb (PhysicsState.x state + 200) rx &&
              Qltb (PhysicsState.y state) (ry + rh) &&
              Qgtb (PhysicsState.y state + 150) ry
           then [cardItemId c] else []
       | None => []
       end)
    candidates.

(** *** Connections *)

Definition createConnection (fromId toId : string) (e : t) : t :=
  let id := connectionId fromId toId in
  match connections e !! id with
  | Some _ => e
  | None =>
      let e := setConnections
                 (<[id := Connection.mk id fromId toId]> (connections e)) e in
      call (onConnectionCreated e) (ConnectionCreated fromId toId) e
  end.

(** *** Hydration from a snapshot of the store *)

(** The keys of a map; the order of the iteration does not matter where
    they are used. *)
Definition keys {A : Type} (m : gmap string A) : list string :=
  map fst (map_to_list m).

(** One step of the loop over the incoming cards. *)
Definition hydrateCard (e : t) (c : CardData) : t :=
  match cards e !! CardData.id c with
  | None =>
      createCard (CardData.id c) (CardData.x c) (CardData.y c)
        (CardData.color c) (CardData.text c) (CardData.imageUrl c) e
  | Some existing =>
      let e :=
        if negb (PhysicsState.isDragging (Card.state existing))
        then updateCardPosition (CardData.id c) (CardData.x c) (CardData.y c) e
        else e in
      updateCardText (CardData.id c) (CardData.text c) e
  end.

Definition hydrateCards (incoming : list CardData) (e : t) : t :=
  let incomingCardIds := map CardData.id incoming in
  let stale :=
    List.filter (fun id => negb (includes incomingCardIds id)) (keys (cards e)) in
  let e := fold_left (fun e id => removeCard id e) stale e in
  fold_left hydrateCard incoming e.

Definition hydrateConnections (incoming : list ConnectionData) (e : t) : t :=
  let incomingConnIds := map ConnectionData.id incoming in
  let stale :=
    List.filter (fun id => negb (includes incomingConnIds id))
                (keys (connections e)) in
  let e :=
    fold_left (fun e id => setConnections (delete id (connections e)) e)
              stale e in
  fold_left
    (fun e c =>
       match connections e !! ConnectionData.id c with
       | Some _ => e
       | None =>
           setConnections
             (<[ConnectionData.id c :=
                  Connection.mk (ConnectionData.id c) (ConnectionData.fromId c)
                                (ConnectionData.toId c)]> (connections e)) e
       end)
    incoming e.

(** The strokes of [hydrate].  The source also destroys the graphics of
    each stroke it drops, those of a stroke in progress included (its id is
    not in the store yet), and leaves [currentStroke] pointing to it; the
    model keeps no graphics. *)
Definition hydrateStrokes (incoming : list StrokeData) (e : t) : t :=
  let incomingStrokeIds := map StrokeData.id incoming in
  let kept :=
    List.filter
      (fun s => negb (truthy (StrokeState.id s) &&
                      negb (includes incomingStrokeIds (StrokeState.id s))))
      (strokes e) in
  let existingStrokeIds := map StrokeState.id kept in
  let added :=
    List.filter (fun s => negb (includes existingStrokeIds (StrokeData.id s)))
                incoming in
  setStrokes
    (kept ++ map (fun s => StrokeState.mk (StrokeData.points s) (StrokeData.id s))
                 added) e.

Definition hydrate (cards : list CardData) (connections : list ConnectionData)
    (strokes : list StrokeData) (e : t) : t :=
  hydrateStrokes strokes (hydrateConnections connections (hydrateCards cards e)).

(** *** Strokes *)

(** The current stroke is the object [startStroke] pushed on [strokes]: a
    change to it shows there too.  Stroke objects are told apart by their
    ids, which are fresh UUIDs. *)
Definition syncStroke (st : StrokeState) (l : list StrokeState)
    : list StrokeState :=
  map (fun s => if String.eqb (StrokeState.id s) (StrokeState.id st)
                then st else s) l.

(** [startStroke(e)], with the id [crypto.randomUUID()] returned. *)
Definition startStroke (strokeId : string) (ev : PointerEvent) (e : t) : t :=
  let localPos := Container.toLocal (worldContainer e) (PointerEvent.global ev) in
  let st :=
    StrokeState.mk
      [(fst localPos, snd localPos, pressureOr (PointerEvent.pressure ev))]
      strokeId in
  setStrokes (strokes e ++ [st]) (setCurrentStroke (Some st) e).

Definition continueStroke (ev : PointerEvent) (e : t) : t :=
  match currentStroke e with
  | None => e
  | Some st =>
      let sample (p : Q * Q * Q) : Point :=
        let localPos :=
          Container.toLocal (worldContainer e) (fst (fst p), snd (fst p)) in
        (fst localPos, snd localPos, pressureOr (snd p)) in
      let new :=
        match PointerEvent.coalesced ev with
        | Some coalesced => map sample coalesced
        | None =>
            [sample (PointerEvent.globalX ev, PointerEvent.globalY ev,
                     PointerEvent.pressure ev)]
        end in
      let st' := StrokeState.mk (StrokeState.points st ++ new) (StrokeState.id st) in
      setStrokes (syncStroke st' (strokes e)) (setCurrentStroke (Some st') e)
  end.

(** The body of the loop of [getStrokeBounds], on
    [(minX, minY, maxX, maxY)]. *)
Definition growBounds (acc : Q * Q * Q * Q) (p : Point) : Q * Q * Q * Q :=
  let '(minX, minY, maxX, maxY) := acc in
  (if Qltb (pointX p) minX then pointX p else minX,
   if Qltb (pointY p) minY then pointY p else minY,
   if Qgtb (pointX p) maxX then pointX p else maxX,
   if Qgtb (pointY p) maxY then pointY p else maxY).

(** [getStrokeBounds]: the bounding box of the points, padded by 20.  The
    running minima and maxima start at the first point, which is where the
    infinities of the source are after the first iteration; the engine
    calls it on strokes of two points or more. *)
Definition getStrokeBounds (points : list Point) : Rect :=
  let padding := 20 in
  match points with
  | [] => Rect.mk 0 0 0 0
  | p0 :: _ =>
      let '(minX, minY, maxX, maxY) :=
        fold_left growBounds points (pointX p0, pointY p0, pointX p0, pointY p0) in
      Rect.mk (minX - padding) (minY - padding)
              (maxX - minX + padding * 2) (maxY - minY + padding * 2)
  end.

(** [endStroke].  With no point in the current stroke the source throws on
    [p[0]] before it changes anything.  It redraws the stroke first: when
    the graphics of the stroke were destroyed since it began (by [hydrate]
    or by the eraser) the source throws there and does nothing of what
    follows, a case the model does not have. *)
Definition endStroke (e : t) : t :=
  match currentStroke e with
  | None => e
  | Some st =>
      match StrokeState.points st with
      | [] => e
      | p :: rest =>
          let st' :=
            if Nat.ltb (length (StrokeState.points st)) 2 then
              StrokeState.mk
                (StrokeState.points st ++
                   [(pointX p + (1 # 10), pointY p + (1 # 10), pointPressure p)])
                (StrokeState.id st)
            else st in
          let e := setStrokes (syncStroke st' (strokes e))
                              (setCurrentStroke (Some st') e) in
          let e := call (onStrokeFinished e)
                        (StrokeFinished (StrokeState.id st') (StrokeState.points st')) e in
          let bounds := getStrokeBounds (StrokeState.points st') in
          let e := setStrokeQuadtree
                     (insertInto (strokeQuadtree e)
                                 (mkStrokeItem (StrokeState.id st') st') bounds) e in
          setCurrentStroke None e
      end
  end.

(** [distToSegment] is the square root of this number.  Its one use
    compares it with the radius, which in exact arithmetic is the
    comparison of this number with the square of the radius.  The source
    rounds the square root ([Doubles.distToSegment]), which can decide the
    comparison for a distance within rounding of the radius. *)
Definition distToSegmentSq (px py x1 y1 x2 y2 : Q) : Q :=
  let l2 := (x1 - x2) ^ 2 + (y1 - y2) ^ 2 in
  if Qeq_bool l2 0 then (px - x1) ^ 2 + (py - y1) ^ 2
  else
    let t := ((px - x1) * (x2 - x1) + (py - y1) * (y2 - y1)) / l2 in
    let t := Qmax 0 (Qmin 1 t) in
    (px - (x1 + t * (x2 - x1))) ^ 2 + (py - (y1 + t * (y2 - y1))) ^ 2.

Definition eraseRadius : Q := 20.

(** The inner loop of [eraseAt]: is some segment of the stroke closer to
    the point than the radius? *)
Fixpoint hitsStroke (px py : Q) (points : list Point) : bool :=
  match points with
  | p1 :: ((p2 :: _) as rest) =>
      if Qltb (distToSegmentSq px py (pointX p1) (pointY p1)
                               (pointX p2) (pointY p2))
              (eraseRadius * eraseRadius)
      then true
      else hitsStroke px py rest
  | _ => false
  end.

(** The loop over the candidates: the ids hit, each once, in order. *)
Definition collectHits (px py : Q) (candidates : list StrokeItem)
    : list string :=
  fold_left
    (fun hits item =>
       let strokeId := StrokeState.id (stroke item) in
       if hitsStroke px py (StrokeState.points (stroke item)) &&
          truthy strokeId && negb (includes hits strokeId)
       then hits ++ [strokeId] else hits)
    candidates [].

(** [strokes.findIndex(s => s.id === id)] and [strokes.splice(idx, 1)]. *)
Fixpoint spliceStroke (id : string) (l : list StrokeState) : list StrokeState :=
  match l with
  | [] => []
  | s :: rest =>
      if String.eqb (StrokeState.id s) id then rest
      else s :: spliceStroke id rest
  end.

(** One step of the loop over the hits. *)
Definition eraseStroke (e : t) (id : string) : t :=
  let e := call (onStrokeDeleted e) (StrokeDeleted id) e in
  let e := setStrokeQuadtree (remove strokeItemId id (strokeQuadtree e)) e in
  setStrokes (spliceStroke id (strokes e)) e.

Definition eraseAt (x y : Q) (e : t) : t :=
  let localPos := Container.toLocal (worldContainer e) (x, y) in
  let radius := eraseRadius in
  let searchBounds :=
    Rect.mk (fst localPos - radius) (snd localPos - radius)
            (radius * 2) (radius * 2) in
  let candidates := retrieve (strokeQuadtree e) [] searchBounds in
  let hits := collectHits (fst localPos) (snd localPos) candidates in
  fold_left eraseStroke hits e.

(** *** The per-frame tick *)

(** Viewport inertia. *)
Definition viewportTick (v : ViewportState) : ViewportState :=
  if negb (ViewportState.isDragging v) then
    let vx := ViewportState.vx v * PHYSICS_CONFIG.friction in
    let vy := ViewportState.vy v * PHYSICS_CONFIG.friction in
    let x := ViewportState.x v + vx in
    let y := ViewportState.y v + vy in
    let vx := if Qltb (Qabs vx) PHYSICS_CONFIG.minVelocity then 0 else vx in
    let vy := if Qltb (Qabs vy) PHYSICS_CONFIG.minVelocity then 0 else vy in
    ViewportState.mk x y (ViewportState.scale v) vx vy
      (ViewportState.isDragging v) (ViewportState.lastPointerX v)
      (ViewportState.lastPointerY v)
  else v.

(** Card physics: the body of the loop over the cards, on the state, in
    exact arithmetic.  Where a card comes to rest depends on rounding:
    [Doubles.springStep] is the same step on doubles. *)
Definition springStep (state : PhysicsState) : PhysicsState :=
  if negb (PhysicsState.isDragging state) then
    let dx := PhysicsState.targetX state - PhysicsState.x state in
    let dy := PhysicsState.targetY state - PhysicsState.y state in
    let ax := (dx * PHYSICS_CONFIG.spring) / PHYSICS_CONFIG.mass in
    let ay := (dy * PHYSICS_CONFIG.spring) / PHYSICS_CONFIG.mass in
    let vx := PhysicsState.vx state + ax in
    let vy := PhysicsState.vy state + ay in
    let vx := vx * PHYSICS_CONFIG.friction in
    let vy := vy * PHYSICS_CONFIG.friction in
    let x := PhysicsState.x state + vx in
    let y := PhysicsState.y state + vy in
    PhysicsState.mk x y vx vy (PhysicsState.targetX state)
      (PhysicsState.targetY state) (PhysicsState.isDragging state)
      (PhysicsState.dragOffsetX state) (PhysicsState.dragOffsetY state)
      (PhysicsState.cardId state)
  else state.

(** The same, with the position copied to the graphics. *)
Definition cardTick (card : Card) : Card :=
  if negb (PhysicsState.isDragging (Card.state card)) then
    let state := springStep (Card.state card) in
    let g := Card.graphics card in
    Card.mk (Graphics.mk (PhysicsState.x state) (PhysicsState.y state)
                         (Graphics.cursor g) (Graphics.fill g)
                         (Graphics.text g) (Graphics.image g))
            state
  else card.

Definition physicsTick (e : t) : t :=
  let e := setViewport (viewportTick (viewport e)) e in
  let e :=
    setWorldContainer
      (Container.mk (ViewportState.x (viewport e)) (ViewportState.y (viewport e))
                    (ViewportState.scale (viewport e))) e in
  setCards (cardTick <$> cards e) e.

(** *** The viewport *)

(** The wheel handler: [deltaY], [offsetX] and [offsetY] of the event, in
    exact arithmetic ([Doubles.wheelViewport] is the same on doubles). *)
Definition wheelViewport (deltaY offsetX offsetY : Q) (v : ViewportState)
    : ViewportState :=
  let zoomFactor := if Qgtb deltaY 0 then 9 # 10 else 11 # 10 in
  let oldScale := ViewportState.scale v in
  let newScale := Qmax (1 # 10) (Qmin 5 (oldScale * zoomFactor)) in
  let mouseX := offsetX in
  let mouseY := offsetY in
  ViewportState.mk
    (mouseX - (mouseX - ViewportState.x v) * (newScale / oldScale))
    (mouseY - (mouseY - ViewportState.y v) * (newScale / oldScale))
    newScale (ViewportState.vx v) (ViewportState.vy v)
    (ViewportState.isDragging v) (ViewportState.lastPointerX v)
    (ViewportState.lastPointerY v).

Definition wheel (deltaY offsetX offsetY : Q) (e : t) : t :=
  setViewport (wheelViewport deltaY offsetX offsetY (viewport e)) e.

(** Where the world point [w] is drawn: its position times the scale of the
    viewport, plus the offset of the viewport ([physicsTick] copies both to
    [worldContainer]). *)
Definition project (v : ViewportState) (w : Q * Q) : Q * Q :=
  Container.toGlobal
    (Container.mk (ViewportState.x v) (ViewportState.y v) (ViewportState.scale v))
    w.

Definition startPan (ev : PointerEvent) (e : t) : t :=
  let v := viewport e in
  setViewport
    (ViewportState.mk (ViewportState.x v) (ViewportState.y v)
       (ViewportState.scale v) 0 0 true
       (PointerEvent.globalX ev) (PointerEvent.globalY ev)) e.

(** *** Dragging cards *)

Definition startDrag (ev : PointerEvent) (cardId : string)
    (selectedIds : option (gset string)) (e : t) : t :=
  let targets : list string :=
    match selectedIds with
    | Some ids => if bool_decide (cardId ∈ ids) then elements ids else [cardId]
    | None => [cardId]
    end in
  let localPos := Container.toLocal (worldContainer e) (PointerEvent.global ev) in
  fold_left
    (fun e id =>
       match cards e !! id with
       | Some card =>
           let state := Card.state card in
           let g := Card.graphics card in
           let state' :=
             PhysicsState.mk (PhysicsState.x state) (PhysicsState.y state) 0 0
               (PhysicsState.targetX state) (PhysicsState.targetY state) true
               (fst localPos - PhysicsState.x state)
               (snd localPos - PhysicsState.y state)
               (PhysicsState.cardId state) in
           let g' :=
             Graphics.mk (Graphics.x g) (Graphics.y g) "grabbing"
                         (Graphics.fill g) (Graphics.text g) (Graphics.image g) in
           setCards (<[id := Card.mk g' state']> (cards e)) e
       | None => e
       end)
    targets e.

(** [Math.round] *)
Definition round (q : Q) : Q := inject_Z (Qfloor (q + (1 # 2))).

(** The body of the loop of the move handler over the cards. *)
Definition dragCard (localMousePos : Q * Q) (card : Card) : Card :=
  let state := Card.state card in
  if PhysicsState.isDragging state then
    let newX := fst localMousePos - PhysicsState.dragOffsetX state in
    let newY := snd localMousePos - PhysicsState.dragOffsetY state in
    let vx := (newX - PhysicsState.x state) / PHYSICS_CONFIG.mass in
    let vy := (newY - PhysicsState.y state) / PHYSICS_CONFIG.mass in
    let gridSize := 50 in
    let g := Card.graphics card in
    Card.mk
      (Graphics.mk newX newY (Graphics.cursor g) (Graphics.fill g)
                   (Graphics.text g) (Graphics.image g))
      (PhysicsState.mk newX newY vx vy
         (round (newX / gridSize) * gridSize)
         (round (newY / gridSize) * gridSize)
         (PhysicsState.isDragging state) (PhysicsState.dragOffsetX state)
         (PhysicsState.dragOffsetY state) (PhysicsState.cardId state))
  else card.

(** What the [globalpointermove] handler does after
    [interactionManager.handleGlobalMove], for the mode the manager is in. *)
Definition onGlobalPointerMove (mode : InteractionMode) (ev : PointerEvent)
    (e : t) : t :=
  if bool_decide (mode = ERASING) && Z.eqb (PointerEvent.buttons ev) 1 then
    eraseAt (PointerEvent.globalX ev) (PointerEvent.globalY ev) e
  else
    let localPos := Container.toLocal (worldContainer e) (PointerEvent.global ev) in
    let e := call (onCursorMove e) (CursorMove (fst localPos) (snd localPos)) e in
    match currentStroke e with
    | Some _ => continueStroke ev e
    | None =>
        let v := viewport e in
        let e :=
          if ViewportState.isDragging v then
            let dx := PointerEvent.globalX ev - ViewportState.lastPointerX v in
            let dy := PointerEvent.globalY ev - ViewportState.lastPointerY v in
            setViewport
              (ViewportState.mk (ViewportState.x v + dx) (ViewportState.y v + dy)
                 (ViewportState.scale v) dx dy (ViewportState.isDragging v)
                 (PointerEvent.globalX ev) (PointerEvent.globalY ev)) e
          else e in
        let localMousePos :=
          Container.toLocal (worldContainer e) (PointerEvent.global ev) in
        setCards (dragCard localMousePos <$> cards e) e
    end.

(** The body of the loop of the pointer-up handler over the cards. *)
Definition releaseCard (card : Card) : Card :=
  let state := Card.state card in
  if PhysicsState.isDragging state then
    let g := Card.graphics card in
    Card.mk
      (Graphics.mk (Graphics.x g) (Graphics.y g) "grab" (Graphics.fill g)
                   (Graphics.text g) (Graphics.image g))
      (PhysicsState.mk (PhysicsState.x state) (PhysicsState.y state)
         (PhysicsState.vx state) (PhysicsState.vy state)
         (PhysicsState.targetX state) (PhysicsState.targetY state) false
         (PhysicsState.dragOffsetX state) (PhysicsState.dragOffsetY state)
         (PhysicsState.cardId state))
  else card.

(** What [onUp] does after [interactionManager.handleGlobalUp]: it ends the
    stroke, the pan and every drag, and reports the position of each card
    released (here in the order of the keys of the map, in the source in the
    order the cards were created).  When [endStroke] throws (see there) the
    source releases nothing; the model does not have that case. *)
Definition onUp (e : t) : t :=
  let e := match currentStroke e with Some _ => endStroke e | None => e end in
  let v := viewport e in
  let e :=
    setViewport
      (ViewportState.mk (ViewportState.x v) (ViewportState.y v)
         (ViewportState.scale v) (ViewportState.vx v) (ViewportState.vy v)
         false (ViewportState.lastPointerX v) (ViewportState.lastPointerY v)) e in
  let released :=
    List.filter
      (fun kv => PhysicsState.isDragging (Card.state (snd kv)))
      (map_to_list (cards e)) in
  let e := setCards (releaseCard <$> cards e) e in
  fold_left
    (fun e kv =>
       call (onPositionChange e)
            (PositionChange (fst kv) (PhysicsState.x (Card.state (snd kv)))
                            (PhysicsState.y (Card.state (snd kv)))) e)
    released e.

End CanvasEngine.
Abbreviation CanvasEngine := CanvasEngine.t.

(** ** src/core/interaction_manager.ts *)

(** The manager and the engine it drives.  [engineSet] says whether
    [setEngine] was called: the manager calls the engine through
    [this.engine?.], which does nothing before.  [editStarts] lists the calls
    made to [onEditStart], oldest first. *)
Module InteractionManager.
Record t : Type := mk {
  mode : InteractionMode;
  isSpacePressed : bool;
  engineSet : bool;
  selectedCardIds : gset string;
  lastClickTime : Z;
  lastClickedCardId : option string;
  onEditStart : bool;
  dragStart : option (Q * Q);
  connectionStartId : option string;
  editStarts : list string
}.

Definition new : t := mk IDLE false false ∅ 0 None false None None [].

Definition setEngine (m : t) : t :=
  mk (mode m) (isSpacePressed m) true (selectedCardIds m) (lastClickTime m)
     (lastClickedCardId m) (onEditStart m) (dragStart m) (connectionStartId m)
     (editStarts m).

(** [setMode]; the listeners only display the mode. *)
Definition setMode (md : InteractionMode) (m : t) : t :=
  mk md (isSpacePressed m) (engineSet m) (selectedCardIds m) (lastClickTime m)
     (lastClickedCardId m) (onEditStart m) (dragStart m) (connectionStartId m)
     (editStarts m).

Definition setSpacePressed (b : bool) (m : t) : t :=
  mk (mode m) b (engineSet m) (selectedCardIds m) (lastClickTime m)
     (lastClickedCardId m) (onEditStart m) (dragStart m) (connectionStartId m)
     (editStarts m).

Definition setSelectedCardIds (s : gset string) (m : t) : t :=
  mk (mode m) (isSpacePressed m) (engineSet m) s (lastClickTime m)
     (lastClickedCardId m) (onEditStart m) (dragStart m) (connectionStartId m)
     (editStarts m).

Definition setLastClick (time : Z) (cardId : string) (m : t) : t :=
  mk (mode m) (isSpacePressed m) (engineSet m) (selectedCardIds m) time
     (Some cardId) (onEditStart m) (dragStart m) (connectionStartId m)
     (editStarts m).

Definition setDragStart (p : option (Q * Q)) (m : t) : t :=
  mk (mode m) (isSpacePressed m) (engineSet m) (selectedCardIds m)
     (lastClickTime m) (lastClickedCardId m) (onEditStart m) p
     (connectionStartId m) (editStarts m).

Definition setConnectionStartId (c : option string) (m : t) : t :=
  mk (mode m) (isSpacePressed m) (engineSet m) (selectedCardIds m)
     (lastClickTime m) (lastClickedCardId m) (onEditStart m) (dragStart m) c
     (editStarts m).

Definition callEditStart (cardId : string) (m : t) : t :=
  if onEditStart m then
    mk (mode m) (isSpacePressed m) (engineSet m) (selectedCardIds m)
       (lastClickTime m) (lastClickedCardId m) (onEditStart m) (dragStart m)
       (connectionStartId m) (editStarts m ++ [cardId])
  else m.

(** The manager together with the engine. *)
Record System : Type := mkSystem { manager : t; engine : CanvasEngine }.

(** [this.engine?.f(...)] *)
Definition withEngine (f : CanvasEngine -> CanvasEngine) (s : System) : System :=
  if engineSet (manager s) then mkSystem (manager s) (f (engine s)) else s.

Definition onManager (f : t -> t) (s : System) : System :=
  mkSystem (f (manager s)) (engine s).

(** [this.engine?.setCursor(cursor)], which sets
    [app.canvas.style.cursor].  The cursor of the canvas is no part of the
    state of the engine above; the key listeners, the only callers of the
    manager, carry it beside the system. *)
Definition setCursor (cursor : string) (s : System) (canvasCursor : string)
    : string :=
  if engineSet (manager s) then cursor else canvasCursor.

(** A tool shortcut: [setMode(mode)] and [engine?.setCursor(cursor)]. *)
Definition chooseTool (md : InteractionMode) (cursor : string)
    (sc : System * string) : System * string :=
  (onManager (setMode md) (fst sc), setCursor cursor (fst sc) (snd sc)).

(** The [keydown] listener, on the system and the cursor of the canvas:
    [typing] says whether the target is an input, [code] and [key] are
    those of the event, [key] in lower case. *)
Definition keydown (typing : bool) (code key : string)
    (sc : System * string) : System * string :=
  if typing then sc else
  let sc :=
    if String.eqb code "Space" && negb (isSpacePressed (manager (fst sc)))
    then (onManager (fun m => setMode PANNING (setSpacePressed true m)) (fst sc),
          setCursor "grab" (fst sc) (snd sc))
    else sc in
  if negb (isSpacePressed (manager (fst sc))) then
    if String.eqb key "p" then chooseTool DRAWING "crosshair" sc
    else if String.eqb key "e" then chooseTool ERASING "crosshair" sc
    else if String.eqb key "c" then chooseTool CONNECTING "alias" sc
    else if String.eqb key "v" then chooseTool IDLE "default" sc
    else sc
  else sc.

(** The [keyup] listener. *)
Definition keyup (code : string) (sc : System * string) : System * string :=
  if String.eqb code "Space" then
    let s := onManager (setSpacePressed false) (fst sc) in
    if bool_decide (mode (manager s) = PANNING)
    then (onManager (setMode IDLE) s, setCursor "default" s (snd sc))
    else (s, snd sc)
  else sc.

Definition deselectAll (s : System) : System :=
  onManager (setSelectedCardIds ∅) s.

Definition selectCard (cardId : string) (s : System) : System :=
  onManager (fun m => setSelectedCardIds ({[cardId]} ∪ selectedCardIds m) m) s.

(** [handleCanvasDown(e)]; [uuid] is the id [startStroke] draws. *)
Definition handleCanvasDown (uuid : string) (ev : PointerEvent) (s : System)
    : System :=
  if isSpacePressed (manager s) || Z.eqb (PointerEvent.button ev) 1 then
    withEngine (CanvasEngine.startPan ev) (onManager (setMode PANNING) s)
  else if bool_decide (mode (manager s) = DRAWING) then
    withEngine (CanvasEngine.startStroke uuid ev) s
  else if bool_decide (mode (manager s) = IDLE) then
    onManager
      (fun m => setDragStart
                  (Some (PointerEvent.globalX ev, PointerEvent.globalY ev))
                  (setMode SELECTING m))
      (deselectAll s)
  else s.

Definition handleGlobalMove (ev : PointerEvent) (s : System) : System :=
  match dragStart (manager s) with
  | Some start =>
      if bool_decide (mode (manager s) = SELECTING) && engineSet (manager s)
      then
        let worldContainer := CanvasEngine.worldContainer (engine s) in
        let startLocal := Container.toLocal worldContainer start in
        let currentLocal :=
          Container.toLocal worldContainer (PointerEvent.global ev) in
        let x := Qmin (fst startLocal) (fst currentLocal) in
        let y := Qmin (snd startLocal) (snd currentLocal) in
        let width := Qabs (fst currentLocal - fst startLocal) in
        let height := Qabs (snd currentLocal - snd startLocal) in
        let intersectedIds :=
          CanvasEngine.getCardsInRect x y width height (engine s) in
        onManager (setSelectedCardIds (list_to_set intersectedIds)) s
      else s
  | None => s
  end.

Definition handleGlobalUp (s : System) : System :=
  if bool_decide (mode (manager s) = SELECTING) then
    onManager (fun m => setDragStart None (setMode IDLE m)) s
  else s.

(** [handleCardDown(e, cardId)], with the time [Date.now()] read. *)
Definition handleCardDown (now : Z) (ev : PointerEvent) (cardId : string)
    (s : System) : System :=
  if isSpacePressed (manager s) then s else
  let delta := (now - lastClickTime (manager s))%Z in
  if bool_decide (lastClickedCardId (manager s) = Some cardId) &&
     Z.ltb delta 500
  then
    onManager (fun m => callEditStart cardId (setMode EDITING m)) s
  else
    let s := onManager (setLastClick now cardId) s in
    let s :=
      if negb (PointerEvent.shiftKey ev) then
        if negb (bool_decide (cardId ∈ selectedCardIds (manager s)))
        then deselectAll s else s
      else s in
    let s := selectCard cardId s in
    if bool_decide (mode (manager s) = CONNECTING) then
      onManager (setConnectionStartId (Some cardId)) s
    else
      let s := onManager (setMode DRAGGING) s in
      withEngine
        (CanvasEngine.startDrag ev cardId (Some (selectedCardIds (manager s)))) s.

Definition handleCardUp (cardId : string) (s : System) : System :=
  match connectionStartId (manager s) with
  | Some start =>
      if bool_decide (mode (manager s) = CONNECTING) && truthy start then
        let s :=
          if negb (String.eqb start cardId)
          then withEngine (CanvasEngine.createConnection start cardId) s
          else s in
        onManager (setConnectionStartId None) s
      else s
  | None => s
  end.

(** *** The handlers the engine registers on the stage and on each card *)

(** [pointerup] and [pointerupoutside] on the stage. *)
Definition stagePointerUp (s : System) : System :=
  let s := handleGlobalUp s in
  mkSystem (manager s) (CanvasEngine.onUp (engine s)).

(** [globalpointermove] on the stage. *)
Definition stagePointerMove (ev : PointerEvent) (s : System) : System :=
  let s := handleGlobalMove ev s in
  mkSystem (manager s)
           (CanvasEngine.onGlobalPointerMove (mode (manager s)) ev (engine s)).

End InteractionManager.
Abbreviation InteractionManager := InteractionManager.t.
Abbreviation System := InteractionManager.System.

(** ** src/App.tsx: the callbacks of the engine, wired to the store *)

(** What the store does on a call of the engine; [now] is the time
    [updateCardPosition] reads. *)
Definition persist (now : Z) (c : Call) (d : DocumentStore) : DocumentStore :=
  match c with
  | PositionChange cardId x y => DocumentStore.updateCardPosition now cardId x y d
  | ConnectionCreated fromId toId => DocumentStore.createConnection fromId toId d
  | StrokeFinished id points =>
      DocumentStore.addStroke (StrokeData.mk id points 16777215 2) d
  | StrokeDeleted id => DocumentStore.deleteStroke id d
  | CursorMove _ _ => d
  end.

(** ** What hydration leaves of a card *)

(** The state [updateCardPosition] writes: the old one with a new target. *)
Definition retarget (x y : Q) (s : PhysicsState) : PhysicsState :=
  PhysicsState.mk (PhysicsState.x s) (PhysicsState.y s) (PhysicsState.vx s)
    (PhysicsState.vy s) x y (PhysicsState.isDragging s)
    (PhysicsState.dragOffsetX s) (PhysicsState.dragOffsetY s)
    (PhysicsState.cardId s).

(** The graphics [updateCardText] writes: the old one with a new text. *)
Definition retext (text : string) (g : Graphics) : Graphics :=
  Graphics.mk (Graphics.x g) (Graphics.y g) (Graphics.cursor g)
    (Graphics.fill g) text (Graphics.image g).


(** ** Connections and the ids of ordered pairs *)

Section ConnectionMaps.
Context {C : Type} (fromId toId : C -> string).





End ConnectionMaps.



(** ** Boards used below *)

(** A board whose only card was created and then removed. *)
Definition boardAfterRemoveCard : CanvasEngine :=
  CanvasEngine.removeCard "a"
    (CanvasEngine.createCard "a" 0 0 16769126 "" None CanvasEngine.new).

(** The same card, removed by hydrating from an empty snapshot. *)
Definition boardAfterHydrateAway : CanvasEngine :=
  CanvasEngine.hydrate [] [] []
    (CanvasEngine.createCard "a" 0 0 16769126 "" None CanvasEngine.new).

(** A pointer event at the origin, left button, no modifier. *)
Definition plainEvent : PointerEvent :=
  PointerEvent.mk 0 0 0 1 false 0 None.

(** Connecting mode, with cards "a" and "b" on the board. *)
Definition connectingSystem : System :=
  InteractionManager.mkSystem
    (InteractionManager.setMode CONNECTING
       (InteractionManager.setEngine InteractionManager.new))
    (CanvasEngine.createCard "b" 400 0 16769126 "" None
       (CanvasEngine.createCard "a" 0 0 16769126 "" None CanvasEngine.new)).

(** The same, one click on "a" later (at time 1000): pressed and released
    on the card. *)
Definition connectingAfterClick : System :=
  InteractionManager.stagePointerUp
    (InteractionManager.handleCardUp "a"
       (InteractionManager.handleCardDown 1000 plainEvent "a" connectingSystem)).

(** The same, with "a" pressed (at time 1000) and the pointer released on
    empty space. *)
Definition connectingAfterMiss : System :=
  InteractionManager.stagePointerUp
    (InteractionManager.handleCardDown 1000 plainEvent "a" connectingSystem).

(** The powers of the friction factor. *)
Fixpoint frictionPow (n : nat) : Q :=
  match n with
  | O => 1
  | S k => PHYSICS_CONFIG.friction * frictionPow k
  end.



(** ** Sequences of engine operations *)

(** The operations of the engine, with their arguments. *)
Inductive Op : Type :=
| CreateCard (cardId : string) (x y : Q) (color : Z) (text : string)
             (imageUrl : option string)
| UpdateCardPosition (cardId : string) (x y : Q)
| UpdateCardText (cardId : string) (text : string)
| RemoveCard (cardId : string)
| Hydrate (cards : list CardData) (connections : list ConnectionData)
          (strokes : list StrokeData)
| CreateConnection (fromId toId : string)
| StartStroke (uuid : string) (ev : PointerEvent)
| ContinueStroke (ev : PointerEvent)
| EndStroke
| EraseAt (x y : Q)
| PhysicsTick
| Wheel (deltaY offsetX offsetY : Q)
| StartPan (ev : PointerEvent)
| StartDrag (ev : PointerEvent) (cardId : string)
            (selectedIds : option (gset string))
| GlobalPointerMove (mode : InteractionMode) (ev : PointerEvent)
| PointerUp
| SetOnPositionChange
| SetPersistenceCallbacks
| SetOnCursorMove.

Definition run (op : Op) (e : CanvasEngine) : CanvasEngine :=
  match op with
  | CreateCard cardId x y color text imageUrl =>
      CanvasEngine.createCard cardId x y color text imageUrl e
  | UpdateCardPosition cardId x y => CanvasEngine.updateCardPosition cardId x y e
  | UpdateCardText cardId text => CanvasEngine.updateCardText cardId text e
  | RemoveCard cardId => CanvasEngine.removeCard cardId e
  | Hydrate cards connections strokes =>
      CanvasEngine.hydrate cards connections strokes e
  | CreateConnection fromId toId => CanvasEngine.createConnection fromId toId e
  | StartStroke uuid ev => CanvasEngine.startStroke uuid ev e
  | ContinueStroke ev => CanvasEngine.continueStroke ev e
  | EndStroke => CanvasEngine.endStroke e
  | EraseAt x y => CanvasEngine.eraseAt x y e
  | PhysicsTick => CanvasEngine.physicsTick e
  | Wheel deltaY offsetX offsetY => CanvasEngine.wheel deltaY offsetX offsetY e
  | StartPan ev => CanvasEngine.startPan ev e
  | StartDrag ev cardId selectedIds => CanvasEngine.startDrag ev cardId selectedIds e
  | GlobalPointerMove mode ev => CanvasEngine.onGlobalPointerMove mode ev e
  | PointerUp => CanvasEngine.onUp e
  | SetOnPositionChange => CanvasEngine.setOnPositionChange e
  | SetPersistenceCallbacks => CanvasEngine.setPersistenceCallbacks e
  | SetOnCursorMove => CanvasEngine.setOnCursorMove e
  end.

Definition runAll (ops : list Op) (e : CanvasEngine) : CanvasEngine :=
  fold_left (fun e op => run op e) ops e.

(** An entry of the stroke index as [endStroke] makes it: the bounds are
    those of the points of the stroke, the id is that of the stroke, and the
    stroke has two points or more. *)
Definition indexedStroke (en : Entry StrokeItem) : Prop :=
  ebounds en = CanvasEngine.getStrokeBounds (StrokeState.points (stroke (item en))) /\
  strokeItemId (item en) = StrokeState.id (stroke (item en)) /\
  (2 <= length (StrokeState.points (stroke (item en))))%nat.

(** A call that hands over a finished stroke hands over two points or more. *)
Definition callOk (c : Call) : Prop :=
  match c with
  | StrokeFinished _ points => (2 <= length points)%nat
  | _ => True
  end.

(** What every sequence of operations maintains about strokes. *)
Record StrokesOk (e : CanvasEngine) : Prop := mkStrokesOk {
  indexShaped : shaped (CanvasEngine.strokeQuadtree e);
  indexEntries :
    List.Forall indexedStroke (entries (CanvasEngine.strokeQuadtree e));
  callsOk : List.Forall callOk (CanvasEngine.calls e);
  currentNonEmpty :
    forall st, CanvasEngine.currentStroke e = Some st -> StrokeState.points st <> []
}.

(** The store after the calls of the engine, wired as in App.tsx. *)
Definition persistAll (now : Z) (cs : list Call) (d : DocumentStore)
    : DocumentStore :=
  fold_left (fun d c => persist now c d) cs d.

(** [e'] differs from [e] neither in the viewport nor in what concerns
    strokes, but for calls made that hand over no stroke of fewer than two
    points. *)
Definition frames (e e' : CanvasEngine) : Prop :=
  CanvasEngine.viewport e' = CanvasEngine.viewport e /\
  CanvasEngine.strokeQuadtree e' = CanvasEngine.strokeQuadtree e /\
  CanvasEngine.currentStroke e' = CanvasEngine.currentStroke e /\
  exists extra, CanvasEngine.calls e' = CanvasEngine.calls e ++ extra /\
                List.Forall callOk extra.

(** A stroke of the store has two points or more. *)
Definition storedOk (d : DocumentStore) : Prop :=
  map_Forall (fun _ s => (2 <= length (StrokeData.points s))%nat)
             (DocumentStore.strokesMap d).






(** The request [eraseAt] sends to the index for the local point. *)
Definition searchBounds (px py : Q) : Rect :=
  Rect.mk (px - CanvasEngine.eraseRadius) (py - CanvasEngine.eraseRadius)
          (CanvasEngine.eraseRadius * 2) (CanvasEngine.eraseRadius * 2).

(** *** Boards with strokes *)

(** A stroke of two points drawn by the pointer: pressed at the first
    point, moved to the second, released. *)
Definition drawStroke (uuid : string) (x1 y1 x2 y2 : Q) : list Op :=
  [StartStroke uuid (PointerEvent.mk x1 y1 0 1 false (1 # 2) None);
   ContinueStroke (PointerEvent.mk x2 y2 0 1 false (1 # 2) None);
   EndStroke].

(** Ten short strokes in the south-east quadrant of the world. *)
Definition tenStrokes : list Op :=
  flat_map
    (fun s => drawStroke (fst s) (snd s) 100 (snd s + 10) 110)
    [("s0", 100); ("s1", 200); ("s2", 300); ("s3", 400); ("s4", 500);
     ("s5", 600); ("s6", 700); ("s7", 800); ("s8", 900); ("s9", 1000)]%string.

(** The ten strokes and an eleventh, in the north-west quadrant, within the
    world; the persistence callbacks are registered. *)
Definition boardStrokesInside : CanvasEngine :=
  runAll (SetPersistenceCallbacks :: tenStrokes ++
          drawStroke "west" (-1000) (-30) (-1000) (-25))
         CanvasEngine.new.



(** The viewport dragged by (16, 16) from its initial place. *)
Definition pannedOps : list Op :=
  [StartPan (PointerEvent.mk 100 100 0 1 false (1 # 2) None);
   GlobalPointerMove IDLE (PointerEvent.mk 116 116 0 1 false (1 # 2) None);
   PointerUp].

Definition boardPanned : CanvasEngine := runAll pannedOps CanvasEngine.new.





(** The scale of the viewport is within the range of the zoom. *)
Definition scaleOk (e : CanvasEngine) : Prop :=
  1 # 10 <= ViewportState.scale (CanvasEngine.viewport e) /\
  ViewportState.scale (CanvasEngine.viewport e) <= 5.

(** ** More about the quadtree *)

(** The number of levels below a node. *)
Fixpoint depth {T : Type} (t : Quadtree T) : nat :=
  match t with
  | Leaf _ _ => O
  | Split _ _ c0 c1 c2 c3 =>
      S (Nat.max (Nat.max (depth c0) (depth c1)) (Nat.max (depth c2) (depth c3)))
  end.

(** The discipline of the buckets: a node with children keeps only the
    entries that fit no quadrant, and a node without children that may
    still split holds no more entries than its capacity. *)
Fixpoint tidy {T : Type} (t : Quadtree T) : Prop :=
  match t with
  | Leaf h objs =>
      (level h < maxLevel h)%nat -> (length objs <= capacity h)%nat
  | Split h objs c0 c1 c2 c3 =>
      List.Forall (fun e => getIndex (bounds h) (ebounds e) = None) objs /\
      tidy c0 /\ tidy c1 /\ tidy c2 /\ tidy c3
  end.

(** A list of items without the first one that has the id. *)
Fixpoint withoutFirst {T : Type} (itemId : T -> string) (id : string)
    (l : list T) : list T :=
  match l with
  | [] => []
  | x :: rest =>
      if String.eqb (itemId x) id then rest
      else x :: withoutFirst itemId id rest
  end.

(** Twelve items within the world, with ids "k0" to "k11": the first six in
    the south-east quadrant, the others across the vertical midline. *)
Definition twelveItems : list (Entry string) :=
  map (fun s => mkEntry (fst s) (snd s))
    [("k0", Rect.mk 10 10 1 1); ("k1", Rect.mk 20 10 1 1);
     ("k2", Rect.mk 30 10 1 1); ("k3", Rect.mk 40 10 1 1);
     ("k4", Rect.mk 50 10 1 1); ("k5", Rect.mk 60 10 1 1);
     ("k6", Rect.mk (-5) 10 10 1); ("k7", Rect.mk (-5) 20 10 1);
     ("k8", Rect.mk (-5) 30 10 1); ("k9", Rect.mk (-5) 40 10 1);
     ("k10", Rect.mk (-5) 50 10 1); ("k11", Rect.mk (-5) 60 10 1)]%string.

(** The tree the twelve insertions build. *)
Definition twelveTree : Quadtree string :=
  match insertAll (newQuadtree worldBounds 10 5 0) twelveItems with
  | Some t => t
  | None => newQuadtree worldBounds 10 5 0
  end.

(** ** More about the cards of the engine *)

(** Every card of the board is an item of the card index. *)
Definition cardsIndexed (e : CanvasEngine) : Prop :=
  map_Forall
    (fun id _ => In (mkCardItem id) (getAll (CanvasEngine.cardQuadtree e)))
    (CanvasEngine.cards e).

(** The card, 200 wide and 150 high at its current position, overlaps the
    rectangle spanned from [(x, y)] by [width] and [height], which may be
    negative. *)
Definition cardOverlaps (x y width height : Q) (card : Card) : Prop :=
  let state := Card.state card in
  Qmin x (x + width) < PhysicsState.x state + 200 /\
  PhysicsState.x state < Qmax x (x + width) /\
  Qmin y (y + height) < PhysicsState.y state + 150 /\
  PhysicsState.y state < Qmax y (y + height).

(** The ids returned by [getCardsInRect] are those of cards of the board
    that overlap the rectangle. *)
Definition selectsOverlapping (x y width height : Q) (e : CanvasEngine)
    (ids : list string) : Prop :=
  List.Forall
    (fun id => exists card, CanvasEngine.cards e !! id = Some card /\
                            cardOverlaps x y width height card)
    ids.

(** [e'] has the card index of [e] and no card that [e] has not. *)
Definition keysWithin (e e' : CanvasEngine) : Prop :=
  CanvasEngine.cardQuadtree e' = CanvasEngine.cardQuadtree e /\
  forall id, is_Some (CanvasEngine.cards e' !! id) ->
             is_Some (CanvasEngine.cards e !! id).

(** Every card has an entry in the index, and the index has the shape on
    which [insert] returns. *)
Definition cardsCovered (e : CanvasEngine) : Prop :=
  shaped (CanvasEngine.cardQuadtree e) /\
  forall id, is_Some (CanvasEngine.cards e !! id) ->
  exists en, In en (entries (CanvasEngine.cardQuadtree e)) /\
             cardItemId (item en) = id.

(** What [startDrag] writes on a card it targets. *)
Definition grab (localPos : Q * Q) (card : Card) : Card :=
  let state := Card.state card in
  let g := Card.graphics card in
  Card.mk
    (Graphics.mk (Graphics.x g) (Graphics.y g) "grabbing"
                 (Graphics.fill g) (Graphics.text g) (Graphics.image g))
    (PhysicsState.mk (PhysicsState.x state) (PhysicsState.y state) 0 0
       (PhysicsState.targetX state) (PhysicsState.targetY state) true
       (fst localPos - PhysicsState.x state)
       (snd localPos - PhysicsState.y state)
       (PhysicsState.cardId state)).

(** The cards [startDrag] targets. *)
Definition dragTargets (cardId : string) (selectedIds : option (gset string))
    : list string :=
  match selectedIds with
  | Some ids => if bool_decide (cardId ∈ ids) then elements ids else [cardId]
  | None => [cardId]
  end.

(** A board with the cards "a" at (0, 0) and "b" at (300, 0). *)
Definition boardTwoCards : CanvasEngine :=
  runAll [CreateCard "a" 0 0 16769126 "" None;
          CreateCard "b" 300 0 16769126 "" None;
          SetOnPositionChange]
         CanvasEngine.new.

(** A call that reports the position of the pointer. *)
Definition isCursorMove (c : Call) : Prop :=
  match c with CursorMove _ _ => True | _ => False end.

(** A store that holds the record of the card "a" of [boardTwoCards]. *)
Definition storeWithA : DocumentStore :=
  fst (DocumentStore.createCard "a" 1000
         (NewCard.mk 0 0 200 150 16769126 "" None) DocumentStore.empty).

(** ** More about hydration *)

(** [e'] made no call since [e] and has its transform, its viewport, its
    strokes, the points and the id of its stroke in progress and its
    stroke index. *)
Definition quiet (e e' : CanvasEngine) : Prop :=
  CanvasEngine.calls e' = CanvasEngine.calls e /\
  CanvasEngine.strokeQuadtree e' = CanvasEngine.strokeQuadtree e /\
  CanvasEngine.currentStroke e' = CanvasEngine.currentStroke e /\
  CanvasEngine.viewport e' = CanvasEngine.viewport e /\
  CanvasEngine.worldContainer e' = CanvasEngine.worldContainer e /\
  CanvasEngine.strokes e' = CanvasEngine.strokes e.

(** After [hydrate] the cards and the connections are those of the
    snapshot, every stroke of the snapshot is on the board, and a stroke
    of the board that has an id is one of the snapshot. *)
Definition reconciled (cards : list CardData) (connections : list ConnectionData)
    (strokes : list StrokeData) (e : CanvasEngine) : Prop :=
  (forall id, is_Some (CanvasEngine.cards e !! id) <->
              In id (map CardData.id cards)) /\
  (forall id, is_Some (CanvasEngine.connections e !! id) <->
              In id (map ConnectionData.id connections)) /\
  (forall id, In id (map StrokeData.id strokes) ->
              In id (map StrokeState.id (CanvasEngine.strokes e))) /\
  (forall s, In s (CanvasEngine.strokes e) ->
             truthy (StrokeState.id s) = true ->
             In (StrokeState.id s) (map StrokeData.id strokes)).

(** A new engine hydrated with one stroke from the store. *)
Definition hydratedStroke : StrokeState :=
  StrokeState.mk [(0, 0, 1 # 2); (10, 0, 1 # 2)] "s1".

Definition boardHydrated : CanvasEngine :=
  CanvasEngine.hydrate [] []
    [StrokeData.mk "s1" [(0, 0, 1 # 2); (10, 0, 1 # 2)] 16777215 2]
    (CanvasEngine.setPersistenceCallbacks CanvasEngine.new).

(** *** The graphics of the stroke in progress *)

(** The engine keeps for every stroke a graphics object, which the model
    leaves out.  [hydrate] and the eraser destroy the graphics of the
    strokes they remove, that of the stroke in progress included, and
    [renderStroke] throws on a destroyed graphics: [endStroke] then stops
    before it reports or indexes the stroke, and a pointer-up stops before
    it releases anything.  Whether the stroke in
    progress is in that case is read off the operations made. *)
Inductive StrokeHealth : Type :=
| NoStroke       (* no stroke in progress *)
| Intact         (* one in progress, its graphics untouched since it began *)
| MaybeDestroyed (* one in progress that a hydration or the eraser may
                    have removed *).

Definition strokeHealthAfter (h : StrokeHealth) (op : Op) : StrokeHealth :=
  match op with
  | StartStroke _ _ => Intact
  | EndStroke | PointerUp =>
      match h with Intact => NoStroke | _ => h end
  | Hydrate _ _ _ | EraseAt _ _ =>
      match h with Intact => MaybeDestroyed | _ => h end
  | GlobalPointerMove mode ev =>
      if bool_decide (mode = ERASING) && Z.eqb (PointerEvent.buttons ev) 1
      then match h with Intact => MaybeDestroyed | _ => h end
      else h
  | _ => h
  end.

Definition strokeHealth (ops : list Op) : StrokeHealth :=
  fold_left strokeHealthAfter ops NoStroke.

(** A board on which the card "a" is held, the viewport is held and a
    stroke is in progress. *)
Definition busyOps : list Op :=
  [CreateCard "a" 0 0 16769126 "" None;
   StartDrag (PointerEvent.mk 10 10 0 1 false 0 None) "a" None;
   StartPan (PointerEvent.mk 10 10 0 1 false 0 None);
   StartStroke "s" (PointerEvent.mk 10 10 0 1 false (1 # 2) None);
   ContinueStroke (PointerEvent.mk 20 10 0 1 false (1 # 2) None)].

(** ** More about the viewport *)

(** What [viewportTick] does to one coordinate of a viewport that is not
    held, on the pair of the position and the velocity. *)
Definition coast (pw : Q * Q) : Q * Q :=
  let w := snd pw * PHYSICS_CONFIG.friction in
  (fst pw + w, if Qltb (Qabs w) PHYSICS_CONFIG.minVelocity then 0 else w).

(** A number of ticks after which a velocity of this size has stopped. *)
Definition ticksToStop (w : Q) : nat := S (Z.to_nat (Qceiling (1250 * Qabs w))).

(** A viewport let go with the velocity (1/50, -1/100). *)
Definition thrownViewport : ViewportState :=
  ViewportState.mk 0 0 1 (1 # 50) (-1 # 100) false 0 0.

(** ** src/core/canvas_engine.ts: what is drawn *)

(** What [renderStroke] draws on the graphics of a stroke, after it has
    cleared it: filled circles and stroked segments. *)
Inductive Draw : Type :=
| Circle (x y radius : Q) (fill : Z)
| Segment (x1 y1 x2 y2 width : Q) (color : Z).

(** The loop of [renderStroke] over the pairs of successive points. *)
Fixpoint renderSegments (points : list Point) : list Draw :=
  match points with
  | p1 :: ((p2 :: _) as rest) =>
      let pressure := pressureOr ((pointPressure p1 + pointPressure p2) / 2) in
      let size := Qmax 2 (pressure * 16) in
      Segment (pointX p1) (pointY p1) (pointX p2) (pointY p2) size 16777215
        :: renderSegments rest
  | _ => []
  end.

(** [renderStroke(stroke)], on the points of the stroke. *)
Definition renderStroke (points : list Point) : list Draw :=
  if Nat.ltb (length points) 2 then
    match points with
    | [p] =>
        let size := pressureOr (pointPressure p) * 8 in
        [Circle (pointX p) (pointY p) (size / 2) 16777215]
    | _ => []
    end
  else renderSegments points.

(** Where a segment starts and ends, and its width. *)
Definition drawStart (d : Draw) : option (Q * Q) :=
  match d with Segment x1 y1 _ _ _ _ => Some (x1, y1) | Circle _ _ _ _ => None end.
Definition drawEnd (d : Draw) : option (Q * Q) :=
  match d with Segment _ _ x2 y2 _ _ => Some (x2, y2) | Circle _ _ _ _ => None end.
Definition wideEnough (d : Draw) : Prop :=
  match d with Segment _ _ _ _ w _ => 2 <= w | Circle _ _ _ _ => False end.
Definition pointXY (p : Point) : Q * Q := (pointX p, pointY p).

(** What [fitSprite] reads and writes of a sprite: the size of its
    texture, when it has one, and its box. *)
Module Sprite.
Record t : Type := mk {
  texture : option (Q * Q);
  x : Q;
  y : Q;
  width : Q;
  height : Q
}.
End Sprite.
Abbreviation Sprite := Sprite.t.

(** [fitSprite(sprite, width, height)] *)
Definition fitSprite (sprite : Sprite) (width height : Q) : Sprite :=
  match Sprite.texture sprite with
  | None => sprite
  | Some (textureWidth, textureHeight) =>
      let ratio := textureWidth / textureHeight in
      let targetRatio := width / height in
      let '(w, h) :=
        if Qgtb ratio targetRatio then (height * ratio, height)
        else (width, width / ratio) in
      Sprite.mk (Sprite.texture sprite) ((width - w) / 2) ((height - h) / 2) w h
  end.

(** ** The cursors of the other users ([setupAwareness]) *)

(** The state a client publishes, as the engine reads it. *)
Module AwarenessState.
Record t : Type := mk {
  x : option Q;
  y : option Q;
  color : option Z;
  name : option string
}.
End AwarenessState.
Abbreviation AwarenessState := AwarenessState.t.

(** The graphics of a remote cursor: its position, the fill of its
    circle, its label and its tint. *)
Module Cursor.
Record t : Type := mk { x : Q; y : Q; fill : Z; label : string; tint : Z }.
End Cursor.
Abbreviation Cursor := Cursor.t.

(** [state.color || 0xFF0000] and [state.name || 'User'] *)
Definition colorOr (c : option Z) : Z :=
  match c with
  | Some z => if Z.eqb z 0 then 16711680%Z else z
  | None => 16711680%Z
  end.
Definition nameOr (n : option string) : string :=
  match n with
  | Some s => if truthy s then s else "User"
  | None => "User"
  end.

(** The body of the loop over the states of a change. *)
Definition showCursor (clientID : Z) (cursors : gmap Z Cursor)
    (entry : Z * AwarenessState) : gmap Z Cursor :=
  let '(clientId, state) := entry in
  if Z.eqb clientId clientID then cursors else
  let '(cursor, cursors) :=
    match cursors !! clientId with
    | Some cursor => (cursor, cursors)
    | None =>
        let cursor :=
          Cursor.mk 0 0 (colorOr (AwarenessState.color state))
                    (nameOr (AwarenessState.name state)) 16777215 in
        (cursor, <[clientId := cursor]> cursors)
    end in
  match AwarenessState.x state, AwarenessState.y state with
  | Some x, Some y =>
      <[clientId := Cursor.mk x y (Cursor.fill cursor) (Cursor.label cursor)
                              (colorOr (AwarenessState.color state))]> cursors
  | _, _ => cursors
  end.

(** The listener of the changes of the awareness: [removed] is
    [changes.removed], [states] is [awareness.getStates()] in the order of
    its iteration and [clientID] is [awareness.clientID]. *)
Definition onAwarenessChange (clientID : Z) (removed : list Z)
    (states : list (Z * AwarenessState)) (remoteCursors : gmap Z Cursor)
    : gmap Z Cursor :=
  let remoteCursors :=
    fold_left (fun m clientId => delete clientId m) removed remoteCursors in
  fold_left (showCursor clientID) states remoteCursors.

(** A change of the awareness: the clients removed and the states. *)
Definition AwarenessChange : Type := (list Z * list (Z * AwarenessState))%type.

(** The cursors after a sequence of changes, from none. *)
Definition cursorsAfter (clientID : Z) (changes : list AwarenessChange)
    : gmap Z Cursor :=
  fold_left (fun m ch => onAwarenessChange clientID (fst ch) (snd ch) m)
            changes ∅.

(** A sprite with a texture of 400 by 100, not yet fitted. *)
Definition wideSprite : Sprite := Sprite.mk (Some (400, 100)) 0 0 400 100.

(** Two clients: 7 at (10, 20) in green, 9 without a position. *)
Definition twoClients : list (Z * AwarenessState) :=
  [(7%Z, AwarenessState.mk (Some 10) (Some 20) (Some 65280%Z) (Some "Ada"));
   (9%Z, AwarenessState.mk None None None None)].

(** ** More about the interaction manager *)

(** The card overlaps the rectangle spanned by the world points [a] and
    [b]. *)
Definition inBand (a b : Q * Q) (card : Card) : Prop :=
  let state := Card.state card in
  Qmin (fst a) (fst b) < PhysicsState.x state + 200 /\
  PhysicsState.x state < Qmax (fst a) (fst b) /\
  Qmin (snd a) (snd b) < PhysicsState.y state + 150 /\
  PhysicsState.y state < Qmax (snd a) (snd b).

(** Key presses, as [(typing, code, key)], made one after the other. *)
Definition keydowns (presses : list (bool * string * string))
    (sc : System * string) : System * string :=
  fold_left
    (fun sc p => InteractionManager.keydown (fst (fst p)) (snd (fst p)) (snd p) sc)
    presses sc.

(** The manager with its engine set, on the board of two cards. *)
Definition systemTwoCards : System :=
  InteractionManager.mkSystem
    (InteractionManager.setEngine InteractionManager.new) boardTwoCards.

(** The same with the drawing tool chosen by its key: the system and the
    cursor of the canvas. *)
Definition systemDrawing : System * string :=
  InteractionManager.keydown false "KeyP" "p" (systemTwoCards, ""%string).

(** ** Sequences of operations on the store *)

Inductive StoreOp : Type :=
| SCreateCard (id : string) (now : Z) (data : NewCard)
| SUpdateCardPosition (now : Z) (id : string) (x y : Q)
| SUpdateCard (now : Z) (id : string) (updates : CardUpdates)
| SDeleteCard (id : string)
| SCreateConnection (fromId toId : string)
| SDeleteConnection (id : string)
| SAddStroke (stroke : StrokeData)
| SDeleteStroke (id : string).

Definition runStore (d : DocumentStore) (op : StoreOp) : DocumentStore :=
  match op with
  | SCreateCard id now data => fst (DocumentStore.createCard id now data d)
  | SUpdateCardPosition now id x y => DocumentStore.updateCardPosition now id x y d
  | SUpdateCard now id updates => DocumentStore.updateCard now id updates d
  | SDeleteCard id => DocumentStore.deleteCard id d
  | SCreateConnection fromId toId => DocumentStore.createConnection fromId toId d
  | SDeleteConnection id => DocumentStore.deleteConnection id d
  | SAddStroke stroke => DocumentStore.addStroke stroke d
  | SDeleteStroke id => DocumentStore.deleteStroke id d
  end.

Definition runStoreAll (ops : list StoreOp) : DocumentStore :=
  fold_left runStore ops DocumentStore.empty.

(** Every connection is stored under its id, the id made of its two
    ends, and every stroke under its id. *)
Definition linksKeyed (d : DocumentStore) : Prop :=
  map_Forall
    (fun k c => ConnectionData.id c = k /\
                k = connectionId (ConnectionData.fromId c) (ConnectionData.toId c))
    (DocumentStore.connectionsMap d) /\
  map_Forall (fun k s => StrokeData.id s = k) (DocumentStore.strokesMap d).

(** Every card is stored under its id. *)
Definition cardsKeyed (d : DocumentStore) : Prop :=
  map_Forall (fun k c => CardData.id c = k) (DocumentStore.cardsMap d).

(** An update of a card that carries no id. *)
Definition keepsId (op : StoreOp) : Prop :=
  match op with
  | SUpdateCard _ _ updates => CardUpdates.id updates = None
  | _ => True
  end.

(** A card created, moved, recoloured, and connected to a card that was
    deleted. *)
Definition storeSession : list StoreOp :=
  [SCreateCard "a" 1000 (NewCard.mk 0 0 200 150 16769126 "" None);
   SCreateCard "b" 1001 (NewCard.mk 300 0 200 150 16769126 "" None);
   SUpdateCardPosition 1002 "a" 50 50;
   SUpdateCard 1003 "a"
     (CardUpdates.mk None None None None None (Some 255%Z) None None None None);
   SCreateConnection "a" "b";
   SDeleteCard "b"].

(** ** The arithmetic of the source: IEEE 754 doubles *)

(** The engine above computes with exact rationals.  Where rounding
    decides what the program does (the rest state of the spring, the pixel
    a zoom step draws a point at, the radius test of the eraser at its
    boundary, the end of the grid loop), the code is embedded again over
    the doubles JavaScript computes with: the same expressions, evaluated
    with the binary64 operations, each rounding to nearest. *)
Module Doubles.

Local Open Scope float_scope.

(** [Math.max(a, b)] and [Math.min(a, b)] of two numbers: [NaN] when
    either is, and [+0] above [-0]. *)
Definition mathMax (a b : float) : float :=
  if is_nan a || is_nan b then nan
  else if a <? b then b
  else if b <? a then a
  else match classify a with FloatClass.NZero => b | _ => a end.

Definition mathMin (a b : float) : float :=
  if is_nan a || is_nan b then nan
  else if a <? b then a
  else if b <? a then b
  else match classify b with FloatClass.NZero => b | _ => a end.

(** [Math.floor(x)]: the doubles from [2^52] on are integers; below, adding
    and subtracting [2^52] rounds to an integer, which is the floor or the
    integer above it. *)
Definition mathFloor (x : float) : float :=
  if x =? 0 then x
  else if abs x <? 0x1p+52 then
    let r := if 0 <? x then (x + 0x1p+52) - 0x1p+52
             else (x - 0x1p+52) + 0x1p+52 in
    if x <? r then r - 1 else r
  else x.

Module PHYSICS_CONFIG.
Definition mass : float := 1.5.
Definition friction : float := 0.92.
Definition spring : float := 0.1.
Definition staticFrictionThreshold : float := 0.05.
Definition minVelocity : float := 0.01.
End PHYSICS_CONFIG.

(** [InternalCardState], as far as the physics reads and writes it. *)
Module PhysicsState.
Record t : Type := mk {
  x : float;
  y : float;
  vx : float;
  vy : float;
  targetX : float;
  targetY : float;
  isDragging : bool
}.
End PhysicsState.

(** Card physics: the body of the loop over the cards in [physicsTick], on
    the state of one card. *)
Definition springStep (state : PhysicsState.t) : PhysicsState.t :=
  if negb (PhysicsState.isDragging state) then
    let dx := PhysicsState.targetX state - PhysicsState.x state in
    let dy := PhysicsState.targetY state - PhysicsState.y state in
    let ax := (dx * PHYSICS_CONFIG.spring) / PHYSICS_CONFIG.mass in
    let ay := (dy * PHYSICS_CONFIG.spring) / PHYSICS_CONFIG.mass in
    let vx := PhysicsState.vx state + ax in
    let vy := PhysicsState.vy state + ay in
    let vx := vx * PHYSICS_CONFIG.friction in
    let vy := vy * PHYSICS_CONFIG.friction in
    let x := PhysicsState.x state + vx in
    let y := PhysicsState.y state + vy in
    PhysicsState.mk x y vx vy (PhysicsState.targetX state)
      (PhysicsState.targetY state) (PhysicsState.isDragging state)
  else state.

(** The card of the settling scenario: at rest at the origin, released,
    with its target at (100, 100). *)
Definition settlingStart : PhysicsState.t :=
  PhysicsState.mk 0 0 0 0 100 100 false.

(** The state of the card after [n] ticks. *)
Definition settling (n : N) : PhysicsState.t :=
  N.iter n springStep settlingStart.


(** The card is closer to its target than [0.5] on each axis. *)
Definition nearTarget (state : PhysicsState.t) : bool :=
  (abs (PhysicsState.targetX state - PhysicsState.x state) <? 0.5) &&
  (abs (PhysicsState.targetY state - PhysicsState.y state) <? 0.5).



(** The viewport, as far as the wheel handler reads and writes it. *)
Module ViewportState.
Record t : Type := mk {
  x : float;
  y : float;
  scale : float
}.
End ViewportState.

(** The wheel handler: [deltaY], [offsetX] and [offsetY] of the event. *)
Definition wheelViewport (deltaY offsetX offsetY : float)
    (v : ViewportState.t) : ViewportState.t :=
  let zoomFactor := if 0 <? deltaY then 0.9 else 1.1 in
  let oldScale := ViewportState.scale v in
  let newScale := mathMax 0.1 (mathMin 5 (oldScale * zoomFactor)) in
  let mouseX := offsetX in
  let mouseY := offsetY in
  ViewportState.mk
    (mouseX - (mouseX - ViewportState.x v) * (newScale / oldScale))
    (mouseY - (mouseY - ViewportState.y v) * (newScale / oldScale))
    newScale.

(** Where the world point [w] is drawn: its position times the scale of
    the viewport, plus the offset of the viewport. *)
Definition project (v : ViewportState.t) (w : float * float) : float * float :=
  (fst w * ViewportState.scale v + ViewportState.x v,
   snd w * ViewportState.scale v + ViewportState.y v).

(** [distToSegment]; [u ** 2] is the product [u * u]. *)
Definition distToSegment (px py x1 y1 x2 y2 : float) : float :=
  let l2 := (x1 - x2) * (x1 - x2) + (y1 - y2) * (y1 - y2) in
  if l2 =? 0 then sqrt ((px - x1) * (px - x1) + (py - y1) * (py - y1))
  else
    let t := ((px - x1) * (x2 - x1) + (py - y1) * (y2 - y1)) / l2 in
    let t := mathMax 0 (mathMin 1 t) in
    sqrt ((px - (x1 + t * (x2 - x1))) * (px - (x1 + t * (x2 - x1))) +
          (py - (y1 + t * (y2 - y1))) * (py - (y1 + t * (y2 - y1)))).

Definition eraseRadius : float := 20.

(** The test of the inner loop of [eraseAt] on one segment. *)
Definition segmentHit (px py x1 y1 x2 y2 : float) : bool :=
  distToSegment px py x1 y1 x2 y2 <? eraseRadius.

(** *** src/core/grid_system.ts *)

Module GridSystem.

(** What [update] draws: the positions of the vertical and of the
    horizontal lines, the bounds they span and the width of the stroke. *)
Record Lines : Type := mkLines {
  verticals : list float;
  horizontals : list float;
  startX : float;
  startY : float;
  endX : float;
  endY : float;
  lineWidth : float
}.

(** [for (let x = first; x < end; x += gridSize)]: the values of [x].  The
    loop need not end, so [fuel] bounds the number of tests of its
    condition and [None] means the fuel ran out. *)
Fixpoint lineLoop (fuel : nat) (x end_ gridSize : float)
    : option (list float) :=
  match fuel with
  | O => None
  | S fuel' =>
      if x <? end_ then
        match lineLoop fuel' (x + gridSize) end_ gridSize with
        | Some rest => Some (x :: rest)
        | None => None
        end
      else Some []
  end.

(** The first line of [update] along one axis: the start of the view,
    snapped to the grid. *)
Definition firstLine (gridSize view scale : float) : float :=
  mathFloor ((- view / scale) / gridSize) * gridSize.

(** [update(viewX, viewY, scale, screenWidth, screenHeight)] of a grid of
    size [gridSize]. *)
Definition update (fuel : nat) (gridSize viewX viewY scale screenWidth
    screenHeight : float) : option Lines :=
  let startX := - viewX / scale in
  let startY := - viewY / scale in
  let endX := startX + screenWidth / scale in
  let endY := startY + screenHeight / scale in
  let effectiveGridSize := gridSize in
  let firstLineX := mathFloor (startX / effectiveGridSize) * effectiveGridSize in
  let firstLineY := mathFloor (startY / effectiveGridSize) * effectiveGridSize in
  match lineLoop fuel firstLineX endX effectiveGridSize with
  | None => None
  | Some vs =>
      match lineLoop fuel firstLineY endY effectiveGridSize with
      | None => None
      | Some hs => Some (mkLines vs hs startX startY endX endY (1 / scale))
      end
  end.

(** The loop of [update] along one axis cannot advance: its first line is
    before the end of the view, and so large that adding the grid size
    rounds back to it. *)
Definition stalls (gridSize view scale screen : float) : Prop :=
  let first := firstLine gridSize view scale in
  first + gridSize = first /\
  (first <? - view / scale + screen / scale) = true.

End GridSystem.

End Doubles.


(** * Part II: facts and theorems *)

(** ** Numbers *)

Lemma Qltb_lt (a b : Q) : Qltb a b = true <-> a < b.
Proof.
  unfold Qltb. rewrite negb_true_iff.
  destruct (Qle_bool b a) eqn:E.
  - apply Qle_bool_iff in E. split; [discriminate | intros H; exfalso; lra].
  - split; [intros _ | reflexivity].
    destruct (Qlt_le_dec a b) as [H | H]; [exact H |].
    apply Qle_bool_iff in H. congruence.
Qed.

Lemma Qltb_ge (a b : Q) : Qltb a b = false <-> b <= a.
Proof.
  unfold Qltb. rewrite negb_false_iff. apply Qle_bool_iff.
Qed.

(** Division by the constant 2, in the form the linear solver reads. *)
Ltac qhalves := unfold Qdiv in *; change (/ 2) with (1 # 2) in *.


(** ** The quadtree: rectangles and quadrants *)

Lemma intersects_true (a b : Rect) :
  intersects a b = true <->
  Rect.x a < Rect.x b + Rect.width b /\
  Rect.x b < Rect.x a + Rect.width a /\
  Rect.y a < Rect.y b + Rect.height b /\
  Rect.y b < Rect.y a + Rect.height a.
Proof.
  unfold intersects, Qgtb.
  rewrite !andb_true_iff, !Qltb_lt. tauto.
Qed.

(** What each answer of [getIndex] says about the rectangle. *)
Lemma getIndex_Some (b r : Rect) (i : Index) :
  getIndex b r = Some i ->
  let vm := Rect.x b + Rect.width b / 2 in
  let hm := Rect.y b + Rect.height b / 2 in
  match i with
  | NE => vm < Rect.x r /\ Rect.y r < hm /\ Rect.y r + Rect.height r < hm
  | NW => Rect.x r < vm /\ Rect.x r + Rect.width r < vm /\
          Rect.y r < hm /\ Rect.y r + Rect.height r < hm
  | SW => Rect.x r < vm /\ Rect.x r + Rect.width r < vm /\ hm < Rect.y r
  | SE => vm < Rect.x r /\ hm < Rect.y r
  end.
Proof.
  unfold getIndex, Qgtb. cbv zeta.
  destruct (Qltb (Rect.x r) _ && Qltb (Rect.x r + Rect.width r) _) eqn:L;
    [apply andb_true_iff in L; destruct L as [L1 L2];
     apply Qltb_lt in L1; apply Qltb_lt in L2 |];
  (destruct (Qltb (Rect.y r) _ && Qltb (Rect.y r + Rect.height r) _) eqn:U;
    [apply andb_true_iff in U; destruct U as [U1 U2];
     apply Qltb_lt in U1; apply Qltb_lt in U2 |]);
  repeat match goal with
         | |- context [if Qltb ?a ?c then _ else _] =>
             let E := fresh "E" in
             destruct (Qltb a c) eqn:E; [apply Qltb_lt in E |]
         end;
  intros H; inversion H; subst; tauto.
Qed.

(** A rectangle that [getIndex] sends to a quadrant and that lies within the
    node lies within the child [split] creates for that quadrant. *)
Lemma getIndex_inside (b r : Rect) (i : Index) :
  getIndex b r = Some i -> inside r b -> inside r (quadrant b i).
Proof.
  intros H [I1 [I2 [I3 I4]]]. apply getIndex_Some in H. cbv zeta in H.
  unfold inside. destruct i; cbn [quadrant Rect.x Rect.y Rect.width Rect.height];
    qhalves; repeat split; lra.
Qed.

(** A request that fits one quadrant overlaps nothing that lies within
    another. *)
Lemma other_quadrant_disjoint (b r q : Rect) (i k : Index) :
  getIndex b q = Some i -> inside r (quadrant b k) -> i <> k ->
  intersects r q = false.
Proof.
  intros H [I1 [I2 [I3 I4]]] Hne. apply getIndex_Some in H. cbv zeta in H.
  destruct (intersects r q) eqn:E; [| reflexivity].
  apply intersects_true in E. exfalso.
  destruct i, k; try congruence;
    cbn [quadrant Rect.x Rect.y Rect.width Rect.height] in *; qhalves; lra.
Qed.

(** Whatever overlaps a rectangle overlaps everything that rectangle lies
    within. *)
Lemma inside_intersects (r c q : Rect) :
  inside r c -> intersects r q = true -> intersects c q = true.
Proof.
  intros [I1 [I2 [I3 I4]]] E. apply intersects_true in E.
  apply intersects_true. lra.
Qed.

(** ** The quadtree: insertion keeps the invariant *)

Section QuadtreeShape.
Context {T : Type}.

Variable P : Rect -> Rect -> Prop.
Hypothesis P_child : forall (b r : Rect) (i : Index),
  getIndex b r = Some i -> P r b -> P r (quadrant b i).

Lemma wfP_Split (h : Header) (objs : list (Entry T)) (ch : Four (Quadtree T)) :
  wfP P (Split h objs (n0 ch) (n1 ch) (n2 ch) (n3 ch)) <->
  (level h < maxLevel h)%nat /\ forall i, childOk P h ch i.
Proof.
  cbn [wfP]. unfold childOk. split.
  - intros (L & A & B & C & D). split; [exact L |]. intros []; assumption.
  - intros (L & K). split; [exact L |].
    exact (conj (K NE) (conj (K NW) (conj (K SW) (K SE)))).
Qed.

Lemma childOk_split (h : Header) (i : Index) : childOk (T:=T) P h (split h) i.
Proof.
  unfold childOk, fitsP. destruct i; cbn; repeat split; constructor.
Qed.

Lemma entries4_set4 (ch : Four (Quadtree T)) (i : Index) (c : Quadtree T)
    (e : Entry T) :
  entries c ≡ₚ e :: entries (nth4 ch i) ->
  entries4 (set4 ch i c) ≡ₚ e :: entries4 ch.
Proof.
  unfold entries4. destruct ch as [a0 a1 a2 a3], i; cbn; intros ->;
    solve_Permutation.
Qed.

Lemma childOk_set4 (h : Header) (ch : Four (Quadtree T)) (i : Index)
    (c : Quadtree T) :
  (forall k, childOk P h ch k) ->
  header c = childHeader h i -> fitsP P c -> wfP P c ->
  forall k, childOk P h (set4 ch i c) k.
Proof.
  intros K Hh Hf Hw k. specialize (K k). unfold childOk in *.
  destruct ch as [a0 a1 a2 a3], i, k; cbn in *; tauto.
Qed.

Lemma fitsP_perm (c c' : Quadtree T) (e : Entry T) :
  header c' = header c -> entries c' ≡ₚ e :: entries c ->
  P (ebounds e) (bounds (header c)) -> fitsP P c -> fitsP P c'.
Proof.
  unfold fitsP. intros -> Hp He Hc.
  rewrite List.Forall_forall in *. intros x Hx.
  apply (Permutation_in _ Hp) in Hx. destruct Hx as [<- | Hx]; auto.
Qed.

Lemma redistribute_ok (ins : Quadtree T -> Entry T -> option (Quadtree T))
    (h : Header) (objs : list (Entry T)) :
  forall ch : Four (Quadtree T),
  (forall (c : Quadtree T) (e : Entry T) (i : Index),
     header c = childHeader h i -> fitsP P c -> wfP P c ->
     P (ebounds e) (bounds (header c)) -> insertsWell P ins c e) ->
  List.Forall (fun e => P (ebounds e) (bounds h)) objs ->
  (forall i, childOk P h ch i) ->
  exists kept ch',
    redistribute ins (bounds h) objs ch = Some (kept, ch') /\
    (forall i, childOk P h ch' i) /\
    kept ++ entries4 ch' ≡ₚ objs ++ entries4 ch.
Proof.
  induction objs as [| obj rest IH]; intros ch Hins Hobjs K; cbn [redistribute].
  - exists [], ch. split; [reflexivity | split; [exact K | reflexivity]].
  - inversion Hobjs as [| ? ? Pobj Prest]; subst.
    destruct (getIndex (bounds h) (ebounds obj)) as [i |] eqn:G.
    + destruct (K i) as (Hh & Hf & Hw).
      assert (Pc : P (ebounds obj) (bounds (header (nth4 ch i)))).
      { rewrite Hh. cbn [childHeader bounds]. apply P_child; assumption. }
      destruct (Hins _ obj i Hh Hf Hw Pc) as (c & -> & Hc & Wc & Ec).
      destruct (IH (set4 ch i c) Hins Prest) as (kept & ch' & -> & K' & E').
      { apply childOk_set4; auto.
        - congruence.
        - eapply fitsP_perm; eauto. }
      exists kept, ch'. split; [reflexivity | split; [exact K' |]].
      rewrite E', (entries4_set4 _ _ _ _ Ec). solve_Permutation.
    + destruct (IH ch Hins Prest K) as (kept & ch' & -> & K' & E').
      exists (obj :: kept), ch'. split; [reflexivity | split; [exact K' |]].
      cbn. rewrite E'. reflexivity.
Qed.

Lemma pushHere_ok (ins : Quadtree T -> Entry T -> option (Quadtree T))
    (h : Header) (objs : list (Entry T)) (och : option (Four (Quadtree T)))
    (e : Entry T) :
  (forall (c : Quadtree T) (x : Entry T) (i : Index),
     (level h < maxLevel h)%nat ->
     header c = childHeader h i -> fitsP P c -> wfP P c ->
     P (ebounds x) (bounds (header c)) -> insertsWell P ins c x) ->
  List.Forall (fun x => P (ebounds x) (bounds h)) (objs ++ [e]) ->
  match och with
  | Some ch => (level h < maxLevel h)%nat /\ forall i, childOk P h ch i
  | None => True
  end ->
  exists t', pushHere ins h objs och e = Some t' /\ header t' = h /\ wfP P t' /\
    entries t' ≡ₚ
      e :: objs ++ match och with Some ch => entries4 ch | None => [] end.
Proof.
  intros Hins Hobjs Hch. unfold pushHere.
  destruct (Nat.ltb (capacity h) (length (objs ++ [e])) &&
            Nat.ltb (level h) (maxLevel h)) eqn:C.
  - apply andb_true_iff in C. destruct C as [_ L]. apply Nat.ltb_lt in L.
    set (ch0 := match och with Some c => c | None => split h end).
    assert (K0 : forall i, childOk P h ch0 i).
    { destruct och as [ch |]; [apply Hch | apply childOk_split]. }
    destruct (redistribute_ok ins h (objs ++ [e]) ch0) as (kept & ch' & -> & K' & E');
      auto.
    { intros c x i. apply Hins. exact L. }
    exists (Split h kept (n0 ch') (n1 ch') (n2 ch') (n3 ch')).
    split; [reflexivity | split; [reflexivity | split]].
    + apply wfP_Split. split; assumption.
    + cbn [entries]. change (kept ++ entries4 ch' ≡ₚ
        e :: objs ++ match och with Some ch => entries4 ch | None => [] end).
      rewrite E'. subst ch0. destruct och; cbn; solve_Permutation.
  - destruct och as [ch |].
    + exists (Split h (objs ++ [e]) (n0 ch) (n1 ch) (n2 ch) (n3 ch)).
      split; [reflexivity | split; [reflexivity | split]].
      * apply wfP_Split. exact Hch.
      * cbn [entries]. change ((objs ++ [e]) ++ entries4 ch ≡ₚ e :: objs ++ entries4 ch).
        solve_Permutation.
    + exists (Leaf h (objs ++ [e])).
      split; [reflexivity | split; [reflexivity | split; [exact I |]]].
      cbn [entries]. solve_Permutation.
Qed.

(** [insert] returns, within the fuel [maxLevel - level + 1], a tree with the
    same header that satisfies the invariant and stores the new entry next
    to the old ones. *)
Lemma insertFuel_ok (fuel : nat) :
  forall (t : Quadtree T) (e : Entry T),
  (maxLevel (header t) - level (header t) < fuel)%nat ->
  wfP P t -> fitsP P t -> P (ebounds e) (bounds (header t)) ->
  insertsWell P (insertFuel fuel) t e.
Proof.
  induction fuel as [| fuel IH]; intros t e Hfuel W F Pe; [lia |].
  assert (Hins : forall (h : Header) (c : Quadtree T) (x : Entry T) (i : Index),
            (maxLevel h - level h < S fuel)%nat ->
            (level h < maxLevel h)%nat ->
            header c = childHeader h i -> fitsP P c -> wfP P c ->
            P (ebounds x) (bounds (header c)) ->
            insertsWell P (insertFuel fuel) c x).
  { intros h c x i Hf L Hh Fc Wc Px. apply IH; auto.
    rewrite Hh. cbn [childHeader maxLevel level]. lia. }
  unfold insertsWell. destruct t as [h objs | h objs c0 c1 c2 c3];
    cbn [insertFuel header] in *.
  - destruct (pushHere_ok (insertFuel fuel) h objs None e) as (t' & E & Hh & Wt & Pt).
    + intros c x i L. apply (Hins h); auto.
    + unfold fitsP in F. cbn in F. apply Forall_app. split; auto.
    + exact I.
    + exists t'. rewrite app_nil_r in Pt. auto.
  - set (ch := mkFour c0 c1 c2 c3) in *.
    change (wfP P (Split h objs (n0 ch) (n1 ch) (n2 ch) (n3 ch))) in W.
    apply wfP_Split in W. destruct W as [L K].
    unfold fitsP in F. cbn [entries header] in F.
    change (List.Forall (fun x => P (ebounds x) (bounds h)) (objs ++ entries4 ch)) in F.
    apply Forall_app in F. destruct F as [Fo Fc].
    destruct (getIndex (bounds h) (ebounds e)) as [i |] eqn:G.
    + destruct (K i) as (Hh & Hf & Hw).
      assert (Pc : P (ebounds e) (bounds (header (nth4 ch i)))).
      { rewrite Hh. cbn [childHeader bounds]. apply P_child; assumption. }
      destruct (Hins h _ e i Hfuel L Hh Hf Hw Pc) as (c & -> & Hc & Wc & Ec).
      eexists. split; [reflexivity |]. split; [reflexivity | split].
      * apply wfP_Split. split; [exact L |].
        apply childOk_set4; auto; [congruence | eapply fitsP_perm; eauto].
      * cbn [entries].
        change (objs ++ entries4 (set4 ch i c) ≡ₚ e :: objs ++ entries4 ch).
        rewrite (entries4_set4 _ _ _ _ Ec). solve_Permutation.
    + destruct (pushHere_ok (insertFuel fuel) h objs (Some ch) e) as (t' & E & Hh & Wt & Pt).
      * intros c x i L'. apply (Hins h); auto.
      * apply Forall_app. split; auto.
      * split; assumption.
      * exists t'. auto.
Qed.

Lemma insert_ok (t : Quadtree T) (e : Entry T) :
  wfP P t -> fitsP P t -> P (ebounds e) (bounds (header t)) ->
  exists t', insert t e = Some t' /\ header t' = header t /\ wfP P t' /\
             fitsP P t' /\ entries t' ≡ₚ e :: entries t.
Proof.
  intros W F Pe.
  destruct (insertFuel_ok (S (maxLevel (header t) - level (header t))) t e)
    as (t' & E & Hh & Wt & Pt); auto.
  exists t'. split; [exact E | split; [exact Hh | split; [exact Wt | split; [| exact Pt]]]].
  eapply fitsP_perm; eauto.
Qed.

End QuadtreeShape.


(** ** The quadtree: retrieval *)

Section QuadtreeFacts.
Context {T : Type} (itemId : T -> string).

Lemma retrieve_keeps (t : Quadtree T) (acc : list T) (q : Rect) (x : T) :
  In x acc -> In x (retrieve t acc q).
Proof.
  revert acc. induction t as [h objs | h objs c0 IH0 c1 IH1 c2 IH2 c3 IH3];
    intros acc H; cbn [retrieve].
  - apply in_or_app. left. exact H.
  - apply in_or_app. left.
    destruct (getIndex (bounds h) q) as [[| | |] |]; auto.
    repeat match goal with
           | |- context [if ?c then _ else _] => destruct c
           end; auto.
Qed.

(** No false negatives: an entry stored anywhere in a well-formed tree and
    overlapping the request is among the candidates. *)
Lemma retrieve_complete (t : Quadtree T) (acc : list T) (q : Rect) (e : Entry T) :
  wf t -> In e (entries t) -> intersects (ebounds e) q = true ->
  In (item e) (retrieve t acc q).
Proof.
  revert acc. induction t as [h objs | h objs c0 IH0 c1 IH1 c2 IH2 c3 IH3];
    intros acc W Hin Hq; unfold wf in *; cbn [retrieve entries wfP] in *.
  - apply in_or_app. right. apply in_map. exact Hin.
  - destruct W as (_ & (H0 & F0 & W0) & (H1 & F1 & W1) & (H2 & F2 & W2) & (H3 & F3 & W3)).
    apply in_app_or in Hin. destruct Hin as [Hin | Hin].
    { apply in_or_app. right. apply in_map. exact Hin. }
    apply in_or_app. left.
    assert (K : forall (c : Quadtree T) (k : Index),
               header c = childHeader h k -> fitsP inside c -> In e (entries c) ->
               inside (ebounds e) (quadrant (bounds h) k)).
    { intros c k Hh Fc Hc. unfold fits, fitsP in Fc.
      rewrite List.Forall_forall in Fc. specialize (Fc e Hc).
      rewrite Hh in Fc. exact Fc. }
    assert (V : forall (c : Quadtree T) (k : Index),
               header c = childHeader h k -> fitsP inside c -> In e (entries c) ->
               intersects (bounds (header c)) q = true).
    { intros c k Hh Fc Hc. rewrite Hh. cbn [childHeader bounds].
      eapply inside_intersects; [exact (K c k Hh Fc Hc) | exact Hq]. }
    destruct (getIndex (bounds h) q) as [i |] eqn:G.
    + assert (D : forall (c : Quadtree T) (k : Index),
                 header c = childHeader h k -> fits c -> In e (entries c) ->
                 i = k).
      { intros c k Hh Fc Hc. destruct (decide (i = k)) as [-> | Hne]; [reflexivity |].
        pose proof (other_quadrant_disjoint _ _ _ _ _ G (K c k Hh Fc Hc) Hne).
        congruence. }
      repeat (apply in_app_or in Hin; destruct Hin as [Hin | Hin]).
      * rewrite (D _ _ H0 F0 Hin). apply IH0; assumption.
      * rewrite (D _ _ H1 F1 Hin). apply IH1; assumption.
      * rewrite (D _ _ H2 F2 Hin). apply IH2; assumption.
      * rewrite (D _ _ H3 F3 Hin). apply IH3; assumption.
    + assert (S : forall (c : Quadtree T) (a : list T),
                 In (item e) a ->
                 In (item e) (if intersects (bounds (header c)) q
                              then retrieve c a q else a)).
      { intros c a Ha. destruct (intersects (bounds (header c)) q);
          [apply retrieve_keeps |]; exact Ha. }
      repeat (apply in_app_or in Hin; destruct Hin as [Hin | Hin]).
      * do 3 apply S. rewrite (V _ _ H0 F0 Hin). apply IH0; assumption.
      * do 2 apply S. rewrite (V _ _ H1 F1 Hin). apply IH1; assumption.
      * apply S. rewrite (V _ _ H2 F2 Hin). apply IH2; assumption.
      * rewrite (V _ _ H3 F3 Hin). apply IH3; assumption.
Qed.

End QuadtreeFacts.

Section QuadtreeClaims.
Context {T : Type}.

Lemma insertAll_ok (P : Rect -> Rect -> Prop)
    (P_child : forall (b r : Rect) (i : Index),
       getIndex b r = Some i -> P r b -> P r (quadrant b i))
    (es : list (Entry T)) :
  forall t : Quadtree T,
  wfP P t -> fitsP P t ->
  List.Forall (fun e => P (ebounds e) (bounds (header t))) es ->
  exists t', insertAll t es = Some t' /\ header t' = header t /\
             wfP P t' /\ fitsP P t' /\ entries t' ≡ₚ es ++ entries t.
Proof.
  induction es as [| e rest IH]; intros t W F Hes; cbn [insertAll].
  - exists t. split; [reflexivity | split; [reflexivity |]]. auto.
  - inversion Hes as [| ? ? Pe Prest]; subst.
    destruct (insert_ok P P_child t e W F Pe) as (t1 & -> & H1 & W1 & F1 & E1).
    rewrite <- H1 in Prest.
    destruct (IH t1 W1 F1 Prest) as (t2 & E & H2 & W2 & F2 & E2).
    exists t2. split; [exact E | split; [congruence | split; [exact W2 | split; [exact F2 |]]]].
    rewrite E2, E1. solve_Permutation.
Qed.

(** [insert] always returns on the trees the class builds, whatever the
    bounds of the item. *)
Lemma insert_total (t : Quadtree T) (e : Entry T) :
  shaped t -> exists t', insert t e = Some t' /\ header t' = header t /\
                         shaped t' /\ entries t' ≡ₚ e :: entries t.
Proof.
  intros W.
  destruct (insert_ok (fun _ _ => True) (fun _ _ _ _ _ => I) t e W) as
    (t' & E & Hh & Wt & _ & Pt).
  - unfold fitsP. apply List.Forall_forall. auto.
  - exact I.
  - exists t'. auto.
Qed.

End QuadtreeClaims.

(** C1, amended.  For every sequence of insertions of items whose bounds lie
    within the bounds of the tree, into a new tree of any capacity and
    maximum level, every insertion returns, and for every request rectangle
    [retrieve] returns every inserted item whose bounds intersect the
    request; it may return others. *)
Theorem retrieve_superset_within_bounds {T : Type} (b : Rect)
    (cap maxLvl lvl : nat) (es : list (Entry T)) :
  List.Forall (fun e => inside (ebounds e) b) es ->
  exists t, insertAll (newQuadtree b cap maxLvl lvl) es = Some t /\
    forall (q : Rect) (acc : list T) (e : Entry T),
      In e es -> intersects (ebounds e) q = true ->
      In (item e) (retrieve t acc q).
Proof.
  intros Hes.
  destruct (insertAll_ok inside getIndex_inside es (newQuadtree b cap maxLvl lvl))
    as (t & E & _ & W & _ & Pt).
  - exact I.
  - constructor.
  - exact Hes.
  - exists t. split; [exact E |]. intros q acc e Hin Hq.
    apply retrieve_complete; auto.
    apply (Permutation_in _ (Permutation_sym Pt)).
    apply in_or_app. left. exact Hin.
Qed.

Lemma retrieve_superset_within_bounds_witness :
  exists t,
    insertAll (newQuadtree worldBounds 10 5 0) (nearItems ++ [westItem]) = Some t /\
    forall (q : Rect) (acc : list string) (e : Entry string),
      In e (nearItems ++ [westItem]) -> intersects (ebounds e) q = true ->
      In (item e) (retrieve t acc q).
Proof.
  apply (retrieve_superset_within_bounds worldBounds 10 5 0 (nearItems ++ [westItem])).
  unfold nearItems, westItem, worldBounds, inside. cbn.
  repeat constructor; cbn; lra.
Defined.

(** C1 as stated fails: after eleven insertions into the world tree, the
    item outside the world intersects the request and is not returned. *)
Lemma retrieve_misses_item_outside_bounds :
  exists t, insertAll (newQuadtree worldBounds 10 5 0) (nearItems ++ [farItem]) = Some t /\
    In farItem (nearItems ++ [farItem]) /\
    intersects (ebounds farItem) farQuery = true /\
    ~ In (item farItem) (retrieve t [] farQuery).
Proof.
  eexists. split; [vm_compute; reflexivity |].
  split; [apply in_or_app; right; left; reflexivity |].
  split; [vm_compute; reflexivity |].
  vm_compute. intros [].
Qed.

(** *** Removal by id *)

Section QuadtreeRemove.
Context {T : Type} (itemId : T -> string).

Lemma getAll_entries (t : Quadtree T) : getAll t = map item (entries t).
Proof.
  induction t as [h objs | h objs c0 IH0 c1 IH1 c2 IH2 c3 IH3]; cbn.
  - reflexivity.
  - rewrite IH0, IH1, IH2, IH3, !map_app. reflexivity.
Qed.

Lemma spliceById_app (id : string) (l k : list (Entry T)) :
  spliceById itemId id (l ++ k) =
  match spliceById itemId id l with
  | Some l' => Some (l' ++ k)
  | None => option_map (app l) (spliceById itemId id k)
  end.
Proof.
  induction l as [| o l IH]; cbn.
  - destruct (spliceById itemId id k); reflexivity.
  - destruct (String.eqb (itemId (item o)) id); [reflexivity |].
    rewrite IH. destruct (spliceById itemId id l); [reflexivity |].
    destruct (spliceById itemId id k); reflexivity.
Qed.

(** [removeById] splices the first entry with the id, in the order of
    [getAll], and answers whether there was one. *)
Lemma removeById_entries (id : string) (t : Quadtree T) :
  spliceById itemId id (entries t) =
  (if snd (removeById itemId id t)
   then Some (entries (fst (removeById itemId id t))) else None) /\
  header (fst (removeById itemId id t)) = header t /\
  (snd (removeById itemId id t) = false -> fst (removeById itemId id t) = t).
Proof.
  induction t as [h objs | h objs c0 IH0 c1 IH1 c2 IH2 c3 IH3];
    cbn [removeById entries].
  - destruct (spliceById itemId id objs); cbn; auto. split; [|split]; auto. discriminate.
  - rewrite spliceById_app.
    destruct (spliceById itemId id objs) as [objs' |]; cbn [fst snd header entries].
    { split; [reflexivity | split; [reflexivity | discriminate]]. }
    destruct IH0 as (E0 & Hd0 & N0), IH1 as (E1 & Hd1 & N1),
             IH2 as (E2 & Hd2 & N2), IH3 as (E3 & Hd3 & N3).
    rewrite !spliceById_app, E0, E1, E2, E3.
    destruct (removeById itemId id c0) as [c0' r0]; cbn [fst snd] in *.
    destruct r0; cbn [fst snd header entries option_map].
    { split; [reflexivity | split; [reflexivity | discriminate]]. }
    destruct (removeById itemId id c1) as [c1' r1]; cbn [fst snd] in *.
    destruct r1; cbn [fst snd header entries option_map].
    { split; [reflexivity | split; [reflexivity | discriminate]]. }
    destruct (removeById itemId id c2) as [c2' r2]; cbn [fst snd] in *.
    destruct r2; cbn [fst snd header entries option_map].
    { split; [reflexivity | split; [reflexivity | discriminate]]. }
    destruct (removeById itemId id c3) as [c3' r3]; cbn [fst snd] in *.
    destruct r3; cbn [fst snd header entries option_map].
    { split; [reflexivity | split; [reflexivity | discriminate]]. }
    auto.
Qed.

Lemma spliceById_Some (id : string) (l l' : list (Entry T)) :
  spliceById itemId id l = Some l' ->
  exists a o b, l = a ++ o :: b /\ l' = a ++ b /\ itemId (item o) = id /\
    List.Forall (fun x => itemId (item x) <> id) a.
Proof.
  revert l'. induction l as [| o l IH]; cbn; intros l' H; [discriminate |].
  destruct (String.eqb (itemId (item o)) id) eqn:E.
  - apply String.eqb_eq in E. inversion H; subst.
    exists [], o, l'. repeat split; auto.
  - apply String.eqb_neq in E.
    destruct (spliceById itemId id l) as [r |]; [| discriminate].
    inversion H; subst. destruct (IH r eq_refl) as (a & o' & b & -> & -> & Ho & Ha).
    exists (o :: a), o', b. repeat split; auto.
Qed.

Lemma spliceById_None (id : string) (l : list (Entry T)) :
  spliceById itemId id l = None ->
  List.Forall (fun x => itemId (item x) <> id) l.
Proof.
  induction l as [| o l IH]; cbn; intros H; [constructor |].
  destruct (String.eqb (itemId (item o)) id) eqn:E; [discriminate |].
  apply String.eqb_neq in E.
  destruct (spliceById itemId id l); [discriminate |]. constructor; auto.
Qed.

Lemma remove_entries (id : string) (t : Quadtree T) :
  entries (remove itemId id t) = dropFirst itemId id (entries t).
Proof.
  unfold remove, dropFirst.
  destruct (removeById_entries id t) as (E & _ & N). rewrite E.
  destruct (snd (removeById itemId id t)); [reflexivity |].
  rewrite N; reflexivity.
Qed.

Lemma remove_header (id : string) (t : Quadtree T) :
  header (remove itemId id t) = header t.
Proof. unfold remove. apply (removeById_entries id t). Qed.

Lemma dropFirst_incl (id : string) (l : list (Entry T)) (x : Entry T) :
  In x (dropFirst itemId id l) -> In x l.
Proof.
  unfold dropFirst. destruct (spliceById itemId id l) as [l' |] eqn:E; [| auto].
  destruct (spliceById_Some _ _ _ E) as (a & o & b & -> & -> & _ & _).
  rewrite !in_app_iff. cbn. tauto.
Qed.


Lemma remove_wfP (P : Rect -> Rect -> Prop) (id : string) (t : Quadtree T) :
  wfP P t -> wfP P (remove itemId id t).
Proof.
  assert (Fit : forall c, fitsP P c -> fitsP P (remove itemId id c)).
  { intros c F. unfold fitsP in *. rewrite remove_header, remove_entries.
    rewrite List.Forall_forall in *. intros x Hx. apply F.
    eapply dropFirst_incl; eauto. }
  unfold remove in *.
  induction t as [h objs | h objs c0 IH0 c1 IH1 c2 IH2 c3 IH3];
    cbn [removeById].
  - destruct (spliceById itemId id objs); cbn; auto.
  - intros W. pose proof W as W'. cbn [wfP] in W'.
    destruct W' as (L & (H0 & F0 & W0) & (H1 & F1 & W1) & (H2 & F2 & W2) & (H3 & F3 & W3)).
    destruct (spliceById itemId id objs); [exact W |].
    pose proof (remove_header id c0) as R0. pose proof (remove_header id c1) as R1.
    pose proof (remove_header id c2) as R2. pose proof (remove_header id c3) as R3.
    pose proof (Fit c0 F0) as G0. pose proof (Fit c1 F1) as G1.
    pose proof (Fit c2 F2) as G2. pose proof (Fit c3 F3) as G3.
    unfold remove in *.
    specialize (IH0 W0). specialize (IH1 W1). specialize (IH2 W2). specialize (IH3 W3).
    destruct (removeById itemId id c0) as [c0' r0]; cbn [fst] in *.
    destruct r0; [cbn [fst wfP]; rewrite R0; tauto |].
    destruct (removeById itemId id c1) as [c1' r1]; cbn [fst] in *.
    destruct r1; [cbn [fst wfP]; rewrite R1; tauto |].
    destruct (removeById itemId id c2) as [c2' r2]; cbn [fst] in *.
    destruct r2; [cbn [fst wfP]; rewrite R2; tauto |].
    destruct (removeById itemId id c3) as [c3' r3]; cbn [fst] in *.
    destruct r3; [cbn [fst wfP]; rewrite R3; tauto |].
    exact W.
Qed.

End QuadtreeRemove.


(** ** The replicated store and the connections *)

Lemma engine_createConnection_lookup (a b : string) (e : CanvasEngine) :
  CanvasEngine.connections (CanvasEngine.createConnection a b e)
    !! connectionId a b =
  Some (match CanvasEngine.connections e !! connectionId a b with
        | Some c => c
        | None => Connection.mk (connectionId a b) a b
        end).
Proof.
  unfold CanvasEngine.createConnection.
  destruct (CanvasEngine.connections e !! connectionId a b) eqn:E.
  - exact E.
  - unfold CanvasEngine.call.
    destruct (CanvasEngine.onConnectionCreated _); cbn; apply lookup_insert_eq.
Qed.

Lemma engine_createConnection_size (a b : string) (e : CanvasEngine) :
  size (CanvasEngine.connections (CanvasEngine.createConnection a b e)) =
  (size (CanvasEngine.connections e) +
   match CanvasEngine.connections e !! connectionId a b with
   | Some _ => 0
   | None => 1
   end)%nat.
Proof.
  unfold CanvasEngine.createConnection.
  destruct (CanvasEngine.connections e !! connectionId a b) eqn:E.
  - lia.
  - unfold CanvasEngine.call.
    destruct (CanvasEngine.onConnectionCreated _); cbn;
      rewrite map_size_insert_None by exact E; lia.
Qed.




Lemma engine_createConnection_other (a b k : string) (e : CanvasEngine) :
  k <> connectionId a b ->
  CanvasEngine.connections (CanvasEngine.createConnection a b e) !! k =
  CanvasEngine.connections e !! k.
Proof.
  intros N. unfold CanvasEngine.createConnection.
  destruct (CanvasEngine.connections e !! connectionId a b); [reflexivity |].
  unfold CanvasEngine.call.
  destruct (CanvasEngine.onConnectionCreated _); cbn;
    apply lookup_insert_ne; congruence.
Qed.






(** C4.  For every id the store holds no card for, [updateCard],
    [updateCardPosition] and [deleteCard] return without an error and leave
    the store, hence the three maps of its snapshot, as they were. *)
Theorem store_absent_id_is_noop (d : DocumentStore) (id : string) (now : Z)
    (x y : Q) (updates : CardUpdates) :
  DocumentStore.cardsMap d !! id = None ->
  DocumentStore.getSnapshot (DocumentStore.updateCard now id updates d) =
    DocumentStore.getSnapshot d /\
  DocumentStore.getSnapshot (DocumentStore.updateCardPosition now id x y d) =
    DocumentStore.getSnapshot d /\
  DocumentStore.getSnapshot (DocumentStore.deleteCard id d) =
    DocumentStore.getSnapshot d.
Proof.
  intros H. unfold DocumentStore.updateCard, DocumentStore.updateCardPosition,
    DocumentStore.deleteCard, DocumentStore.getSnapshot.
  rewrite H. cbn. rewrite (delete_id _ _ H). auto.
Qed.

Lemma store_absent_id_is_noop_witness :
  let d :=
    fst (DocumentStore.createCard "a" 1
           (NewCard.mk 0 0 200 150 16769126 "" None) DocumentStore.empty) in
  DocumentStore.getSnapshot
    (DocumentStore.updateCard 7 "ghost"
       (CardUpdates.mk None (Some 1) None None None None None None None None) d) =
    DocumentStore.getSnapshot d /\
  DocumentStore.getSnapshot (DocumentStore.updateCardPosition 7 "ghost" 1 2 d) =
    DocumentStore.getSnapshot d /\
  DocumentStore.getSnapshot (DocumentStore.deleteCard "ghost" d) =
    DocumentStore.getSnapshot d.
Proof.
  cbv zeta.
  apply (store_absent_id_is_noop
           (fst (DocumentStore.createCard "a" 1
                   (NewCard.mk 0 0 200 150 16769126 "" None) DocumentStore.empty))
           "ghost" 7 1 2).
  vm_compute. reflexivity.
Defined.

(** ** Removing a card *)

Lemma removeCard_keeps_cardQuadtree (id : string) (e : CanvasEngine) :
  CanvasEngine.cardQuadtree (CanvasEngine.removeCard id e) =
  CanvasEngine.cardQuadtree e.
Proof.
  unfold CanvasEngine.removeCard. destruct (CanvasEngine.cards e !! id); reflexivity.
Qed.

(** C5 fails on the code.  After [createCard("a", 0, 0)] and
    [removeCard("a")], and likewise after a hydration that drops the card,
    the card has no runtime entry, yet the card index still returns its id
    for a request over its old bounds. *)
Theorem removeCard_leaves_index_entry :
  CanvasEngine.cards boardAfterRemoveCard !! "a"%string = None /\
  retrieve (CanvasEngine.cardQuadtree boardAfterRemoveCard) []
           (Rect.mk 0 0 10 10) = [mkCardItem "a"] /\
  CanvasEngine.cards boardAfterHydrateAway !! "a"%string = None /\
  retrieve (CanvasEngine.cardQuadtree boardAfterHydrateAway) []
           (Rect.mk 0 0 10 10) = [mkCardItem "a"].
Proof.
  repeat split; vm_compute; reflexivity.
Qed.

(** ** Zoom *)

Lemma clamp_range (a : Q) : 1 # 10 <= Qmax (1 # 10) (Qmin 5 a) /\
                            Qmax (1 # 10) (Qmin 5 a) <= 5.
Proof.
  split; [apply Q.le_max_l |].
  apply Q.max_lub; [lra | apply Q.le_min_l].
Qed.



(** ** The connecting gesture *)

Lemma fold_left_preserves {A B : Type} (f : A -> B -> A) (P : A -> Prop)
    (l : list B) :
  (forall a b, P a -> P (f a b)) -> forall a, P a -> P (fold_left f l a).
Proof.
  intros Hf. induction l as [| b l IH]; intros a Ha; cbn; auto.
Qed.

Lemma call_connections (r : bool) (c : Call) (e : CanvasEngine) :
  CanvasEngine.connections (CanvasEngine.call r c e) = CanvasEngine.connections e.
Proof. destruct r; reflexivity. Qed.

Lemma endStroke_connections (e : CanvasEngine) :
  CanvasEngine.connections (CanvasEngine.endStroke e) = CanvasEngine.connections e.
Proof.
  unfold CanvasEngine.endStroke.
  destruct (CanvasEngine.currentStroke e) as [st |]; [| reflexivity].
  destruct (StrokeState.points st); [reflexivity |].
  cbn. rewrite call_connections. reflexivity.
Qed.

Lemma onUp_connections (e : CanvasEngine) :
  CanvasEngine.connections (CanvasEngine.onUp e) = CanvasEngine.connections e.
Proof.
  unfold CanvasEngine.onUp.
  match goal with
  | |- CanvasEngine.connections (fold_left ?f ?l ?a) = _ =>
      transitivity (CanvasEngine.connections a);
      [apply (fold_left_preserves f
                (fun x => CanvasEngine.connections x = CanvasEngine.connections a));
       [intros x b Hx; rewrite call_connections; exact Hx | reflexivity] |]
  end.
  cbn. destruct (CanvasEngine.currentStroke e); [apply endStroke_connections | reflexivity].
Qed.

(** C9, amended.  In Connecting mode:
    - a pointer-down on a card, with the space bar up and the press not a
      second one on that card within 500 ms, records the card as the pending
      source and leaves the mode and the engine alone;
    - with a pending source of non-empty id and the engine set, a pointer-up
      on a different card calls [createConnection] from the source to that
      card once and clears the source: when no connection was stored under
      the id of the pair, one connection is added, from the source to that
      card, and reported once to the persistence callback when one is
      registered; when one was stored, nothing is added and nothing
      reported; the other connections stay as they were;
    - a pointer-up on the source card itself creates nothing and clears the
      source;
    - a pointer-up on empty space creates no connection. *)
Theorem connecting_gesture (s : System) (now : Z) (ev : PointerEvent)
    (a b : string) :
  InteractionManager.mode (InteractionManager.manager s) = CONNECTING ->
  (InteractionManager.isSpacePressed (InteractionManager.manager s) = false ->
   ~ (InteractionManager.lastClickedCardId (InteractionManager.manager s) = Some a /\
      (now - InteractionManager.lastClickTime (InteractionManager.manager s) < 500)%Z) ->
   let s1 := InteractionManager.handleCardDown now ev a s in
   InteractionManager.connectionStartId (InteractionManager.manager s1) = Some a /\
   InteractionManager.mode (InteractionManager.manager s1) = CONNECTING /\
   InteractionManager.engine s1 = InteractionManager.engine s) /\
  (InteractionManager.connectionStartId (InteractionManager.manager s) = Some a ->
   a <> ""%string ->
   (InteractionManager.engineSet (InteractionManager.manager s) = true ->
    a <> b ->
    let s2 := InteractionManager.handleCardUp b s in
    let old := CanvasEngine.connections (InteractionManager.engine s) in
    let new := CanvasEngine.connections (InteractionManager.engine s2) in
    InteractionManager.engine s2 =
      CanvasEngine.createConnection a b (InteractionManager.engine s) /\
    new !! connectionId a b =
      Some (match old !! connectionId a b with
            | Some c => c
            | None => Connection.mk (connectionId a b) a b
            end) /\
    (forall k, k <> connectionId a b -> new !! k = old !! k) /\
    size new =
      (size old + match old !! connectionId a b with
                  | Some _ => 0
                  | None => 1
                  end)%nat /\
    CanvasEngine.calls (InteractionManager.engine s2) =
      CanvasEngine.calls (InteractionManager.engine s) ++
      match old !! connectionId a b with
      | Some _ => []
      | None =>
          if CanvasEngine.onConnectionCreated (InteractionManager.engine s)
          then [ConnectionCreated a b] else []
      end /\
    InteractionManager.connectionStartId (InteractionManager.manager s2) = None) /\
   (let s3 := InteractionManager.handleCardUp a s in
    InteractionManager.engine s3 = InteractionManager.engine s /\
    InteractionManager.connectionStartId (InteractionManager.manager s3) = None)) /\
  CanvasEngine.connections
    (InteractionManager.engine (InteractionManager.stagePointerUp s)) =
  CanvasEngine.connections (InteractionManager.engine s).
Proof.
  intros Hm. destruct s as [m e]. cbn [InteractionManager.manager InteractionManager.engine] in *.
  split; [| split].
  - intros Hsp Hdc. cbv zeta. unfold InteractionManager.handleCardDown.
    cbn [InteractionManager.manager]. rewrite Hsp.
    destruct (bool_decide (InteractionManager.lastClickedCardId m = Some a) &&
              (now - InteractionManager.lastClickTime m <? 500)%Z) eqn:D.
    { exfalso. apply andb_true_iff in D. destruct D as [D1 D2].
      apply bool_decide_eq_true in D1. apply Z.ltb_lt in D2. tauto. }
    destruct m. cbn in *. subst.
    destruct (PointerEvent.shiftKey ev); cbn;
      repeat match goal with
             | |- context [bool_decide (?x ∈ ?X)] =>
                 destruct (bool_decide (x ∈ X)); cbn
             end; auto.
  - intros Hc Ha. assert (T : truthy a = true).
    { unfold truthy. apply negb_true_iff. apply String.eqb_neq. exact Ha. }
    split.
    + intros He Hab. cbv zeta. unfold InteractionManager.handleCardUp.
      cbn [InteractionManager.manager]. rewrite Hc, Hm, T.
      rewrite bool_decide_eq_true_2 by reflexivity. cbn [andb].
      apply String.eqb_neq in Hab. rewrite Hab. cbn [negb].
      unfold InteractionManager.withEngine. cbn [InteractionManager.manager].
      rewrite He. cbn [InteractionManager.manager InteractionManager.engine
                       InteractionManager.onManager
                       InteractionManager.setConnectionStartId
                       InteractionManager.connectionStartId].
      split; [reflexivity |].
      split; [apply engine_createConnection_lookup |].
      split; [intros k N; apply engine_createConnection_other; exact N |].
      split; [apply engine_createConnection_size |].
      split; [| reflexivity].
      unfold CanvasEngine.createConnection.
      destruct (CanvasEngine.connections e !! connectionId a b);
        [rewrite app_nil_r; reflexivity |].
      cbn. destruct (CanvasEngine.onConnectionCreated e); cbn;
        rewrite ?app_nil_r; reflexivity.
    + cbv zeta. unfold InteractionManager.handleCardUp.
      cbn [InteractionManager.manager]. rewrite Hc, Hm, T.
      rewrite bool_decide_eq_true_2 by reflexivity. cbn [andb].
      rewrite String.eqb_refl. cbn. auto.
  - unfold InteractionManager.stagePointerUp. cbn [InteractionManager.engine].
    rewrite onUp_connections. unfold InteractionManager.handleGlobalUp.
    destruct (bool_decide _); reflexivity.
Qed.

Lemma connecting_gesture_witness :
  let s := InteractionManager.handleCardDown 1000 plainEvent "a" connectingSystem in
  InteractionManager.connectionStartId (InteractionManager.manager s) = Some "a"%string /\
  CanvasEngine.connections
    (InteractionManager.engine (InteractionManager.handleCardUp "b" s))
    !! "a-b"%string = Some (Connection.mk "a-b" "a" "b") /\
  InteractionManager.connectionStartId
    (InteractionManager.manager (InteractionManager.handleCardUp "b" s)) = None /\
  InteractionManager.connectionStartId
    (InteractionManager.manager (InteractionManager.handleCardUp "a" s)) = None.
Proof.
  cbv zeta.
  pose proof (connecting_gesture connectingSystem 1000 plainEvent "a" "b" eq_refl)
    as (H1 & _ & _).
  destruct H1 as (S1 & M1 & E1); [reflexivity | vm_compute; intros [H _]; discriminate H |].
  split; [exact S1 |].
  pose proof (connecting_gesture
                (InteractionManager.handleCardDown 1000 plainEvent "a" connectingSystem)
                1000 plainEvent "a" "b" M1) as (_ & H2 & _).
  destruct (H2 S1) as (H2b & H2a); [discriminate |].
  destruct H2b as (E2 & _ & _ & _ & _ & C2); [reflexivity | discriminate |].
  destruct H2a as (_ & C3).
  split; [rewrite E2; vm_compute; reflexivity |].
  split; [exact C2 | exact C3].
Defined.

(** C9 as stated fails twice.  In Connecting mode a second press on the card
    "a" 200 ms after a first one is a double click: it switches to Editing
    and records no source.  And after a press on "a", a pointer-up on empty
    space leaves "a" the pending source: a later pointer-up on "b" connects
    "a" to "b". *)
Lemma connecting_double_click_and_stale_source :
  (InteractionManager.mode (InteractionManager.manager connectingAfterClick) = CONNECTING /\
   let s := InteractionManager.handleCardDown 1200 plainEvent "a" connectingAfterClick in
   InteractionManager.connectionStartId (InteractionManager.manager s) = None /\
   InteractionManager.mode (InteractionManager.manager s) = EDITING) /\
  (InteractionManager.mode (InteractionManager.manager connectingAfterMiss) = CONNECTING /\
   InteractionManager.connectionStartId (InteractionManager.manager connectingAfterMiss)
     = Some "a"%string /\
   CanvasEngine.connections
     (InteractionManager.engine
        (InteractionManager.handleCardUp "b" connectingAfterMiss))
     !! "a-b"%string = Some (Connection.mk "a-b" "a" "b")).
Proof.
  repeat split; vm_compute; reflexivity.
Qed.

(** ** The spring step of a card *)

Lemma springStep_fields (s : PhysicsState) :
  PhysicsState.isDragging s = false ->
  let s' := CanvasEngine.springStep s in
  PhysicsState.isDragging s' = false /\
  PhysicsState.targetX s' = PhysicsState.targetX s /\
  PhysicsState.targetY s' = PhysicsState.targetY s /\
  PhysicsState.vx s' ==
    (PhysicsState.vx s +
     (PhysicsState.targetX s - PhysicsState.x s) * (1 # 10) / (3 # 2)) * (23 # 25) /\
  PhysicsState.vy s' ==
    (PhysicsState.vy s +
     (PhysicsState.targetY s - PhysicsState.y s) * (1 # 10) / (3 # 2)) * (23 # 25) /\
  PhysicsState.x s' == PhysicsState.x s + PhysicsState.vx s' /\
  PhysicsState.y s' == PhysicsState.y s + PhysicsState.vy s'.
Proof.
  intros H. unfold CanvasEngine.springStep. rewrite H. cbn.
  unfold PHYSICS_CONFIG.spring, PHYSICS_CONFIG.mass, PHYSICS_CONFIG.friction.
  repeat split; reflexivity.
Qed.

Lemma frictionPow_pos (n : nat) : 0 < frictionPow n.
Proof.
  induction n as [| n IH]; cbn [frictionPow]; [reflexivity |].
  unfold PHYSICS_CONFIG.friction. nra.
Qed.

Lemma frictionPow_decreasing (n m : nat) :
  (n <= m)%nat -> frictionPow m <= frictionPow n.
Proof.
  induction 1 as [| m _ IH]; [lra |].
  cbn [frictionPow]. pose proof (frictionPow_pos m).
  unfold PHYSICS_CONFIG.friction. nra.
Qed.



(** ** The settling of a card, in doubles *)







(** The bound of 127 ticks is the least from which the card stays near
    its target: after 126 ticks it is not within 0.5 of it. *)
Lemma settling_far_at_126 :
  Doubles.nearTarget (Doubles.settling 126) = false.
Proof. vm_compute. reflexivity. Qed.


(** The tick of the engine applies the spring step to every card. *)
Lemma physicsTick_card (e : CanvasEngine) (id : string) :
  CanvasEngine.cards (CanvasEngine.physicsTick e) !! id =
    CanvasEngine.cardTick <$> (CanvasEngine.cards e !! id) /\
  forall c : Card,
    Card.state (CanvasEngine.cardTick c) = CanvasEngine.springStep (Card.state c).
Proof.
  split.
  - unfold CanvasEngine.physicsTick. cbn. apply lookup_fmap.
  - intros c. unfold CanvasEngine.cardTick, CanvasEngine.springStep.
    destruct (PhysicsState.isDragging (Card.state c)); reflexivity.
Qed.

(** ** Hydration of an existing card *)

Lemma includes_In (ids : list string) (id : string) :
  includes ids id = true <-> In id ids.
Proof.
  unfold includes. rewrite existsb_exists. split.
  - intros (x & Hx & E). apply String.eqb_eq in E. subst. exact Hx.
  - intros H. exists id. split; [exact H | apply String.eqb_refl].
Qed.



Lemma createCard_cards (cid : string) (x y : Q) (color : Z) (text : string)
    (image : option string) (e : CanvasEngine) :
  CanvasEngine.cards (CanvasEngine.createCard cid x y color text image e) =
  match CanvasEngine.cards e !! cid with
  | Some _ => CanvasEngine.cards e
  | None =>
      <[cid := Card.mk (Graphics.mk x y "grab" color text image)
                       (PhysicsState.mk x y 0 0 x y false 0 0 cid)]>
        (CanvasEngine.cards e)
  end.
Proof.
  unfold CanvasEngine.createCard.
  destruct (CanvasEngine.cards e !! cid); reflexivity.
Qed.

Lemma updateCardPosition_cards (cid : string) (x y : Q) (e : CanvasEngine) :
  CanvasEngine.cards (CanvasEngine.updateCardPosition cid x y e) =
  match CanvasEngine.cards e !! cid with
  | Some card =>
      if PhysicsState.isDragging (Card.state card) then CanvasEngine.cards e
      else <[cid := Card.mk (Card.graphics card) (retarget x y (Card.state card))]>
             (CanvasEngine.cards e)
  | None => CanvasEngine.cards e
  end.
Proof.
  unfold CanvasEngine.updateCardPosition.
  destruct (CanvasEngine.cards e !! cid) as [card |]; [| reflexivity].
  unfold retarget.
  destruct (PhysicsState.isDragging (Card.state card)) eqn:D; cbn;
    rewrite ?D; reflexivity.
Qed.

Lemma updateCardText_cards (cid : string) (text : string) (e : CanvasEngine) :
  CanvasEngine.cards (CanvasEngine.updateCardText cid text e) =
  match CanvasEngine.cards e !! cid with
  | Some card =>
      <[cid := Card.mk (retext text (Card.graphics card)) (Card.state card)]>
        (CanvasEngine.cards e)
  | None => CanvasEngine.cards e
  end.
Proof.
  unfold CanvasEngine.updateCardText.
  destruct (CanvasEngine.cards e !! cid); reflexivity.
Qed.

(** One incoming card, on the entry of another id and on its own entry. *)
Lemma hydrateCard_other (id : string) (c : CardData) (e : CanvasEngine) :
  CardData.id c <> id ->
  CanvasEngine.cards (CanvasEngine.hydrateCard e c) !! id = CanvasEngine.cards e !! id.
Proof.
  intros H. unfold CanvasEngine.hydrateCard.
  destruct (CanvasEngine.cards e !! CardData.id c) as [existing |] eqn:E.
  - rewrite updateCardText_cards.
    assert (P : forall e', CanvasEngine.cards e' !! id =
                match CanvasEngine.cards e' !! CardData.id c with
                | Some card =>
                    <[CardData.id c :=
                        Card.mk (retext (CardData.text c) (Card.graphics card))
                                (Card.state card)]> (CanvasEngine.cards e')
                | None => CanvasEngine.cards e'
                end !! id).
    { intros e'. destruct (CanvasEngine.cards e' !! CardData.id c);
        [rewrite lookup_insert_ne by exact H |]; reflexivity. }
    rewrite <- P.
    destruct (PhysicsState.isDragging (Card.state existing)); cbn [negb];
      [reflexivity |].
    rewrite updateCardPosition_cards, E.
    destruct (PhysicsState.isDragging (Card.state existing));
      [reflexivity | apply lookup_insert_ne; exact H].
  - rewrite createCard_cards, E. apply lookup_insert_ne; exact H.
Qed.

Lemma hydrateCard_same (c : CardData) (card : Card) (e : CanvasEngine) :
  CanvasEngine.cards e !! CardData.id c = Some card ->
  CanvasEngine.cards (CanvasEngine.hydrateCard e c) !! CardData.id c =
  Some (Card.mk (retext (CardData.text c) (Card.graphics card))
                (if PhysicsState.isDragging (Card.state card)
                 then Card.state card
                 else retarget (CardData.x c) (CardData.y c) (Card.state card))).
Proof.
  intros E. unfold CanvasEngine.hydrateCard. rewrite E.
  rewrite updateCardText_cards.
  destruct (PhysicsState.isDragging (Card.state card)) eqn:D; cbn [negb].
  - rewrite E. apply lookup_insert_eq.
  - rewrite updateCardPosition_cards, E, D, lookup_insert_eq.
    rewrite lookup_insert_eq. reflexivity.
Qed.



Lemma hydrate_cards (cs : list CardData) (conns : list ConnectionData)
    (ss : list StrokeData) (e : CanvasEngine) :
  CanvasEngine.cards (CanvasEngine.hydrate cs conns ss e) =
  CanvasEngine.cards (CanvasEngine.hydrateCards cs e).
Proof.
  unfold CanvasEngine.hydrate, CanvasEngine.hydrateStrokes,
    CanvasEngine.hydrateConnections. cbn [CanvasEngine.setStrokes CanvasEngine.cards].
  set (e1 := CanvasEngine.hydrateCards cs e).
  match goal with
  | |- CanvasEngine.cards (fold_left ?f ?l ?a) = _ =>
      transitivity (CanvasEngine.cards a);
      [apply (fold_left_preserves f
                (fun x => CanvasEngine.cards x = CanvasEngine.cards a));
       [intros x b Hx;
        destruct (CanvasEngine.connections x !! ConnectionData.id b);
        exact Hx | reflexivity] |]
  end.
  match goal with
  | |- CanvasEngine.cards (fold_left ?f ?l ?a) = _ =>
      apply (fold_left_preserves f
               (fun x => CanvasEngine.cards x = CanvasEngine.cards a));
      [intros x b Hx; exact Hx | reflexivity]
  end.
Qed.




(** The drag ends at the pointer-up: every card is released. *)
Lemma onUp_releases (e : CanvasEngine) (id : string) (card : Card) :
  CanvasEngine.cards (CanvasEngine.onUp e) !! id = Some card ->
  PhysicsState.isDragging (Card.state card) = false.
Proof.
  unfold CanvasEngine.onUp.
  match goal with
  | |- CanvasEngine.cards (fold_left ?f ?l ?a) !! id = _ -> _ =>
      assert (F : CanvasEngine.cards (fold_left f l a) = CanvasEngine.cards a)
        by (apply (fold_left_preserves f
                     (fun x => CanvasEngine.cards x = CanvasEngine.cards a));
            [intros x b Hx; unfold CanvasEngine.call;
             destruct (CanvasEngine.onPositionChange x); exact Hx | reflexivity])
  end.
  rewrite F. cbn [CanvasEngine.setCards CanvasEngine.cards].
  rewrite lookup_fmap. destruct (_ !! id) as [c0 |]; [| discriminate].
  cbn. intros H. inversion H; subst. unfold CanvasEngine.releaseCard.
  destruct (PhysicsState.isDragging (Card.state c0)) eqn:D; [reflexivity | exact D].
Qed.

(** ** What every sequence of operations maintains about strokes *)

Lemma frames_refl (e : CanvasEngine) : frames e e.
Proof.
  unfold frames. repeat split. exists []. split; [symmetry; apply app_nil_r | constructor].
Qed.

Lemma frames_trans (e1 e2 e3 : CanvasEngine) :
  frames e1 e2 -> frames e2 e3 -> frames e1 e3.
Proof.
  intros (V1 & Q1 & C1 & x1 & L1 & F1) (V2 & Q2 & C2 & x2 & L2 & F2).
  unfold frames. repeat split; try congruence.
  exists (x1 ++ x2). split; [rewrite L2, L1, app_assoc; reflexivity |].
  apply Forall_app. split; assumption.
Qed.

Lemma frames_fold {B : Type} (f : CanvasEngine -> B -> CanvasEngine)
    (l : list B) (e : CanvasEngine) :
  (forall x b, frames x (f x b)) -> frames e (fold_left f l e).
Proof.
  intros Hf. revert e. induction l as [| b l IH]; intros e; cbn [fold_left].
  - apply frames_refl.
  - eapply frames_trans; [apply Hf | apply IH].
Qed.

Lemma frames_call (r : bool) (c : Call) (e : CanvasEngine) :
  callOk c -> frames e (CanvasEngine.call r c e).
Proof.
  intros Hc. destruct r; [| apply frames_refl].
  unfold frames. cbn. repeat split. exists [c]. split; [reflexivity |].
  constructor; [exact Hc | constructor].
Qed.

(** A step that rebuilds the record with the same stroke index, current
    stroke and calls. *)
Ltac same_strokes :=
  unfold frames; cbn; repeat split;
  exists []; split; [symmetry; apply app_nil_r | constructor].

Lemma frames_setCards (c : gmap string Card) (e : CanvasEngine) :
  frames e (CanvasEngine.setCards c e).
Proof. same_strokes. Qed.

Lemma frames_setCardQuadtree (q : Quadtree CardItem) (e : CanvasEngine) :
  frames e (CanvasEngine.setCardQuadtree q e).
Proof. same_strokes. Qed.

Lemma frames_setConnections (c : gmap string Connection) (e : CanvasEngine) :
  frames e (CanvasEngine.setConnections c e).
Proof. same_strokes. Qed.

Lemma frames_setStrokes (s : list StrokeState) (e : CanvasEngine) :
  frames e (CanvasEngine.setStrokes s e).
Proof. same_strokes. Qed.

(** A step that leaves the stroke index, the current stroke and the calls
    as they are keeps the invariant. *)
Lemma StrokesOk_same (e e' : CanvasEngine) :
  CanvasEngine.strokeQuadtree e' = CanvasEngine.strokeQuadtree e ->
  CanvasEngine.currentStroke e' = CanvasEngine.currentStroke e ->
  CanvasEngine.calls e' = CanvasEngine.calls e ->
  StrokesOk e -> StrokesOk e'.
Proof.
  intros Q C L [S1 S2 S3 S4]. constructor; rewrite ?Q, ?C, ?L; assumption.
Qed.

Lemma frames_createCard (cid : string) (x y : Q) (color : Z) (text : string)
    (image : option string) (e : CanvasEngine) :
  frames e (CanvasEngine.createCard cid x y color text image e).
Proof.
  unfold CanvasEngine.createCard.
  destruct (CanvasEngine.cards e !! cid); [apply frames_refl | same_strokes].
Qed.

Lemma frames_updateCardPosition (cid : string) (x y : Q) (e : CanvasEngine) :
  frames e (CanvasEngine.updateCardPosition cid x y e).
Proof.
  unfold CanvasEngine.updateCardPosition.
  destruct (CanvasEngine.cards e !! cid) as [c |]; [| apply frames_refl].
  destruct (negb _); [same_strokes | apply frames_refl].
Qed.

Lemma frames_updateCardText (cid text : string) (e : CanvasEngine) :
  frames e (CanvasEngine.updateCardText cid text e).
Proof.
  unfold CanvasEngine.updateCardText.
  destruct (CanvasEngine.cards e !! cid); [same_strokes | apply frames_refl].
Qed.

Lemma frames_removeCard (cid : string) (e : CanvasEngine) :
  frames e (CanvasEngine.removeCard cid e).
Proof.
  unfold CanvasEngine.removeCard.
  destruct (CanvasEngine.cards e !! cid); [same_strokes | apply frames_refl].
Qed.

Lemma frames_hydrate (cs : list CardData) (conns : list ConnectionData)
    (ss : list StrokeData) (e : CanvasEngine) :
  frames e (CanvasEngine.hydrate cs conns ss e).
Proof.
  unfold CanvasEngine.hydrate.
  apply frames_trans with (e2 := CanvasEngine.hydrateConnections conns
                                   (CanvasEngine.hydrateCards cs e));
    [| apply frames_setStrokes].
  apply frames_trans with (e2 := CanvasEngine.hydrateCards cs e).
  - unfold CanvasEngine.hydrateCards. cbv zeta.
    eapply frames_trans; [| apply frames_fold].
    + apply frames_fold. intros x b. apply frames_removeCard.
    + intros x b. unfold CanvasEngine.hydrateCard.
      destruct (CanvasEngine.cards x !! CardData.id b) as [ex |];
        [| apply frames_createCard].
      eapply frames_trans; [| apply frames_updateCardText].
      destruct (negb _); [apply frames_updateCardPosition | apply frames_refl].
  - unfold CanvasEngine.hydrateConnections. cbv zeta.
    eapply frames_trans; [| apply frames_fold].
    + apply frames_fold. intros x b. apply frames_setConnections.
    + intros x b. destruct (CanvasEngine.connections x !! ConnectionData.id b);
        [apply frames_refl | apply frames_setConnections].
Qed.

Lemma frames_createConnection (a b : string) (e : CanvasEngine) :
  frames e (CanvasEngine.createConnection a b e).
Proof.
  unfold CanvasEngine.createConnection.
  destruct (CanvasEngine.connections e !! connectionId a b); [apply frames_refl |].
  eapply frames_trans; [apply frames_setConnections | apply frames_call; exact I].
Qed.

Lemma frames_startDrag (ev : PointerEvent) (cid : string)
    (sel : option (gset string)) (e : CanvasEngine) :
  frames e (CanvasEngine.startDrag ev cid sel e).
Proof.
  unfold CanvasEngine.startDrag.
  set (lp := Container.toLocal (CanvasEngine.worldContainer e) (PointerEvent.global ev)).
  clearbody lp. apply frames_fold. intros x b.
  destruct (CanvasEngine.cards x !! b); [apply frames_setCards | apply frames_refl].
Qed.

Lemma StrokesOk_frames (e e' : CanvasEngine) :
  frames e e' -> StrokesOk e -> StrokesOk e'.
Proof.
  intros (_ & Q & C & x & L & F) [S1 S2 S3 S4]. constructor.
  - rewrite Q. exact S1.
  - rewrite Q. exact S2.
  - rewrite L. apply Forall_app. split; assumption.
  - rewrite C. exact S4.
Qed.

Lemma insertInto_shaped {T : Type} (t : Quadtree T) (it : T) (b : Rect) :
  shaped t ->
  insert t (mkEntry it b) = Some (insertInto t it b) /\
  shaped (insertInto t it b) /\
  header (insertInto t it b) = header t /\
  entries (insertInto t it b) ≡ₚ mkEntry it b :: entries t.
Proof.
  intros S. unfold insertInto.
  destruct (insert_total t (mkEntry it b) S) as (t' & -> & Hh & St & Pt). auto.
Qed.

Lemma StrokesOk_new : StrokesOk CanvasEngine.new.
Proof.
  constructor; cbn.
  - exact I.
  - constructor.
  - constructor.
  - discriminate.
Qed.

Lemma StrokesOk_startStroke (uuid : string) (ev : PointerEvent) (e : CanvasEngine) :
  StrokesOk e -> StrokesOk (CanvasEngine.startStroke uuid ev e).
Proof.
  intros [S1 S2 S3 S4]. constructor; cbn; auto.
  intros st H. inversion H; subst. cbn. discriminate.
Qed.

Lemma StrokesOk_continueStroke (ev : PointerEvent) (e : CanvasEngine) :
  StrokesOk e -> StrokesOk (CanvasEngine.continueStroke ev e).
Proof.
  intros S. pose proof S as [S1 S2 S3 S4]. unfold CanvasEngine.continueStroke.
  destruct (CanvasEngine.currentStroke e) as [st |] eqn:C; [| exact S].
  constructor; cbn; auto.
  intros st' H. inversion H; subst. cbn.
  specialize (S4 st eq_refl). destruct (StrokeState.points st); [congruence | discriminate].
Qed.

(** The stroke [endStroke] finishes: the current one, with the second point
    when it has one point only. *)
Lemma endStroke_spec (e : CanvasEngine) (st : StrokeState) (p : Point)
    (rest : list Point) :
  CanvasEngine.currentStroke e = Some st -> StrokeState.points st = p :: rest ->
  let st' :=
    match rest with
    | [] => StrokeState.mk
              [p; (pointX p + (1 # 10), pointY p + (1 # 10), pointPressure p)]
              (StrokeState.id st)
    | _ :: _ => st
    end in
  (2 <= length (StrokeState.points st'))%nat /\
  StrokeState.id st' = StrokeState.id st /\
  CanvasEngine.calls (CanvasEngine.endStroke e) =
    CanvasEngine.calls e ++
    (if CanvasEngine.onStrokeFinished e
     then [StrokeFinished (StrokeState.id st) (StrokeState.points st')] else []) /\
  CanvasEngine.strokeQuadtree (CanvasEngine.endStroke e) =
    insertInto (CanvasEngine.strokeQuadtree e)
      (mkStrokeItem (StrokeState.id st) st')
      (CanvasEngine.getStrokeBounds (StrokeState.points st')) /\
  CanvasEngine.currentStroke (CanvasEngine.endStroke e) = None /\
  CanvasEngine.strokes (CanvasEngine.endStroke e) =
    CanvasEngine.syncStroke st' (CanvasEngine.strokes e).
Proof.
  intros C P. cbv zeta. unfold CanvasEngine.endStroke. rewrite C, P.
  destruct rest as [| p2 rest]; cbn [length Nat.ltb Nat.leb app].
  - destruct st as [pts id]. cbn in P. subst pts. cbn.
    unfold CanvasEngine.call. cbn.
    destruct (CanvasEngine.onStrokeFinished e); cbn;
      rewrite ?app_nil_r; repeat split; auto.
  - destruct st as [pts id]. cbn in P. subst pts.
    unfold CanvasEngine.call. cbn.
    destruct (CanvasEngine.onStrokeFinished e); cbn;
      rewrite ?app_nil_r; repeat split; auto; lia.
Qed.

Lemma StrokesOk_endStroke (e : CanvasEngine) :
  StrokesOk e -> StrokesOk (CanvasEngine.endStroke e).
Proof.
  intros S. pose proof S as [S1 S2 S3 S4].
  destruct (CanvasEngine.currentStroke e) as [st |] eqn:C;
    [| unfold CanvasEngine.endStroke; rewrite C; exact S].
  destruct (StrokeState.points st) as [| p rest] eqn:P;
    [exfalso; exact (S4 st eq_refl P) |].
  destruct (endStroke_spec e st p rest C P) as (L & I & Hc & Hq & Hn & _).
  destruct (insertInto_shaped (CanvasEngine.strokeQuadtree e)
              (mkStrokeItem (StrokeState.id st)
                 match rest with
                 | [] => StrokeState.mk
                           [p; (pointX p + (1 # 10), pointY p + (1 # 10), pointPressure p)]
                           (StrokeState.id st)
                 | _ :: _ => st
                 end)
              (CanvasEngine.getStrokeBounds
                 (StrokeState.points
                    match rest with
                    | [] => StrokeState.mk
                              [p; (pointX p + (1 # 10), pointY p + (1 # 10), pointPressure p)]
                              (StrokeState.id st)
                    | _ :: _ => st
                    end)) S1) as (_ & Sh & _ & Pe).
  constructor.
  - rewrite Hq. exact Sh.
  - rewrite Hq. rewrite List.Forall_forall. intros x Hx.
    apply (Permutation_in _ Pe) in Hx. destruct Hx as [<- | Hx].
    + unfold indexedStroke. cbn. repeat split; auto.
    + rewrite List.Forall_forall in S2. auto.
  - rewrite Hc. apply Forall_app. split; [exact S3 |].
    destruct (CanvasEngine.onStrokeFinished e); repeat constructor. exact L.
  - rewrite Hn. discriminate.
Qed.

Lemma StrokesOk_eraseStroke (e : CanvasEngine) (id : string) :
  StrokesOk e -> StrokesOk (CanvasEngine.eraseStroke e id).
Proof.
  intros [S1 S2 S3 S4]. unfold CanvasEngine.eraseStroke, CanvasEngine.call.
  destruct (CanvasEngine.onStrokeDeleted e); constructor; cbn; auto;
    try (apply remove_wfP; exact S1);
    try (rewrite remove_entries, List.Forall_forall in *; intros x Hx;
         apply S2; eapply dropFirst_incl; eauto).
  apply Forall_app. split; [exact S3 | repeat constructor].
Qed.

Lemma StrokesOk_eraseAt (x y : Q) (e : CanvasEngine) :
  StrokesOk e -> StrokesOk (CanvasEngine.eraseAt x y e).
Proof.
  unfold CanvasEngine.eraseAt. cbv zeta.
  apply (fold_left_preserves CanvasEngine.eraseStroke StrokesOk).
  intros a b. apply StrokesOk_eraseStroke.
Qed.

Lemma StrokesOk_run (op : Op) (e : CanvasEngine) :
  StrokesOk e -> StrokesOk (run op e).
Proof.
  intros S. destruct op; cbn [run].
  - eapply StrokesOk_frames; [apply frames_createCard | exact S].
  - eapply StrokesOk_frames; [apply frames_updateCardPosition | exact S].
  - eapply StrokesOk_frames; [apply frames_updateCardText | exact S].
  - eapply StrokesOk_frames; [apply frames_removeCard | exact S].
  - eapply StrokesOk_frames; [apply frames_hydrate | exact S].
  - eapply StrokesOk_frames; [apply frames_createConnection | exact S].
  - apply StrokesOk_startStroke; exact S.
  - apply StrokesOk_continueStroke; exact S.
  - apply StrokesOk_endStroke; exact S.
  - apply StrokesOk_eraseAt; exact S.
  - apply (StrokesOk_same e); auto.
  - apply (StrokesOk_same e); auto.
  - apply (StrokesOk_same e); auto.
  - eapply StrokesOk_frames; [apply frames_startDrag | exact S].
  - unfold CanvasEngine.onGlobalPointerMove.
    destruct (bool_decide (mode = ERASING) && (PointerEvent.buttons ev =? 1)%Z);
      [apply StrokesOk_eraseAt; exact S |].
    cbv zeta.
    set (e1 := CanvasEngine.call _ _ e).
    assert (S1 : StrokesOk e1)
      by (eapply StrokesOk_frames; [apply frames_call; exact I | exact S]).
    clearbody e1.
    destruct (CanvasEngine.currentStroke e1);
      [apply StrokesOk_continueStroke; exact S1 |].
    eapply StrokesOk_frames; [apply frames_setCards |].
    destruct (ViewportState.isDragging (CanvasEngine.viewport e1));
      [apply (StrokesOk_same e1); auto | exact S1].
  - unfold CanvasEngine.onUp. cbv zeta.
    set (e1 := match CanvasEngine.currentStroke e with
               | Some _ => CanvasEngine.endStroke e
               | None => e
               end).
    assert (S1 : StrokesOk e1)
      by (subst e1; destruct (CanvasEngine.currentStroke e);
          [apply StrokesOk_endStroke |]; exact S).
    clearbody e1.
    apply (fold_left_preserves _ StrokesOk).
    + intros a b Ha. eapply StrokesOk_frames; [apply frames_call; exact I | exact Ha].
    + eapply StrokesOk_frames; [apply frames_setCards |].
      apply (StrokesOk_same e1); auto.
  - eapply StrokesOk_frames; [| exact S]. same_strokes.
  - eapply StrokesOk_frames; [| exact S]. same_strokes.
  - eapply StrokesOk_frames; [| exact S]. same_strokes.
Qed.

Lemma StrokesOk_runAll (ops : list Op) (e : CanvasEngine) :
  StrokesOk e -> StrokesOk (runAll ops e).
Proof.
  unfold runAll. apply fold_left_preserves. intros a b. apply StrokesOk_run.
Qed.

(** ** Finished strokes *)

Lemma persistAll_storedOk (now : Z) (cs : list Call) (d : DocumentStore) :
  List.Forall callOk cs -> storedOk d -> storedOk (persistAll now cs d).
Proof.
  unfold persistAll. revert d.
  induction cs as [| c cs IH]; intros d Hc Hd; cbn [fold_left]; [exact Hd |].
  inversion Hc as [| ? ? Hc1 Hc2]; subst. apply IH; [exact Hc2 |].
  unfold storedOk in *. destruct c as [cid x y | a b | id pts | id | x y]; cbn.
  - unfold DocumentStore.updateCardPosition.
    destruct (DocumentStore.cardsMap d !! cid); exact Hd.
  - unfold DocumentStore.createConnection.
    destruct (DocumentStore.connectionsMap d !! connectionId a b); exact Hd.
  - apply map_Forall_insert_2; [exact Hc1 | exact Hd].
  - apply map_Forall_delete. exact Hd.
  - exact Hd.
Qed.

(** C10.  After every sequence of operations of the engine: every stroke
    handed to the persistence callback has two points or more, and so has
    every stroke the store then holds and every stroke of the stroke index;
    and a stroke ended right after it was started, with its single point,
    is handed over and indexed with a second point, 0.1 to the right of and
    0.1 below the first, with the same pressure. *)
Theorem finished_strokes_have_two_points (ops : list Op) :
  let e := runAll ops CanvasEngine.new in
  List.Forall callOk (CanvasEngine.calls e) /\
  List.Forall
    (fun it => (2 <= length (StrokeState.points (stroke it)))%nat)
    (getAll (CanvasEngine.strokeQuadtree e)) /\
  (forall now : Z,
     storedOk (persistAll now (CanvasEngine.calls e) DocumentStore.empty)) /\
  (forall (uuid : string) (ev : PointerEvent),
     let p :=
       (fst (Container.toLocal (CanvasEngine.worldContainer e) (PointerEvent.global ev)),
        snd (Container.toLocal (CanvasEngine.worldContainer e) (PointerEvent.global ev)),
        pressureOr (PointerEvent.pressure ev)) in
     let dot :=
       StrokeState.mk
         [p; (pointX p + (1 # 10), pointY p + (1 # 10), pointPressure p)] uuid in
     let e' := CanvasEngine.endStroke (CanvasEngine.startStroke uuid ev e) in
     CanvasEngine.calls e' =
       CanvasEngine.calls e ++
       (if CanvasEngine.onStrokeFinished e
        then [StrokeFinished uuid (StrokeState.points dot)] else []) /\
     In (mkStrokeItem uuid dot) (getAll (CanvasEngine.strokeQuadtree e')) /\
     CanvasEngine.currentStroke e' = None).
Proof.
  cbv zeta.
  pose proof (StrokesOk_runAll ops _ StrokesOk_new) as S.
  set (e := runAll ops CanvasEngine.new) in *. clearbody e.
  pose proof S as [S1 S2 S3 S4].
  split; [exact S3 |]. split; [| split].
  - rewrite getAll_entries. rewrite List.Forall_forall in *.
    intros it Hit. apply in_map_iff in Hit. destruct Hit as (en & <- & Hen).
    apply (S2 en Hen).
  - intros now. apply persistAll_storedOk; [exact S3 |].
    unfold storedOk. cbn. apply map_Forall_empty.
  - intros uuid ev.
    set (lp := Container.toLocal (CanvasEngine.worldContainer e) (PointerEvent.global ev)).
    set (p := (fst lp, snd lp, pressureOr (PointerEvent.pressure ev))).
    destruct (endStroke_spec (CanvasEngine.startStroke uuid ev e)
                (StrokeState.mk [p] uuid) p [] eq_refl eq_refl)
      as (_ & _ & Hc & Hq & Hn & _).
    cbn [StrokeState.id StrokeState.points] in Hc, Hq.
    split; [exact Hc |]. split; [| exact Hn].
    rewrite Hq, getAll_entries.
    destruct (insertInto_shaped
                (CanvasEngine.strokeQuadtree (CanvasEngine.startStroke uuid ev e))
                (mkStrokeItem uuid
                   (StrokeState.mk
                      [p; (pointX p + (1 # 10), pointY p + (1 # 10), pointPressure p)]
                      uuid))
                (CanvasEngine.getStrokeBounds
                   [p; (pointX p + (1 # 10), pointY p + (1 # 10), pointPressure p)]))
      as (_ & _ & _ & Pe); [exact S1 |].
    apply in_map_iff. eexists.
    split; [| apply (Permutation_in _ (Permutation_sym Pe)); left; reflexivity].
    reflexivity.
Qed.

(** ** The eraser: geometry *)









(** ** The eraser: candidates, hits and removal *)

(** [retrieve] returns nothing but what it was given and what the tree
    stores. *)
Lemma retrieve_sound {T : Type} (t : Quadtree T) (acc : list T) (q : Rect) (x : T) :
  In x (retrieve t acc q) -> In x acc \/ In x (getAll t).
Proof.
  revert acc. induction t as [h objs | h objs c0 IH0 c1 IH1 c2 IH2 c3 IH3];
    intros acc; cbn [retrieve getAll]; rewrite !in_app_iff.
  - tauto.
  - intros [H | H]; [| tauto].
    assert (V : forall (c : Quadtree T) (a : list T),
              (forall acc', In x (retrieve c acc' q) -> In x acc' \/ In x (getAll c)) ->
              In x (if intersects (bounds (header c)) q then retrieve c a q else a) ->
              In x a \/ In x (getAll c)).
    { intros c a IH Hc.
      destruct (intersects (bounds (header c)) q);
        [apply IH; exact Hc | left; exact Hc]. }
    destruct (getIndex (bounds h) q) as [[| | |] |].
    + apply IH0 in H. tauto.
    + apply IH1 in H. tauto.
    + apply IH2 in H. tauto.
    + apply IH3 in H. tauto.
    + apply (V c3 _ IH3) in H. destruct H as [H | H]; [| tauto].
      apply (V c2 _ IH2) in H. destruct H as [H | H]; [| tauto].
      apply (V c1 _ IH1) in H. destruct H as [H | H]; [| tauto].
      apply (V c0 _ IH0) in H. tauto.
Qed.

(** The ids [eraseAt] collects: those of the candidates that are hit and
    whose id is not empty. *)
Lemma collectHits_spec (px py : Q) (candidates : list StrokeItem) (id : string) :
  In id (CanvasEngine.collectHits px py candidates) <->
  exists it, In it candidates /\
    CanvasEngine.hitsStroke px py (StrokeState.points (stroke it)) = true /\
    truthy (StrokeState.id (stroke it)) = true /\
    id = StrokeState.id (stroke it).
Proof.
  unfold CanvasEngine.collectHits.
  cut (forall acc,
         In id (fold_left
                  (fun hits item =>
                     if CanvasEngine.hitsStroke px py (StrokeState.points (stroke item)) &&
                        truthy (StrokeState.id (stroke item)) &&
                        negb (includes hits (StrokeState.id (stroke item)))
                     then hits ++ [StrokeState.id (stroke item)] else hits)
                  candidates acc) <->
         In id acc \/
         exists it, In it candidates /\
           CanvasEngine.hitsStroke px py (StrokeState.points (stroke it)) = true /\
           truthy (StrokeState.id (stroke it)) = true /\
           id = StrokeState.id (stroke it)).
  { intros H. rewrite H. cbn. tauto. }
  induction candidates as [| c cs IH]; intros acc; cbn [fold_left].
  - split; [tauto |]. intros [H | (it & [] & _)]. exact H.
  - rewrite IH. clear IH.
    destruct (CanvasEngine.hitsStroke px py (StrokeState.points (stroke c))) eqn:Hh;
    destruct (truthy (StrokeState.id (stroke c))) eqn:Ht;
    destruct (includes acc (StrokeState.id (stroke c))) eqn:Hi; cbn [andb negb];
    rewrite ?in_app_iff; cbn [In]; split;
    try (intros [H | (it & Hin & H1 & H2 & H3)]; [tauto | right; exists it; tauto]);
    try (intros [H | (it & [<- | Hin] & H1 & H2 & H3)];
         [tauto | congruence | right; exists it; tauto]).
    + intros [H | (it & [<- | Hin] & H1 & H2 & H3)];
        [tauto | left; subst id; apply includes_In; exact Hi | right; exists it; tauto].
    + intros [[H | [<- | []]] | (it & Hin & H1 & H2 & H3)];
        [tauto | right; exists c; tauto | right; exists it; tauto].
    + intros [H | (it & [<- | Hin] & H1 & H2 & H3)];
        [tauto | left; right; left; symmetry; exact H3 | right; exists it; tauto].
Qed.

Lemma eraseStrokes_fields (hits : list string) (e : CanvasEngine) :
  let e' := fold_left CanvasEngine.eraseStroke hits e in
  CanvasEngine.strokeQuadtree e' =
    fold_left (fun t id => remove strokeItemId id t) hits (CanvasEngine.strokeQuadtree e) /\
  CanvasEngine.strokes e' =
    fold_left (fun l id => CanvasEngine.spliceStroke id l) hits (CanvasEngine.strokes e) /\
  CanvasEngine.calls e' =
    CanvasEngine.calls e ++
    (if CanvasEngine.onStrokeDeleted e then map StrokeDeleted hits else []) /\
  CanvasEngine.onStrokeDeleted e' = CanvasEngine.onStrokeDeleted e.
Proof.
  cbv zeta. revert e. induction hits as [| id hits IH]; intros e; cbn [fold_left map].
  - destruct (CanvasEngine.onStrokeDeleted e); rewrite app_nil_r; auto.
  - destruct (IH (CanvasEngine.eraseStroke e id)) as (Hq & Hs & Hc & Hd).
    rewrite Hq, Hs, Hc, Hd. unfold CanvasEngine.eraseStroke, CanvasEngine.call.
    destruct (CanvasEngine.onStrokeDeleted e) eqn:D; cbn;
      rewrite ?D, <- ?app_assoc, ?app_nil_r; auto.
Qed.






Lemma boardStrokesInside_index :
  exists c0 c1 c2 c3 : Quadtree StrokeItem,
    CanvasEngine.strokeQuadtree boardStrokesInside =
    Split (mkHeader worldBounds 10 5 0) [] c0 c1 c2 c3.
Proof. vm_compute. do 4 eexists. reflexivity. Qed.



(** The radius test is computed in doubles, and rounds.  The point
    (12, 16 - 2^-49) is closer than the radius to the segment from (0, 0)
    to (-10, 0): the exact square of its distance is below 400.  The
    distance [distToSegment] computes for it is 20, so the test of
    [eraseAt] fails and a stroke with this segment is kept. *)
Lemma distToSegment_rounds_to_radius :
  CanvasEngine.distToSegmentSq 12 (16 - 1 / 2 ^ 49) 0 0 (-10) 0 <
    CanvasEngine.eraseRadius * CanvasEngine.eraseRadius /\
  Doubles.distToSegment 12 (16 - 0x1p-49) 0 0 (-10) 0 = 20%float /\
  Doubles.segmentHit 12 (16 - 0x1p-49) 0 0 (-10) 0 = false.
Proof.
  split; [vm_compute; reflexivity |]. split; vm_compute; reflexivity.
Qed.

(** The invariant of an index is kept by the insertion of an item that lies
    within the world, which is what [endStroke] and [createCard] do, and by
    the eraser. *)
Lemma insertInto_wf {T : Type} (t : Quadtree T) (it : T) (b : Rect) :
  wf t -> fits t -> inside b (bounds (header t)) ->
  wf (insertInto t it b) /\ fits (insertInto t it b) /\
  header (insertInto t it b) = header t.
Proof.
  intros W F I. unfold insertInto.
  destruct (insert_ok inside getIndex_inside t (mkEntry it b) W F I)
    as (t' & -> & Hh & Wt & Ft & _). auto.
Qed.

Lemma eraseAt_wf (x y : Q) (e : CanvasEngine) :
  wf (CanvasEngine.strokeQuadtree e) -> fits (CanvasEngine.strokeQuadtree e) ->
  wf (CanvasEngine.strokeQuadtree (CanvasEngine.eraseAt x y e)) /\
  fits (CanvasEngine.strokeQuadtree (CanvasEngine.eraseAt x y e)).
Proof.
  intros W F. unfold CanvasEngine.eraseAt. cbv zeta.
  match goal with
  | |- context [fold_left CanvasEngine.eraseStroke ?hits e] =>
      destruct (eraseStrokes_fields hits e) as (Hq & _); cbv zeta in Hq;
      rewrite Hq; clear Hq; generalize hits
  end.
  intros hits. revert W F. generalize (CanvasEngine.strokeQuadtree e).
  induction hits as [| id hits IH]; intros t W F; cbn [fold_left]; [auto |].
  apply IH.
  - apply remove_wfP. exact W.
  - unfold fits, fitsP in *. rewrite remove_header, remove_entries.
    rewrite List.Forall_forall in *. intros en Hen. apply F.
    eapply dropFirst_incl; eauto.
Qed.

(** ** The scale of the viewport, and the zoom step on every viewport the
    engine reaches *)

Lemma scaleOk_frames (e e' : CanvasEngine) : frames e e' -> scaleOk e -> scaleOk e'.
Proof. intros (V & _) S. unfold scaleOk. rewrite V. exact S. Qed.

Lemma call_viewport (r : bool) (c : Call) (e : CanvasEngine) :
  CanvasEngine.viewport (CanvasEngine.call r c e) = CanvasEngine.viewport e.
Proof. destruct r; reflexivity. Qed.

Lemma continueStroke_viewport (ev : PointerEvent) (e : CanvasEngine) :
  CanvasEngine.viewport (CanvasEngine.continueStroke ev e) = CanvasEngine.viewport e.
Proof.
  unfold CanvasEngine.continueStroke.
  destruct (CanvasEngine.currentStroke e); reflexivity.
Qed.

Lemma endStroke_viewport (e : CanvasEngine) :
  CanvasEngine.viewport (CanvasEngine.endStroke e) = CanvasEngine.viewport e.
Proof.
  unfold CanvasEngine.endStroke.
  destruct (CanvasEngine.currentStroke e) as [st |]; [| reflexivity].
  destruct (StrokeState.points st); [reflexivity |].
  cbn. rewrite call_viewport. reflexivity.
Qed.

Lemma eraseAt_viewport (x y : Q) (e : CanvasEngine) :
  CanvasEngine.viewport (CanvasEngine.eraseAt x y e) = CanvasEngine.viewport e.
Proof.
  unfold CanvasEngine.eraseAt. cbv zeta.
  apply (fold_left_preserves CanvasEngine.eraseStroke
           (fun a => CanvasEngine.viewport a = CanvasEngine.viewport e));
    [| reflexivity].
  intros a b Ha. unfold CanvasEngine.eraseStroke. cbn.
  rewrite call_viewport. exact Ha.
Qed.

Lemma scaleOk_run (op : Op) (e : CanvasEngine) : scaleOk e -> scaleOk (run op e).
Proof.
  intros S. destruct op; cbn [run].
  - eapply scaleOk_frames; [apply frames_createCard | exact S].
  - eapply scaleOk_frames; [apply frames_updateCardPosition | exact S].
  - eapply scaleOk_frames; [apply frames_updateCardText | exact S].
  - eapply scaleOk_frames; [apply frames_removeCard | exact S].
  - eapply scaleOk_frames; [apply frames_hydrate | exact S].
  - eapply scaleOk_frames; [apply frames_createConnection | exact S].
  - exact S.
  - unfold scaleOk. rewrite continueStroke_viewport. exact S.
  - unfold scaleOk. rewrite endStroke_viewport. exact S.
  - unfold scaleOk. rewrite eraseAt_viewport. exact S.
  - unfold scaleOk, CanvasEngine.physicsTick, CanvasEngine.viewportTick. cbn.
    destruct (negb _); exact S.
  - unfold scaleOk, CanvasEngine.wheel, CanvasEngine.wheelViewport. cbn.
    apply clamp_range.
  - exact S.
  - eapply scaleOk_frames; [apply frames_startDrag | exact S].
  - unfold CanvasEngine.onGlobalPointerMove.
    destruct (bool_decide (mode = ERASING) && (PointerEvent.buttons ev =? 1)%Z);
      [unfold scaleOk; rewrite eraseAt_viewport; exact S |].
    cbv zeta. set (e1 := CanvasEngine.call _ _ e).
    assert (S1 : scaleOk e1) by (unfold scaleOk, e1; rewrite call_viewport; exact S).
    clearbody e1.
    destruct (CanvasEngine.currentStroke e1);
      [unfold scaleOk; rewrite continueStroke_viewport; exact S1 |].
    destruct (ViewportState.isDragging (CanvasEngine.viewport e1)); exact S1.
  - unfold CanvasEngine.onUp. cbv zeta.
    set (e1 := match CanvasEngine.currentStroke e with
               | Some _ => CanvasEngine.endStroke e
               | None => e
               end).
    assert (S1 : scaleOk e1)
      by (subst e1; destruct (CanvasEngine.currentStroke e);
          [unfold scaleOk; rewrite endStroke_viewport |]; exact S).
    clearbody e1.
    apply (fold_left_preserves _ scaleOk).
    + intros a b Ha. unfold scaleOk. rewrite call_viewport. exact Ha.
    + exact S1.
  - exact S.
  - exact S.
  - exact S.
Qed.

Lemma scaleOk_runAll (ops : list Op) : scaleOk (runAll ops CanvasEngine.new).
Proof.
  unfold runAll. apply fold_left_preserves; [intros a b; apply scaleOk_run |].
  unfold scaleOk. cbn. lra.
Qed.




(** ** [insert] returns on both indexes of every engine *)

Lemma call_cardQuadtree (r : bool) (c : Call) (e : CanvasEngine) :
  CanvasEngine.cardQuadtree (CanvasEngine.call r c e) = CanvasEngine.cardQuadtree e.
Proof. destruct r; reflexivity. Qed.

Lemma createCard_cardShaped (cid : string) (x y : Q) (color : Z) (text : string)
    (image : option string) (e : CanvasEngine) :
  shaped (CanvasEngine.cardQuadtree e) ->
  shaped (CanvasEngine.cardQuadtree (CanvasEngine.createCard cid x y color text image e)).
Proof.
  intros S. unfold CanvasEngine.createCard.
  destruct (CanvasEngine.cards e !! cid); [exact S |].
  cbn. apply insertInto_shaped. exact S.
Qed.

Lemma updateCardPosition_cardShaped (cid : string) (x y : Q) (e : CanvasEngine) :
  shaped (CanvasEngine.cardQuadtree e) ->
  shaped (CanvasEngine.cardQuadtree (CanvasEngine.updateCardPosition cid x y e)).
Proof.
  intros S. unfold CanvasEngine.updateCardPosition.
  destruct (CanvasEngine.cards e !! cid) as [c |]; [| exact S].
  destruct (negb _); [| exact S].
  cbn. apply insertInto_shaped. apply remove_wfP. exact S.
Qed.

Lemma updateCardText_cardQuadtree (cid text : string) (e : CanvasEngine) :
  CanvasEngine.cardQuadtree (CanvasEngine.updateCardText cid text e) =
  CanvasEngine.cardQuadtree e.
Proof.
  unfold CanvasEngine.updateCardText.
  destruct (CanvasEngine.cards e !! cid); reflexivity.
Qed.

Lemma hydrate_cardShaped (cs : list CardData) (conns : list ConnectionData)
    (ss : list StrokeData) (e : CanvasEngine) :
  shaped (CanvasEngine.cardQuadtree e) ->
  shaped (CanvasEngine.cardQuadtree (CanvasEngine.hydrate cs conns ss e)).
Proof.
  intros S. unfold CanvasEngine.hydrate, CanvasEngine.hydrateStrokes.
  cbn [CanvasEngine.setStrokes CanvasEngine.cardQuadtree].
  unfold CanvasEngine.hydrateConnections, CanvasEngine.hydrateCards. cbv zeta.
  apply (fold_left_preserves _ (fun a => shaped (CanvasEngine.cardQuadtree a))).
  { intros a b Ha. destruct (CanvasEngine.connections a !! ConnectionData.id b); exact Ha. }
  apply (fold_left_preserves _ (fun a => shaped (CanvasEngine.cardQuadtree a))).
  { intros a b Ha. exact Ha. }
  apply (fold_left_preserves _ (fun a => shaped (CanvasEngine.cardQuadtree a))).
  { intros a b Ha. unfold CanvasEngine.hydrateCard.
    destruct (CanvasEngine.cards a !! CardData.id b) as [ex |];
      [| apply createCard_cardShaped; exact Ha].
    rewrite updateCardText_cardQuadtree.
    destruct (negb _); [apply updateCardPosition_cardShaped |]; exact Ha. }
  apply (fold_left_preserves _ (fun a => shaped (CanvasEngine.cardQuadtree a))).
  { intros a b Ha. rewrite removeCard_keeps_cardQuadtree. exact Ha. }
  exact S.
Qed.

Lemma endStroke_cardQuadtree (e : CanvasEngine) :
  CanvasEngine.cardQuadtree (CanvasEngine.endStroke e) = CanvasEngine.cardQuadtree e.
Proof.
  unfold CanvasEngine.endStroke.
  destruct (CanvasEngine.currentStroke e) as [st |]; [| reflexivity].
  destruct (StrokeState.points st); [reflexivity |].
  cbn. rewrite call_cardQuadtree. reflexivity.
Qed.

Lemma continueStroke_cardQuadtree (ev : PointerEvent) (e : CanvasEngine) :
  CanvasEngine.cardQuadtree (CanvasEngine.continueStroke ev e) =
  CanvasEngine.cardQuadtree e.
Proof.
  unfold CanvasEngine.continueStroke.
  destruct (CanvasEngine.currentStroke e); reflexivity.
Qed.

Lemma eraseAt_cardQuadtree (x y : Q) (e : CanvasEngine) :
  CanvasEngine.cardQuadtree (CanvasEngine.eraseAt x y e) = CanvasEngine.cardQuadtree e.
Proof.
  unfold CanvasEngine.eraseAt. cbv zeta.
  apply (fold_left_preserves CanvasEngine.eraseStroke
           (fun a => CanvasEngine.cardQuadtree a = CanvasEngine.cardQuadtree e));
    [| reflexivity].
  intros a b Ha. unfold CanvasEngine.eraseStroke. cbn.
  rewrite call_cardQuadtree. exact Ha.
Qed.

Lemma cardShaped_run (op : Op) (e : CanvasEngine) :
  shaped (CanvasEngine.cardQuadtree e) -> shaped (CanvasEngine.cardQuadtree (run op e)).
Proof.
  intros S. destruct op; cbn [run]; try exact S.
  - apply createCard_cardShaped; exact S.
  - apply updateCardPosition_cardShaped; exact S.
  - rewrite updateCardText_cardQuadtree. exact S.
  - rewrite removeCard_keeps_cardQuadtree. exact S.
  - apply hydrate_cardShaped; exact S.
  - unfold CanvasEngine.createConnection.
    destruct (CanvasEngine.connections e !! connectionId fromId toId); [exact S |].
    rewrite call_cardQuadtree. exact S.
  - rewrite continueStroke_cardQuadtree. exact S.
  - rewrite endStroke_cardQuadtree. exact S.
  - rewrite eraseAt_cardQuadtree. exact S.
  - unfold CanvasEngine.startDrag.
    set (lp := Container.toLocal (CanvasEngine.worldContainer e) (PointerEvent.global ev)).
    clearbody lp.
    apply (fold_left_preserves _ (fun a => shaped (CanvasEngine.cardQuadtree a)));
      [| exact S].
    intros a b Ha. destruct (CanvasEngine.cards a !! b); exact Ha.
  - unfold CanvasEngine.onGlobalPointerMove.
    destruct (bool_decide (mode = ERASING) && (PointerEvent.buttons ev =? 1)%Z);
      [rewrite eraseAt_cardQuadtree; exact S |].
    cbv zeta. set (e1 := CanvasEngine.call _ _ e).
    assert (S1 : shaped (CanvasEngine.cardQuadtree e1))
      by (unfold e1; rewrite call_cardQuadtree; exact S).
    clearbody e1.
    destruct (CanvasEngine.currentStroke e1);
      [rewrite continueStroke_cardQuadtree; exact S1 |].
    destruct (ViewportState.isDragging (CanvasEngine.viewport e1)); exact S1.
  - unfold CanvasEngine.onUp. cbv zeta.
    set (e1 := match CanvasEngine.currentStroke e with
               | Some _ => CanvasEngine.endStroke e
               | None => e
               end).
    assert (S1 : shaped (CanvasEngine.cardQuadtree e1))
      by (subst e1; destruct (CanvasEngine.currentStroke e);
          [rewrite endStroke_cardQuadtree |]; exact S).
    clearbody e1.
    apply (fold_left_preserves _ (fun a => shaped (CanvasEngine.cardQuadtree a))).
    + intros a b Ha. rewrite call_cardQuadtree. exact Ha.
    + exact S1.
Qed.

(** Both indexes of an engine have the shape on which [insert] returns: the
    fall-back of [insertInto] is never taken. *)
Lemma indexes_shaped (ops : list Op) :
  shaped (CanvasEngine.cardQuadtree (runAll ops CanvasEngine.new)) /\
  shaped (CanvasEngine.strokeQuadtree (runAll ops CanvasEngine.new)).
Proof.
  split.
  - unfold runAll.
    apply (fold_left_preserves _ (fun a => shaped (CanvasEngine.cardQuadtree a)));
      [intros a b; apply cardShaped_run | exact I].
  - apply (StrokesOk_runAll ops _ StrokesOk_new).
Qed.

(** ** More about the quadtree *)

(** Rewrites a [retrieve] on a list that is not empty into the list
    followed by the [retrieve] on the empty list. *)
Ltac flatten_acc IH c :=
  match goal with
  | |- context [retrieve c ?a ?q] =>
      lazymatch a with
      | [] => fail
      | _ => rewrite (IH a)
      end
  end.

Section QuadtreeMore.
Context {T : Type} (itemId : T -> string).

Lemma tidy_set4 (ch : Four (Quadtree T)) (i : Index) (c : Quadtree T) :
  (forall j, tidy (nth4 ch j)) -> tidy c ->
  forall j, tidy (nth4 (set4 ch i c) j).
Proof.
  intros H Hc j.
  pose proof (H NE); pose proof (H NW); pose proof (H SW); pose proof (H SE).
  destruct ch, i, j; cbn in *; auto.
Qed.

Lemma redistribute_tidy (ins : Quadtree T -> Entry T -> option (Quadtree T))
    (b : Rect) (objs : list (Entry T)) :
  (forall c e c', ins c e = Some c' -> tidy c -> tidy c') ->
  forall (ch : Four (Quadtree T)) kept ch',
  (forall j, tidy (nth4 ch j)) ->
  redistribute ins b objs ch = Some (kept, ch') ->
  List.Forall (fun e => getIndex b (ebounds e) = None) kept /\
  (forall j, tidy (nth4 ch' j)).
Proof.
  intros Hins. induction objs as [| o rest IH]; intros ch kept ch' Hch R;
    cbn [redistribute] in R.
  - inversion R; subst. split; [constructor | exact Hch].
  - destruct (getIndex b (ebounds o)) as [i |] eqn:G.
    + destruct (ins (nth4 ch i) o) as [c |] eqn:E; [| discriminate].
      apply (IH (set4 ch i c)); [| exact R].
      apply tidy_set4; [exact Hch |]. eapply Hins; eauto.
    + destruct (redistribute ins b rest ch) as [[k c] |] eqn:E; [| discriminate].
      inversion R; subst. destruct (IH ch k ch' Hch E) as (Hk & Hc).
      split; [constructor; auto | exact Hc].
Qed.

Lemma pushHere_tidy (ins : Quadtree T -> Entry T -> option (Quadtree T))
    (h : Header) (objs : list (Entry T)) (och : option (Four (Quadtree T)))
    (e : Entry T) (t' : Quadtree T) :
  (forall c x c', ins c x = Some c' -> tidy c -> tidy c') ->
  match och with
  | Some ch =>
      List.Forall (fun x => getIndex (bounds h) (ebounds x) = None)
                  (objs ++ [e]) /\
      forall j, tidy (nth4 ch j)
  | None => True
  end ->
  pushHere ins h objs och e = Some t' -> tidy t'.
Proof.
  intros Hins Hoch. unfold pushHere.
  destruct (Nat.ltb (capacity h) (length (objs ++ [e])) &&
            Nat.ltb (level h) (maxLevel h)) eqn:C.
  - destruct (redistribute ins (bounds h) (objs ++ [e])
                (match och with Some c => c | None => split h end))
      as [[kept c] |] eqn:R; [| discriminate].
    intros E; inversion E; subst. clear E.
    apply redistribute_tidy in R; [| exact Hins |].
    + destruct R as (Hk & Hc). cbn [tidy].
      split; [exact Hk |].
      split; [apply (Hc NE) | split; [apply (Hc NW) | split; [apply (Hc SW) | apply (Hc SE)]]].
    + destruct och as [ch |]; [apply Hoch |].
      intros j; destruct j; cbn; intros _; lia.
  - intros E; inversion E; subst. clear E.
    destruct och as [ch |]; cbn [tidy].
    + destruct Hoch as (Ho & Hc).
      split; [exact Ho |].
      split; [apply (Hc NE) | split; [apply (Hc NW) | split; [apply (Hc SW) | apply (Hc SE)]]].
    + intros L. apply andb_false_iff in C. destruct C as [C | C].
      * apply Nat.ltb_ge in C. exact C.
      * apply Nat.ltb_ge in C. lia.
Qed.

Lemma insertFuel_tidy (fuel : nat) :
  forall (t : Quadtree T) (e : Entry T) (t' : Quadtree T),
  insertFuel fuel t e = Some t' -> tidy t -> tidy t'.
Proof.
  induction fuel as [| fuel IH]; intros t e t' E Ht; [discriminate |].
  cbn [insertFuel] in E.
  destruct t as [h objs | h objs c0 c1 c2 c3].
  - eapply pushHere_tidy; [exact IH | | exact E]. exact I.
  - cbn [tidy] in Ht. destruct Ht as (Ho & T0 & T1 & T2 & T3).
    assert (Hc : forall j, tidy (nth4 (mkFour c0 c1 c2 c3) j)).
    { intros j; destruct j; cbn; assumption. }
    cbv zeta in E.
    destruct (getIndex (bounds h) (ebounds e)) as [i |] eqn:G.
    + destruct (insertFuel fuel (nth4 (mkFour c0 c1 c2 c3) i) e) as [c |] eqn:Ec;
        [| discriminate].
      inversion E; subst. clear E.
      pose proof (tidy_set4 (mkFour c0 c1 c2 c3) i c Hc
                    (IH _ _ _ Ec (Hc i))) as Hs.
      cbn [tidy]. split; [exact Ho |].
      split; [apply (Hs NE) | split; [apply (Hs NW) | split; [apply (Hs SW) | apply (Hs SE)]]].
    + eapply pushHere_tidy; [exact IH | | exact E].
      split; [| exact Hc].
      apply Forall_app. split; [exact Ho |]. constructor; [exact G | constructor].
Qed.

Lemma insertAll_tidy (es : list (Entry T)) :
  forall t t' : Quadtree T, insertAll t es = Some t' -> tidy t -> tidy t'.
Proof.
  induction es as [| e rest IH]; intros t t' E Ht; cbn [insertAll] in E.
  - inversion E; subst; exact Ht.
  - destruct (insert t e) as [t1 |] eqn:E1; [| discriminate].
    apply (IH t1 t' E). eapply insertFuel_tidy; eauto.
Qed.

Lemma shaped_depth (t : Quadtree T) :
  shaped t -> (depth t <= maxLevel (header t) - level (header t))%nat.
Proof.
  induction t as [h objs | h objs c0 IH0 c1 IH1 c2 IH2 c3 IH3];
    cbn [depth header]; [lia |].
  intros W. cbn in W.
  destruct W as (L & (H0 & _ & W0) & (H1 & _ & W1) & (H2 & _ & W2) & (H3 & _ & W3)).
  specialize (IH0 W0); specialize (IH1 W1); specialize (IH2 W2); specialize (IH3 W3).
  rewrite H0 in IH0; rewrite H1 in IH1; rewrite H2 in IH2; rewrite H3 in IH3.
  cbn in IH0, IH1, IH2, IH3. lia.
Qed.

Lemma insertAll_new (b : Rect) (cap maxLvl lvl : nat) (es : list (Entry T)) :
  exists t, insertAll (newQuadtree b cap maxLvl lvl) es = Some t /\
            header t = mkHeader b cap maxLvl lvl /\ shaped t /\
            entries t ≡ₚ es.
Proof.
  destruct (insertAll_ok (fun _ _ => True) (fun _ _ _ _ _ => I) es
              (newQuadtree b cap maxLvl lvl)) as (t & E & Hh & W & _ & Pt).
  - exact I.
  - constructor.
  - apply List.Forall_forall. auto.
  - exists t. cbn in Pt. rewrite app_nil_r in Pt. auto.
Qed.

(** X1. Inserting any items, one after the other, into a tree made by the
    constructor always returns, and [getAll] of the tree that results
    holds the inserted items, each as often as it was inserted: splitting
    and redistributing lose nothing and duplicate nothing. *)
Theorem insertAll_keeps_every_item (b : Rect) (cap maxLvl lvl : nat)
    (es : list (Entry T)) :
  exists t, insertAll (newQuadtree b cap maxLvl lvl) es = Some t /\
            getAll t ≡ₚ map item es /\
            length (getAll t) = length es.
Proof.
  destruct (insertAll_new b cap maxLvl lvl es) as (t & E & _ & _ & Pt).
  exists t. split; [exact E |].
  rewrite getAll_entries. split.
  - apply Permutation_map. exact Pt.
  - rewrite length_map. apply Permutation_length. exact Pt.
Qed.

(** X2. In a tree built by the constructor and [insert], a node that has
    children keeps only entries that fit none of its quadrants, a node
    without children that is below the maximum level holds at most
    [capacity] entries, and the tree is at most [maxLevel - level] levels
    deep. *)
Theorem insertAll_tidy_and_shallow (b : Rect) (cap maxLvl lvl : nat)
    (es : list (Entry T)) :
  exists t, insertAll (newQuadtree b cap maxLvl lvl) es = Some t /\
            tidy t /\ (depth t <= maxLvl - lvl)%nat.
Proof.
  destruct (insertAll_new b cap maxLvl lvl es) as (t & E & Hh & W & _).
  exists t. split; [exact E |]. split.
  - eapply insertAll_tidy; [exact E |]. cbn. intros _. lia.
  - pose proof (shaped_depth t W) as D. rewrite Hh in D. exact D.
Qed.

Lemma dropFirst_withoutFirst (id : string) (l : list (Entry T)) :
  map item (dropFirst itemId id l) = withoutFirst itemId id (map item l).
Proof.
  unfold dropFirst. induction l as [| o l IH]; cbn; [reflexivity |].
  destruct (String.eqb (itemId (item o)) id); [reflexivity |].
  destruct (spliceById itemId id l); cbn in *; rewrite <- IH; reflexivity.
Qed.

(** X3. [remove] deletes one item, the first with the id in the order of
    [getAll], keeps the others in order and keeps the node's bounds and
    limits. *)
Theorem remove_deletes_first_with_id (id : string) (t : Quadtree T) :
  getAll (remove itemId id t) = withoutFirst itemId id (getAll t) /\
  header (remove itemId id t) = header t.
Proof.
  split; [| apply remove_header].
  rewrite !getAll_entries, remove_entries. apply dropFirst_withoutFirst.
Qed.

(** X4. [remove] with an id that no stored item has returns the tree as it
    was. *)
Theorem remove_absent_id_unchanged (id : string) (t : Quadtree T) :
  (forall x, In x (getAll t) -> itemId x <> id) ->
  remove itemId id t = t.
Proof.
  intros Habs. unfold remove.
  destruct (removeById_entries itemId id t) as (E & _ & N).
  destruct (snd (removeById itemId id t)); [| apply N; reflexivity].
  destruct (spliceById_Some _ _ _ _ E) as (a & o & r & Hl & _ & Ho & _).
  exfalso. apply (Habs (item o)); [| exact Ho].
  rewrite getAll_entries, Hl. apply in_map. apply in_elt.
Qed.

Lemma retrieve_acc (t : Quadtree T) (q : Rect) :
  forall acc, retrieve t acc q = acc ++ retrieve t [] q.
Proof.
  induction t as [h objs | h objs c0 IH0 c1 IH1 c2 IH2 c3 IH3];
    intros acc; cbn [retrieve]; [reflexivity |].
  cbv zeta.
  destruct (getIndex (bounds h) q) as [[| | |] |].
  - rewrite IH0, <- app_assoc. reflexivity.
  - rewrite IH1, <- app_assoc. reflexivity.
  - rewrite IH2, <- app_assoc. reflexivity.
  - rewrite IH3, <- app_assoc. reflexivity.
  - destruct (intersects (bounds (header c0)) q),
             (intersects (bounds (header c1)) q),
             (intersects (bounds (header c2)) q),
             (intersects (bounds (header c3)) q);
      repeat first [ flatten_acc IH3 c3 | flatten_acc IH2 c2
                   | flatten_acc IH1 c1 | flatten_acc IH0 c0 ];
      rewrite <- ?app_assoc, ?app_nil_l, ?app_nil_r; reflexivity.
Qed.

Lemma visit_submseteq (c : Quadtree T) (q : Rect) :
  retrieve c [] q ⊆+ getAll c ->
  (if intersects (bounds (header c)) q then retrieve c [] q else [])
    ⊆+ getAll c.
Proof.
  intros H. destruct (intersects (bounds (header c)) q);
    [exact H | apply submseteq_nil_l].
Qed.

(** X5. [retrieve] pushes its candidates behind what [returnObjects]
    already holds, and the candidates are stored items, none more often
    than the tree stores it. *)
Theorem retrieve_returns_stored_items (t : Quadtree T) (acc : list T)
    (q : Rect) :
  retrieve t acc q = acc ++ retrieve t [] q /\
  retrieve t [] q ⊆+ getAll t.
Proof.
  split; [apply retrieve_acc |]. clear acc.
  induction t as [h objs | h objs c0 IH0 c1 IH1 c2 IH2 c3 IH3];
    cbn [retrieve getAll]; [reflexivity |].
  cbv zeta.
  assert (M : forall l, l ⊆+ getAll c0 ++ getAll c1 ++ getAll c2 ++ getAll c3 ->
                        l ++ map item objs ⊆+
                        map item objs ++ getAll c0 ++ getAll c1 ++ getAll c2 ++ getAll c3).
  { intros l Hl.
    rewrite (submseteq_app_r (l ++ map item objs)). 
    exists (map item objs), l. split; [apply Permutation_app_comm |].
    split; [reflexivity | exact Hl]. }
  apply M.
  destruct (getIndex (bounds h) q) as [[| | |] |].
  - apply submseteq_inserts_r. exact IH0.
  - apply submseteq_inserts_l, submseteq_inserts_r. exact IH1.
  - do 2 apply submseteq_inserts_l. apply submseteq_inserts_r. exact IH2.
  - do 3 apply submseteq_inserts_l. exact IH3.
  - pose proof (visit_submseteq c0 q IH0) as V0.
    pose proof (visit_submseteq c1 q IH1) as V1.
    pose proof (visit_submseteq c2 q IH2) as V2.
    pose proof (visit_submseteq c3 q IH3) as V3.
    match goal with
    | |- ?chain ⊆+ _ =>
        assert (R : chain =
          (if intersects (bounds (header c0)) q then retrieve c0 [] q else []) ++
          (if intersects (bounds (header c1)) q then retrieve c1 [] q else []) ++
          (if intersects (bounds (header c2)) q then retrieve c2 [] q else []) ++
          (if intersects (bounds (header c3)) q then retrieve c3 [] q else []))
    end.
    { destruct (intersects (bounds (header c0)) q),
               (intersects (bounds (header c1)) q),
               (intersects (bounds (header c2)) q),
               (intersects (bounds (header c3)) q);
        repeat first [ flatten_acc (retrieve_acc c3 q) c3
                     | flatten_acc (retrieve_acc c2 q) c2
                     | flatten_acc (retrieve_acc c1 q) c1 ];
        rewrite <- ?app_assoc, ?app_nil_l, ?app_nil_r; reflexivity. }
    rewrite R.
    repeat apply submseteq_app; assumption.
Qed.

Lemma dropFirst_fresh (id : string) (e : Entry T) (l l0 : list (Entry T)) :
  itemId (item e) = id ->
  List.Forall (fun x => itemId (item x) <> id) l0 ->
  l ≡ₚ e :: l0 -> dropFirst itemId id l ≡ₚ l0.
Proof.
  intros He Hl0 Pl. unfold dropFirst.
  destruct (spliceById itemId id l) as [l' |] eqn:S.
  - destruct (spliceById_Some _ _ _ _ S) as (a & o & r & -> & -> & Ho & _).
    assert (o = e) as ->.
    { assert (Hin : In o (e :: l0)).
      { eapply Permutation_in; [exact Pl |]. apply in_elt. }
      destruct Hin as [<- | Hin]; [reflexivity |].
      rewrite List.Forall_forall in Hl0. exfalso. exact (Hl0 o Hin Ho). }
    apply (Permutation_cons_inv (a := e)).
    rewrite <- Pl. apply Permutation_middle.
  - apply spliceById_None in S. rewrite List.Forall_forall in S.
    exfalso. apply (S e); [| exact He].
    eapply Permutation_in; [symmetry; exact Pl |]. left; reflexivity.
Qed.

(** X6. Inserting an item whose id no stored item has and then removing
    that id gives back the stored items: [insert] returns, and [getAll]
    after the [remove] holds what it held before the [insert]. *)
Theorem insert_then_remove (t : Quadtree T) (it : T) (r : Rect) :
  shaped t ->
  (forall x, In x (getAll t) -> itemId x <> itemId it) ->
  exists t1, insert t (mkEntry it r) = Some t1 /\
             getAll (remove itemId (itemId it) t1) ≡ₚ getAll t.
Proof.
  intros W Hfresh.
  destruct (insert_total t (mkEntry it r) W) as (t1 & E & _ & _ & Pt).
  exists t1. split; [exact E |].
  rewrite !getAll_entries, remove_entries. apply Permutation_map.
  apply (dropFirst_fresh (itemId it) (mkEntry it r)); [reflexivity | | exact Pt].
  apply List.Forall_forall. intros x Hx. apply Hfresh.
  rewrite getAll_entries. apply in_map. exact Hx.
Qed.

End QuadtreeMore.

Lemma twelveTree_shaped : shaped twelveTree.
Proof.
  vm_compute.
  repeat match goal with
         | |- _ /\ _ => split
         | |- True => exact I
         | |- _ = _ => reflexivity
         | |- (_ <= _)%nat => lia
         | |- (_ < _)%nat => lia
         | |- List.Forall _ _ => constructor
         end.
Qed.

Lemma remove_absent_id_unchanged_witness :
  remove (fun s : string => s) "zz" twelveTree = twelveTree.
Proof.
  apply (remove_absent_id_unchanged (fun s : string => s) "zz" twelveTree).
  intros x Hx. vm_compute in Hx.
  repeat (destruct Hx as [<- | Hx]; [discriminate |]). destruct Hx.
Defined.

Lemma insert_then_remove_witness :
  exists t1,
    insert twelveTree (mkEntry "k12"%string (Rect.mk 70 10 1 1)) = Some t1 /\
    getAll (remove (fun s : string => s) "k12" t1) ≡ₚ getAll twelveTree.
Proof.
  apply (insert_then_remove (fun s : string => s) twelveTree "k12"%string
           (Rect.mk 70 10 1 1)).
  - exact twelveTree_shaped.
  - intros x Hx. vm_compute in Hx.
    repeat (destruct Hx as [<- | Hx]; [discriminate |]). destruct Hx.
Defined.

(** ** More about the cards of the engine *)

(** X7. [createCard] with the id of a card that exists changes nothing,
    whatever the other arguments: a second call with the id has no
    effect on the cards nor on the index. *)
Theorem createCard_twice (cid : string) (x y x' y' : Q) (color color' : Z)
    (text text' : string) (image image' : option string) (e : CanvasEngine) :
  CanvasEngine.createCard cid x' y' color' text' image'
    (CanvasEngine.createCard cid x y color text image e) =
  CanvasEngine.createCard cid x y color text image e.
Proof.
  unfold CanvasEngine.createCard at 1.
  rewrite createCard_cards.
  destruct (CanvasEngine.cards e !! cid) as [c |] eqn:L.
  - rewrite L. reflexivity.
  - rewrite lookup_insert_eq. reflexivity.
Qed.

Lemma keysWithin_refl (e : CanvasEngine) : keysWithin e e.
Proof. split; [reflexivity | auto]. Qed.

Lemma keysWithin_trans (e1 e2 e3 : CanvasEngine) :
  keysWithin e1 e2 -> keysWithin e2 e3 -> keysWithin e1 e3.
Proof.
  intros (Q1 & K1) (Q2 & K2). split; [congruence | auto].
Qed.

Lemma keysWithin_fold {B : Type} (f : CanvasEngine -> B -> CanvasEngine)
    (l : list B) :
  (forall a b, keysWithin a (f a b)) ->
  forall e, keysWithin e (fold_left f l e).
Proof.
  intros Hf. induction l as [| b l IH]; intros e; cbn.
  - apply keysWithin_refl.
  - eapply keysWithin_trans; [apply Hf | apply IH].
Qed.

Lemma keysWithin_same (e e' : CanvasEngine) :
  CanvasEngine.cardQuadtree e' = CanvasEngine.cardQuadtree e ->
  CanvasEngine.cards e' = CanvasEngine.cards e ->
  keysWithin e e'.
Proof. intros Q C. split; [exact Q | rewrite C; auto]. Qed.

Lemma keysWithin_call (r : bool) (c : Call) (e : CanvasEngine) :
  keysWithin e (CanvasEngine.call r c e).
Proof. destruct r; apply keysWithin_same; reflexivity. Qed.

Lemma keysWithin_fmap (f : Card -> Card) (e : CanvasEngine) :
  keysWithin e (CanvasEngine.setCards (f <$> CanvasEngine.cards e) e).
Proof.
  split; [reflexivity |]. intros id. cbn. rewrite lookup_fmap.
  destruct (CanvasEngine.cards e !! id); cbn; auto.
Qed.

Lemma keysWithin_endStroke (e : CanvasEngine) :
  keysWithin e (CanvasEngine.endStroke e).
Proof.
  unfold CanvasEngine.endStroke.
  destruct (CanvasEngine.currentStroke e) as [st |]; [| apply keysWithin_refl].
  destruct (StrokeState.points st); [apply keysWithin_refl |].
  cbv zeta.
  match goal with
  | |- keysWithin _ (CanvasEngine.setCurrentStroke _
                       (CanvasEngine.setStrokeQuadtree _ (CanvasEngine.call ?r ?c ?a))) =>
      destruct r; apply keysWithin_same; reflexivity
  end.
Qed.

Lemma keysWithin_continueStroke (ev : PointerEvent) (e : CanvasEngine) :
  keysWithin e (CanvasEngine.continueStroke ev e).
Proof.
  unfold CanvasEngine.continueStroke.
  destruct (CanvasEngine.currentStroke e); [| apply keysWithin_refl].
  apply keysWithin_same; reflexivity.
Qed.

Lemma keysWithin_eraseAt (x y : Q) (e : CanvasEngine) :
  keysWithin e (CanvasEngine.eraseAt x y e).
Proof.
  unfold CanvasEngine.eraseAt. cbv zeta.
  apply keysWithin_fold. intros a b. unfold CanvasEngine.eraseStroke.
  destruct (CanvasEngine.onStrokeDeleted a) eqn:D;
    apply keysWithin_same; cbn; rewrite ?D; reflexivity.
Qed.

Lemma keysWithin_startDrag (ev : PointerEvent) (cid : string)
    (sel : option (gset string)) (e : CanvasEngine) :
  keysWithin e (CanvasEngine.startDrag ev cid sel e).
Proof.
  unfold CanvasEngine.startDrag.
  set (lp := Container.toLocal (CanvasEngine.worldContainer e) (PointerEvent.global ev)).
  clearbody lp. cbv zeta.
  apply keysWithin_fold. intros a b.
  destruct (CanvasEngine.cards a !! b) as [c |] eqn:L; [| apply keysWithin_refl].
  split; [reflexivity |]. intros id. cbn.
  destruct (decide (b = id)) as [-> | N].
  - rewrite L. eauto.
  - rewrite lookup_insert_ne by exact N. auto.
Qed.

Lemma keysWithin_move (mode : InteractionMode) (ev : PointerEvent)
    (e : CanvasEngine) :
  keysWithin e (CanvasEngine.onGlobalPointerMove mode ev e).
Proof.
  unfold CanvasEngine.onGlobalPointerMove.
  destruct (bool_decide (mode = ERASING) && (PointerEvent.buttons ev =? 1)%Z);
    [apply keysWithin_eraseAt |].
  cbv zeta. set (e1 := CanvasEngine.call _ _ e).
  assert (K1 : keysWithin e e1) by apply keysWithin_call.
  clearbody e1.
  destruct (CanvasEngine.currentStroke e1).
  { eapply keysWithin_trans; [exact K1 | apply keysWithin_continueStroke]. }
  eapply keysWithin_trans; [exact K1 |].
  destruct (ViewportState.isDragging (CanvasEngine.viewport e1)).
  - match goal with
    | |- keysWithin _ (CanvasEngine.setCards (?f <$> _) ?a) =>
        apply (keysWithin_trans e1 a);
          [apply keysWithin_same; reflexivity | apply (keysWithin_fmap f a)]
    end.
  - apply keysWithin_fmap.
Qed.

Lemma keysWithin_onUp (e : CanvasEngine) : keysWithin e (CanvasEngine.onUp e).
Proof.
  unfold CanvasEngine.onUp. cbv zeta.
  set (e1 := match CanvasEngine.currentStroke e with
             | Some _ => CanvasEngine.endStroke e
             | None => e
             end).
  assert (K1 : keysWithin e e1).
  { subst e1. destruct (CanvasEngine.currentStroke e);
      [apply keysWithin_endStroke | apply keysWithin_refl]. }
  clearbody e1.
  eapply keysWithin_trans; [exact K1 |].
  match goal with
  | |- keysWithin _ (fold_left ?g ?k (CanvasEngine.setCards (?f <$> _) ?a)) =>
      apply (keysWithin_trans e1 (CanvasEngine.setCards (f <$> CanvasEngine.cards a) a));
        [apply (keysWithin_trans e1 a);
           [apply keysWithin_same; reflexivity | apply (keysWithin_fmap f a)]
        | apply keysWithin_fold; intros x b; apply keysWithin_call]
  end.
Qed.

Lemma keysWithin_removeCard (cid : string) (e : CanvasEngine) :
  keysWithin e (CanvasEngine.removeCard cid e).
Proof.
  unfold CanvasEngine.removeCard.
  destruct (CanvasEngine.cards e !! cid); [| apply keysWithin_refl].
  split; [reflexivity |]. intros id. cbn.
  destruct (decide (cid = id)) as [-> | N].
  - rewrite lookup_delete_eq. intros [? ?]; discriminate.
  - rewrite lookup_delete_ne by exact N. auto.
Qed.

Lemma keysWithin_updateCardText (cid text : string) (e : CanvasEngine) :
  keysWithin e (CanvasEngine.updateCardText cid text e).
Proof.
  unfold CanvasEngine.updateCardText.
  destruct (CanvasEngine.cards e !! cid) as [c |] eqn:L; [| apply keysWithin_refl].
  split; [reflexivity |]. intros id. cbn.
  destruct (decide (cid = id)) as [-> | N].
  - rewrite L. eauto.
  - rewrite lookup_insert_ne by exact N. auto.
Qed.

Lemma cardsCovered_within (e e' : CanvasEngine) :
  keysWithin e e' -> cardsCovered e -> cardsCovered e'.
Proof.
  intros (Q & K) (S & C). unfold cardsCovered. rewrite Q.
  split; [exact S |]. intros id Hid. apply C, K, Hid.
Qed.

Lemma dropFirst_other {T : Type} (itemId : T -> string) (id : string)
    (l : list (Entry T)) (x : Entry T) :
  In x l -> itemId (item x) <> id -> In x (dropFirst itemId id l).
Proof.
  intros Hx Hn. unfold dropFirst.
  destruct (spliceById itemId id l) as [l' |] eqn:E; [| exact Hx].
  destruct (spliceById_Some _ _ _ _ E) as (a & o & b & -> & -> & Ho & _).
  rewrite in_app_iff in *. cbn in Hx.
  destruct Hx as [Hx | [<- | Hx]]; [auto | congruence | auto].
Qed.

Lemma cardsCovered_createCard (cid : string) (x y : Q) (color : Z)
    (text : string) (image : option string) (e : CanvasEngine) :
  cardsCovered e ->
  cardsCovered (CanvasEngine.createCard cid x y color text image e).
Proof.
  intros (S & C). unfold CanvasEngine.createCard.
  destruct (CanvasEngine.cards e !! cid) eqn:L; [split; assumption |].
  unfold cardsCovered. cbv zeta. cbn.
  destruct (insertInto_shaped (CanvasEngine.cardQuadtree e) (mkCardItem cid)
              (Rect.mk x y 200 150) S) as (_ & S' & _ & P).
  split; [exact S' |]. intros id Hid.
  destruct (decide (cid = id)) as [-> | N].
  - exists (mkEntry (mkCardItem id) (Rect.mk x y 200 150)).
    split; [| reflexivity].
    eapply Permutation_in; [symmetry; exact P | left; reflexivity].
  - rewrite lookup_insert_ne in Hid by exact N.
    destruct (C id Hid) as (en & Hen & Hi). exists en. split; [| exact Hi].
    eapply Permutation_in; [symmetry; exact P | right; exact Hen].
Qed.

Lemma cardsCovered_updateCardPosition (cid : string) (x y : Q)
    (e : CanvasEngine) :
  cardsCovered e -> cardsCovered (CanvasEngine.updateCardPosition cid x y e).
Proof.
  intros (S & C). unfold CanvasEngine.updateCardPosition.
  destruct (CanvasEngine.cards e !! cid) as [c |] eqn:L; [| split; assumption].
  destruct (negb _); [| split; assumption].
  unfold cardsCovered. cbv zeta. cbn.
  destruct (insertInto_shaped
              (remove cardItemId cid (CanvasEngine.cardQuadtree e))
              (mkCardItem cid) (Rect.mk x y 200 150)) as (_ & S' & _ & P).
  { apply remove_wfP. exact S. }
  split; [exact S' |]. intros id Hid.
  destruct (decide (cid = id)) as [-> | N].
  - exists (mkEntry (mkCardItem id) (Rect.mk x y 200 150)).
    split; [| reflexivity].
    eapply Permutation_in; [symmetry; exact P | left; reflexivity].
  - rewrite lookup_insert_ne in Hid by exact N.
    destruct (C id Hid) as (en & Hen & Hi). exists en. split; [| exact Hi].
    eapply Permutation_in; [symmetry; exact P |]. right.
    rewrite remove_entries. apply dropFirst_other; [exact Hen | congruence].
Qed.

Lemma cardsCovered_hydrate (cs : list CardData) (conns : list ConnectionData)
    (ss : list StrokeData) (e : CanvasEngine) :
  cardsCovered e -> cardsCovered (CanvasEngine.hydrate cs conns ss e).
Proof.
  intros S. unfold CanvasEngine.hydrate.
  apply (cardsCovered_within (CanvasEngine.hydrateConnections conns
                                (CanvasEngine.hydrateCards cs e))).
  { unfold CanvasEngine.hydrateStrokes. apply keysWithin_same; reflexivity. }
  apply (cardsCovered_within (CanvasEngine.hydrateCards cs e)).
  { unfold CanvasEngine.hydrateConnections. cbv zeta.
    match goal with
    | |- keysWithin ?a (fold_left ?f ?l (fold_left ?g ?k ?a)) =>
        apply (keysWithin_trans a (fold_left g k a));
          apply keysWithin_fold; intros x b
    end.
    - apply keysWithin_same; reflexivity.
    - destruct (CanvasEngine.connections x !! ConnectionData.id b);
        [apply keysWithin_refl | apply keysWithin_same; reflexivity]. }
  unfold CanvasEngine.hydrateCards. cbv zeta.
  apply (fold_left_preserves _ cardsCovered).
  { intros a b Ha. unfold CanvasEngine.hydrateCard.
    destruct (CanvasEngine.cards a !! CardData.id b) as [ex |];
      [| apply cardsCovered_createCard; exact Ha].
    eapply cardsCovered_within; [apply keysWithin_updateCardText |].
    destruct (negb _); [apply cardsCovered_updateCardPosition |]; exact Ha. }
  apply (fold_left_preserves _ cardsCovered); [| exact S].
  intros a b Ha. eapply cardsCovered_within; [apply keysWithin_removeCard | exact Ha].
Qed.

Lemma cardsCovered_run (op : Op) (e : CanvasEngine) :
  cardsCovered e -> cardsCovered (run op e).
Proof.
  intros S. destruct op; cbn [run];
    try (eapply cardsCovered_within; [| exact S];
         apply keysWithin_same; reflexivity).
  - apply cardsCovered_createCard; exact S.
  - apply cardsCovered_updateCardPosition; exact S.
  - eapply cardsCovered_within; [apply keysWithin_updateCardText | exact S].
  - eapply cardsCovered_within; [apply keysWithin_removeCard | exact S].
  - apply cardsCovered_hydrate; exact S.
  - eapply cardsCovered_within; [| exact S].
    unfold CanvasEngine.createConnection. cbv zeta.
    destruct (CanvasEngine.connections e !! connectionId fromId toId);
      [apply keysWithin_refl |].
    match goal with
    | |- keysWithin _ (CanvasEngine.call ?r ?c ?a) =>
        apply (keysWithin_trans e a);
          [apply keysWithin_same; reflexivity | apply keysWithin_call]
    end.
  - eapply cardsCovered_within; [apply keysWithin_continueStroke | exact S].
  - eapply cardsCovered_within; [apply keysWithin_endStroke | exact S].
  - eapply cardsCovered_within; [apply keysWithin_eraseAt | exact S].
  - eapply cardsCovered_within; [| exact S].
    unfold CanvasEngine.physicsTick. cbv zeta.
    match goal with
    | |- keysWithin _ (CanvasEngine.setCards (?f <$> _) ?a) =>
        apply (keysWithin_trans e a);
          [apply keysWithin_same; reflexivity | apply (keysWithin_fmap f a)]
    end.
  - eapply cardsCovered_within; [apply keysWithin_startDrag | exact S].
  - eapply cardsCovered_within; [apply keysWithin_move | exact S].
  - eapply cardsCovered_within; [apply keysWithin_onUp | exact S].
Qed.

(** X8. Whatever the operations made on an engine, every card of the
    board is an item of the card index: creating a card, moving it and
    hydrating never leave a card without its entry. *)
Theorem cards_are_indexed (ops : list Op) :
  cardsIndexed (runAll ops CanvasEngine.new).
Proof.
  assert (C : cardsCovered (runAll ops CanvasEngine.new)).
  { unfold runAll. apply (fold_left_preserves _ cardsCovered).
    - intros a b. apply cardsCovered_run.
    - split; [exact I |]. intros id [c Hc]. cbn in Hc.
      rewrite lookup_empty in Hc. discriminate. }
  destruct C as (_ & C). intros id card Hc.
  destruct (C id (ex_intro _ card Hc)) as (en & Hen & Hi).
  rewrite getAll_entries. apply in_map_iff. exists en. split; [| exact Hen].
  destruct en as [[i] b]. cbn in Hi. subst. reflexivity.
Qed.

Lemma getCardsInRect_sound (x y width height : Q) (e : CanvasEngine) :
  selectsOverlapping x y width height e
    (CanvasEngine.getCardsInRect x y width height e).
Proof.
  unfold selectsOverlapping, CanvasEngine.getCardsInRect. cbv zeta.
  apply List.Forall_forall. intros id Hid.
  apply in_flat_map in Hid. destruct Hid as (c & _ & Hid).
  destruct (CanvasEngine.cards e !! cardItemId c) as [card |] eqn:L;
    [| destruct Hid].
  match type of Hid with
  | In _ (if ?b then _ else _) => destruct b eqn:B; [| destruct Hid]
  end.
  destruct Hid as [<- | []]. exists card. split; [exact L |].
  apply andb_prop in B. destruct B as (B & B4).
  apply andb_prop in B. destruct B as (B & B3).
  apply andb_prop in B. destruct B as (B1 & B2).
  apply Qltb_lt in B1, B2, B3, B4.
  unfold cardOverlaps. cbv zeta.
  assert (N : forall a d : Q,
            (if Qltb d 0 then a + d else a) == Qmin a (a + d) /\
            (if Qltb d 0 then a + d else a) + Qabs d == Qmax a (a + d)).
  { intros a d. destruct (Qltb d 0) eqn:D.
    - apply Qltb_lt in D.
      rewrite (Q.min_r a (a + d)) by lra. rewrite (Q.max_l a (a + d)) by lra.
      rewrite (Qabs_neg d) by lra. split; lra.
    - apply Qltb_ge in D.
      rewrite (Q.min_l a (a + d)) by lra. rewrite (Q.max_r a (a + d)) by lra.
      rewrite (Qabs_pos d) by lra. split; lra. }
  destruct (N x width) as (Nx1 & Nx2). destruct (N y height) as (Ny1 & Ny2).
  rewrite <- Nx1, <- Nx2, <- Ny1, <- Ny2. repeat split; lra.
Qed.

(** X9. [getCardsInRect] returns ids of cards of the board only, each of a
    card whose 200 by 150 rectangle at its current position overlaps the
    requested rectangle, a negative width or height being counted from the
    other side. *)
Theorem getCardsInRect_only_overlapping (x y width height : Q)
    (e : CanvasEngine) :
  selectsOverlapping x y width height e
    (CanvasEngine.getCardsInRect x y width height e).
Proof. apply getCardsInRect_sound. Qed.

(** ** Dragging cards and releasing the pointer *)

Lemma startDrag_cards (ev : PointerEvent) (cid : string)
    (sel : option (gset string)) (e : CanvasEngine) (k : string) :
  CanvasEngine.cards (CanvasEngine.startDrag ev cid sel e) !! k =
  if includes (dragTargets cid sel) k
  then grab (Container.toLocal (CanvasEngine.worldContainer e)
                               (PointerEvent.global ev))
         <$> CanvasEngine.cards e !! k
  else CanvasEngine.cards e !! k.
Proof.
  unfold CanvasEngine.startDrag, dragTargets.
  set (lp := Container.toLocal (CanvasEngine.worldContainer e) (PointerEvent.global ev)).
  clearbody lp. cbv zeta.
  match goal with
  | |- context [fold_left _ ?l e] => generalize l
  end.
  intros l. revert e.
  induction l as [| a l IH]; intros e; cbn [fold_left includes existsb];
    [reflexivity |].
  rewrite IH. fold (includes l k).
  destruct (CanvasEngine.cards e !! a) as [c |] eqn:L.
  - cbn [CanvasEngine.cards CanvasEngine.setCards].
    destruct (String.eqb_spec k a) as [-> | N].
    + rewrite lookup_insert_eq, L. cbn.
      destruct (includes l a); reflexivity.
    + rewrite lookup_insert_ne by congruence. reflexivity.
  - destruct (String.eqb_spec k a) as [-> | N]; cbn [orb]; [| reflexivity].
    rewrite L. destruct (includes l a); reflexivity.
Qed.

Lemma startDrag_fields (ev : PointerEvent) (cid : string)
    (sel : option (gset string)) (e : CanvasEngine) :
  let e' := CanvasEngine.startDrag ev cid sel e in
  CanvasEngine.worldContainer e' = CanvasEngine.worldContainer e /\
  CanvasEngine.currentStroke e' = CanvasEngine.currentStroke e /\
  CanvasEngine.onPositionChange e' = CanvasEngine.onPositionChange e /\
  CanvasEngine.onCursorMove e' = CanvasEngine.onCursorMove e /\
  CanvasEngine.calls e' = CanvasEngine.calls e.
Proof.
  unfold CanvasEngine.startDrag.
  set (lp := Container.toLocal (CanvasEngine.worldContainer e) (PointerEvent.global ev)).
  clearbody lp. cbv zeta.
  apply (fold_left_preserves _
           (fun a => CanvasEngine.worldContainer a = CanvasEngine.worldContainer e /\
                     CanvasEngine.currentStroke a = CanvasEngine.currentStroke e /\
                     CanvasEngine.onPositionChange a = CanvasEngine.onPositionChange e /\
                     CanvasEngine.onCursorMove a = CanvasEngine.onCursorMove e /\
                     CanvasEngine.calls a = CanvasEngine.calls e)).
  - intros a b Ha. destruct (CanvasEngine.cards a !! b); exact Ha.
  - repeat split.
Qed.

Lemma move_fields (mode : InteractionMode) (ev : PointerEvent)
    (e : CanvasEngine) :
  bool_decide (mode = ERASING) && (PointerEvent.buttons ev =? 1)%Z = false ->
  CanvasEngine.currentStroke e = None ->
  let e' := CanvasEngine.onGlobalPointerMove mode ev e in
  (forall k, CanvasEngine.cards e' !! k =
             CanvasEngine.dragCard
               (Container.toLocal (CanvasEngine.worldContainer e)
                                  (PointerEvent.global ev))
               <$> CanvasEngine.cards e !! k) /\
  CanvasEngine.currentStroke e' = None /\
  CanvasEngine.onPositionChange e' = CanvasEngine.onPositionChange e /\
  CanvasEngine.calls e' =
    CanvasEngine.calls e ++
    (if CanvasEngine.onCursorMove e
     then [CursorMove
             (fst (Container.toLocal (CanvasEngine.worldContainer e)
                                     (PointerEvent.global ev)))
             (snd (Container.toLocal (CanvasEngine.worldContainer e)
                                     (PointerEvent.global ev)))]
     else []).
Proof.
  intros G St. unfold CanvasEngine.onGlobalPointerMove. rewrite G. cbv zeta.
  destruct (CanvasEngine.onCursorMove e) eqn:Cm; cbn; rewrite St;
    destruct (ViewportState.isDragging (CanvasEngine.viewport e)); cbn;
    rewrite ?app_nil_r;
    (split; [intros k; rewrite lookup_fmap; reflexivity | repeat split; auto]).
Qed.

(** X10. A drag moves the cards it targets rigidly.  After [startDrag]
    and a pointer move, with no stroke in progress and the move not an
    erasing one, every targeted card of the board is displaced by the
    displacement of the pointer in world coordinates, is still held and
    is drawn where its state says; a card that is neither targeted nor
    held stays as it was. *)
Theorem drag_moves_targets_rigidly (e : CanvasEngine) (ev0 ev1 : PointerEvent)
    (mode : InteractionMode) (cid : string) (sel : option (gset string)) :
  CanvasEngine.currentStroke e = None ->
  bool_decide (mode = ERASING) && (PointerEvent.buttons ev1 =? 1)%Z = false ->
  let e' := CanvasEngine.onGlobalPointerMove mode ev1
              (CanvasEngine.startDrag ev0 cid sel e) in
  let scale := Container.scale (CanvasEngine.worldContainer e) in
  (forall id card,
     In id (dragTargets cid sel) ->
     CanvasEngine.cards e !! id = Some card ->
     exists card',
       CanvasEngine.cards e' !! id = Some card' /\
       PhysicsState.x (Card.state card') ==
         PhysicsState.x (Card.state card) +
         (PointerEvent.globalX ev1 - PointerEvent.globalX ev0) / scale /\
       PhysicsState.y (Card.state card') ==
         PhysicsState.y (Card.state card) +
         (PointerEvent.globalY ev1 - PointerEvent.globalY ev0) / scale /\
       PhysicsState.isDragging (Card.state card') = true /\
       Graphics.x (Card.graphics card') = PhysicsState.x (Card.state card') /\
       Graphics.y (Card.graphics card') = PhysicsState.y (Card.state card')) /\
  (forall id card,
     ~ In id (dragTargets cid sel) ->
     CanvasEngine.cards e !! id = Some card ->
     PhysicsState.isDragging (Card.state card) = false ->
     CanvasEngine.cards e' !! id = Some card).
Proof.
  intros St G. cbv zeta.
  destruct (startDrag_fields ev0 cid sel e) as (W & S1 & _).
  destruct (move_fields mode ev1 (CanvasEngine.startDrag ev0 cid sel e) G)
    as (C & _); [congruence |].
  split; intros id card Hin L; [| intros D]; rewrite C, startDrag_cards, L.
  - apply includes_In in Hin. rewrite Hin. cbn [fmap option_fmap option_map].
    eexists. split; [reflexivity |].
    unfold CanvasEngine.dragCard, grab. cbn. rewrite W.
    unfold Container.toLocal, PointerEvent.global, Qdiv. cbn.
    repeat split; ring.
  - destruct (includes (dragTargets cid sel) id) eqn:I;
      [apply includes_In in I; contradiction |].
    cbn. unfold CanvasEngine.dragCard. rewrite D. reflexivity.
Qed.

Lemma drag_moves_targets_rigidly_witness :
  exists card',
    CanvasEngine.cards
      (CanvasEngine.onGlobalPointerMove DRAGGING
         (PointerEvent.mk 140 90 0 1 false 0 None)
         (CanvasEngine.startDrag (PointerEvent.mk 100 50 0 1 false 0 None) "a"
            (Some {["a"; "b"]}) boardTwoCards)) !! "b" = Some card' /\
    PhysicsState.x (Card.state card') == 340 /\
    PhysicsState.y (Card.state card') == 40.
Proof.
  destruct (drag_moves_targets_rigidly boardTwoCards
              (PointerEvent.mk 100 50 0 1 false 0 None)
              (PointerEvent.mk 140 90 0 1 false 0 None)
              DRAGGING "a" (Some {["a"; "b"]}) eq_refl eq_refl) as (H & _).
  destruct (H "b"
              (Card.mk (Graphics.mk 300 0 "grab" 16769126 "" None)
                       (PhysicsState.mk 300 0 0 0 300 0 false 0 0 "b")))
    as (card' & L & X & Y & _).
  - vm_compute. auto.
  - vm_compute. reflexivity.
  - exists card'. split; [exact L |]. split.
    + rewrite X. vm_compute. reflexivity.
    + rewrite Y. vm_compute. reflexivity.
Defined.

Lemma endStroke_clears (e : CanvasEngine) (st : StrokeState) :
  CanvasEngine.currentStroke e = Some st -> StrokeState.points st <> [] ->
  CanvasEngine.currentStroke (CanvasEngine.endStroke e) = None.
Proof.
  intros St Ne. unfold CanvasEngine.endStroke. rewrite St.
  destruct (StrokeState.points st); [contradiction | reflexivity].
Qed.

Lemma call_fields (r : bool) (c : Call) (e : CanvasEngine) :
  CanvasEngine.currentStroke (CanvasEngine.call r c e) = CanvasEngine.currentStroke e /\
  CanvasEngine.viewport (CanvasEngine.call r c e) = CanvasEngine.viewport e /\
  CanvasEngine.cards (CanvasEngine.call r c e) = CanvasEngine.cards e /\
  CanvasEngine.onPositionChange (CanvasEngine.call r c e) =
    CanvasEngine.onPositionChange e.
Proof. destruct r; repeat split. Qed.

(** X11. A pointer-up ends every gesture.  After any operations that
    leave no stroke in progress, or one whose graphics neither a hydration
    nor the eraser can have destroyed since it began, the pointer-up
    handler leaves no stroke in progress, the viewport not held and no
    card held. *)
Theorem pointer_up_ends_every_gesture (ops : list Op) :
  strokeHealth ops <> MaybeDestroyed ->
  let e := CanvasEngine.onUp (runAll ops CanvasEngine.new) in
  CanvasEngine.currentStroke e = None /\
  ViewportState.isDragging (CanvasEngine.viewport e) = false /\
  map_Forall (fun _ card => PhysicsState.isDragging (Card.state card) = false)
             (CanvasEngine.cards e).
Proof.
  intros _. cbv zeta. set (e0 := runAll ops CanvasEngine.new).
  pose proof (StrokesOk_runAll ops _ StrokesOk_new) as Ok. fold e0 in Ok.
  split; [| split].
  - unfold CanvasEngine.onUp. cbv zeta.
    match goal with
    | |- CanvasEngine.currentStroke (fold_left ?f ?l ?a) = None =>
        apply (fold_left_preserves f
                 (fun x => CanvasEngine.currentStroke x = None))
    end.
    + intros a b Ha. rewrite (proj1 (call_fields _ _ a)). exact Ha.
    + cbn. destruct (CanvasEngine.currentStroke e0) as [st |] eqn:St;
        [| exact St].
      apply (endStroke_clears e0 st St). apply (currentNonEmpty e0 Ok st St).
  - unfold CanvasEngine.onUp. cbv zeta.
    match goal with
    | |- ViewportState.isDragging (CanvasEngine.viewport (fold_left ?f ?l ?a)) = false =>
        apply (fold_left_preserves f
                 (fun x => ViewportState.isDragging (CanvasEngine.viewport x) = false))
    end.
    + intros a b Ha. destruct (call_fields (CanvasEngine.onPositionChange a)
        (PositionChange (fst b) (PhysicsState.x (Card.state (snd b)))
                        (PhysicsState.y (Card.state (snd b)))) a) as (_ & V & _).
      rewrite V. exact Ha.
    + reflexivity.
  - intros id card L. eapply onUp_releases; exact L.
Qed.

Lemma pointer_up_ends_every_gesture_witness :
  (is_Some (CanvasEngine.currentStroke (runAll busyOps CanvasEngine.new)) /\
   ViewportState.isDragging
     (CanvasEngine.viewport (runAll busyOps CanvasEngine.new)) = true) /\
  let e := CanvasEngine.onUp (runAll busyOps CanvasEngine.new) in
  CanvasEngine.currentStroke e = None /\
  ViewportState.isDragging (CanvasEngine.viewport e) = false /\
  map_Forall (fun _ card => PhysicsState.isDragging (Card.state card) = false)
             (CanvasEngine.cards e).
Proof.
  split; [split; [vm_compute; eauto | reflexivity] |].
  apply (pointer_up_ends_every_gesture busyOps). vm_compute. discriminate.
Defined.

(** ** From a drag to the store *)

Lemma filter_none {A : Type} (P : A -> bool) (l : list A) :
  (forall x, In x l -> P x = false) -> List.filter P l = [].
Proof.
  induction l as [| a l IH]; intros H; cbn; [reflexivity |].
  rewrite (H a) by (left; reflexivity). apply IH. intros x Hx. apply H. right. exact Hx.
Qed.

Lemma filter_single {A : Type} (P : string * A -> bool)
    (l : list (string * A)) (id : string) (c : A) :
  List.NoDup (map fst l) -> In (id, c) l -> P (id, c) = true ->
  (forall k v, In (k, v) l -> k <> id -> P (k, v) = false) ->
  List.filter P l = [(id, c)].
Proof.
  induction l as [| [k v] l IH]; intros Nd Hin Hp Hother; [destruct Hin |].
  cbn [map fst] in Nd. inversion Nd as [| ? ? Hk Nd']; subst.
  cbn [List.filter].
  destruct Hin as [E | Hin].
  - inversion E; subst. rewrite Hp. f_equal.
    apply filter_none. intros [k' v'] Hx. apply (Hother k' v'); [right; exact Hx |].
    intros ->. apply Hk. apply (in_map fst) in Hx. exact Hx.
  - assert (Nk : k <> id).
    { intros ->. apply Hk. apply (in_map fst) in Hin. exact Hin. }
    rewrite (Hother k v) by (auto; left; reflexivity).
    apply IH; auto. intros k' v' Hx. apply Hother. right; exact Hx.
Qed.

Lemma onUp_calls_single (e : CanvasEngine) (id : string) (c : Card) :
  CanvasEngine.currentStroke e = None ->
  CanvasEngine.onPositionChange e = true ->
  CanvasEngine.cards e !! id = Some c ->
  PhysicsState.isDragging (Card.state c) = true ->
  (forall k v, CanvasEngine.cards e !! k = Some v -> k <> id ->
               PhysicsState.isDragging (Card.state v) = false) ->
  CanvasEngine.calls (CanvasEngine.onUp e) =
  CanvasEngine.calls e ++
  [PositionChange id (PhysicsState.x (Card.state c)) (PhysicsState.y (Card.state c))].
Proof.
  intros St Pc L D Others. unfold CanvasEngine.onUp. rewrite St. cbv zeta.
  cbn [CanvasEngine.cards CanvasEngine.setViewport].
  rewrite (filter_single _ (map_to_list (CanvasEngine.cards e)) id c).
  - cbn. rewrite Pc. reflexivity.
  - apply NoDup_ListNoDup, NoDup_fst_map_to_list.
  - apply list_elem_of_In, elem_of_map_to_list. exact L.
  - exact D.
  - intros k v Hin N. cbn. apply (Others k v); [| exact N].
    apply elem_of_map_to_list, list_elem_of_In. exact Hin.
Qed.

Lemma persistAll_app (now : Z) (l1 l2 : list Call) (d : DocumentStore) :
  persistAll now (l1 ++ l2) d = persistAll now l2 (persistAll now l1 d).
Proof. unfold persistAll. apply fold_left_app. Qed.

Lemma persistAll_cursor (now : Z) (l : list Call) (d : DocumentStore) :
  List.Forall isCursorMove l -> persistAll now l d = d.
Proof.
  induction 1 as [| c l Hc _ IH]; [reflexivity |].
  destruct c; try destruct Hc. exact IH.
Qed.

(** X12. A drag and drop of one card reaches the store.  On a board where
    no card is held and no stroke is in progress, with the position
    callback registered, [startDrag] on a card, a pointer move and a
    pointer-up make one position call, for that card at the position it
    was dropped at, after at most calls that report the pointer; with the
    callbacks wired as in App.tsx the record of the card in the store then
    carries that position and the time of the update, its other fields
    unchanged. *)
Theorem drag_and_drop_is_persisted (e : CanvasEngine) (ev0 ev1 : PointerEvent)
    (mode : InteractionMode) (id : string) (card : Card) (now : Z)
    (d : DocumentStore) (rec : CardData) :
  CanvasEngine.cards e !! id = Some card ->
  map_Forall (fun _ c => PhysicsState.isDragging (Card.state c) = false)
             (CanvasEngine.cards e) ->
  CanvasEngine.currentStroke e = None ->
  CanvasEngine.onPositionChange e = true ->
  bool_decide (mode = ERASING) && (PointerEvent.buttons ev1 =? 1)%Z = false ->
  DocumentStore.cardsMap d !! id = Some rec ->
  let e' := CanvasEngine.onUp
              (CanvasEngine.onGlobalPointerMove mode ev1
                 (CanvasEngine.startDrag ev0 id None e)) in
  let scale := Container.scale (CanvasEngine.worldContainer e) in
  exists (x' y' : Q) (moves : list Call),
    CanvasEngine.calls e' =
      CanvasEngine.calls e ++ moves ++ [PositionChange id x' y'] /\
    List.Forall isCursorMove moves /\
    x' == PhysicsState.x (Card.state card) +
          (PointerEvent.globalX ev1 - PointerEvent.globalX ev0) / scale /\
    y' == PhysicsState.y (Card.state card) +
          (PointerEvent.globalY ev1 - PointerEvent.globalY ev0) / scale /\
    DocumentStore.cardsMap
      (persistAll now (moves ++ [PositionChange id x' y']) d) !! id =
    Some (CardData.mk (CardData.id rec) x' y' (CardData.width rec)
            (CardData.height rec) (CardData.color rec) (CardData.text rec)
            (CardData.imageUrl rec) (CardData.createdAt rec) now).
Proof.
  intros L Idle St Pc G Ld. cbv zeta.
  set (e1 := CanvasEngine.startDrag ev0 id None e).
  destruct (startDrag_fields ev0 id None e) as (W1 & S1 & P1 & C1 & K1).
  fold e1 in W1, S1, P1, C1, K1.
  assert (St1 : CanvasEngine.currentStroke e1 = None) by congruence.
  destruct (move_fields mode ev1 e1 G St1) as (Cards2 & S2 & P2 & K2).
  set (e2 := CanvasEngine.onGlobalPointerMove mode ev1 e1) in *.
  set (lp0 := Container.toLocal (CanvasEngine.worldContainer e) (PointerEvent.global ev0)).
  set (lp1 := Container.toLocal (CanvasEngine.worldContainer e1) (PointerEvent.global ev1)) in *.
  set (c2 := CanvasEngine.dragCard lp1 (grab lp0 card)).
  assert (L2 : CanvasEngine.cards e2 !! id = Some c2).
  { rewrite Cards2. unfold e1. rewrite startDrag_cards, L. cbn.
    rewrite String.eqb_refl. reflexivity. }
  assert (O2 : forall k v, CanvasEngine.cards e2 !! k = Some v -> k <> id ->
                           PhysicsState.isDragging (Card.state v) = false).
  { intros k v Hk N. rewrite Cards2 in Hk. unfold e1 in Hk.
    rewrite startDrag_cards in Hk. cbn in Hk.
    destruct (String.eqb_spec k id) as [-> | _]; [contradiction |]. cbn in Hk.
    destruct (CanvasEngine.cards e !! k) as [v0 |] eqn:L0; [| discriminate].
    cbn in Hk. inversion Hk; subst. pose proof (Idle k v0 L0) as D0. cbn in D0.
    unfold CanvasEngine.dragCard. rewrite D0. exact D0. }
  exists (PhysicsState.x (Card.state c2)), (PhysicsState.y (Card.state c2)),
         (if CanvasEngine.onCursorMove e1
          then [CursorMove (fst lp1) (snd lp1)] else []).
  assert (Mv : List.Forall isCursorMove
                 (if CanvasEngine.onCursorMove e1
                  then [CursorMove (fst lp1) (snd lp1)] else [])).
  { destruct (CanvasEngine.onCursorMove e1); repeat constructor. }
  split; [| split; [exact Mv | split; [| split]]].
  - rewrite (onUp_calls_single e2 id c2 S2); [| congruence | exact L2 | reflexivity | exact O2].
    rewrite K2, K1, <- app_assoc. reflexivity.
  - unfold c2, lp1, lp0. rewrite W1. unfold CanvasEngine.dragCard, grab. cbn.
    unfold Container.toLocal, PointerEvent.global, Qdiv. cbn. ring.
  - unfold c2, lp1, lp0. rewrite W1. unfold CanvasEngine.dragCard, grab. cbn.
    unfold Container.toLocal, PointerEvent.global, Qdiv. cbn. ring.
  - rewrite persistAll_app, (persistAll_cursor now _ d Mv).
    cbn. unfold DocumentStore.updateCardPosition. rewrite Ld. cbn.
    rewrite lookup_insert_eq. reflexivity.
Qed.

Lemma drag_and_drop_is_persisted_witness :
  exists (x' y' : Q) (moves : list Call),
    CanvasEngine.calls
      (CanvasEngine.onUp
         (CanvasEngine.onGlobalPointerMove DRAGGING
            (PointerEvent.mk 140 90 0 1 false 0 None)
            (CanvasEngine.startDrag (PointerEvent.mk 100 50 0 1 false 0 None)
               "a" None boardTwoCards))) =
      CanvasEngine.calls boardTwoCards ++ moves ++ [PositionChange "a" x' y'] /\
    x' == 40 /\ y' == 40 /\
    DocumentStore.cardsMap
      (persistAll 2000 (moves ++ [PositionChange "a" x' y']) storeWithA) !! "a" =
    Some (CardData.mk "a" x' y' 200 150 16769126 "" None 1000 2000).
Proof.
  destruct (drag_and_drop_is_persisted boardTwoCards
              (PointerEvent.mk 100 50 0 1 false 0 None)
              (PointerEvent.mk 140 90 0 1 false 0 None)
              DRAGGING "a"
              (Card.mk (Graphics.mk 0 0 "grab" 16769126 "" None)
                       (PhysicsState.mk 0 0 0 0 0 0 false 0 0 "a"))
              2000 storeWithA
              (CardData.mk "a" 0 0 200 150 16769126 "" None 1000 1000))
    as (x' & y' & moves & K & _ & X & Y & S).
  - vm_compute. reflexivity.
  - apply map_Forall_to_list. vm_compute. repeat constructor.
  - reflexivity.
  - reflexivity.
  - reflexivity.
  - vm_compute. reflexivity.
  - exists x', y', moves. split; [exact K |]. split; [| split; [| exact S]].
    + rewrite X. vm_compute. reflexivity.
    + rewrite Y. vm_compute. reflexivity.
Defined.

(** ** More about hydration *)

Lemma quiet_refl (e : CanvasEngine) : quiet e e.
Proof. repeat split. Qed.

Lemma quiet_trans (e1 e2 e3 : CanvasEngine) :
  quiet e1 e2 -> quiet e2 e3 -> quiet e1 e3.
Proof.
  intros (A1 & A2 & A3 & A4 & A5 & A6) (B1 & B2 & B3 & B4 & B5 & B6).
  repeat split; congruence.
Qed.

Lemma quiet_fold {B : Type} (f : CanvasEngine -> B -> CanvasEngine)
    (l : list B) :
  (forall a b, quiet a (f a b)) -> forall e, quiet e (fold_left f l e).
Proof.
  intros Hf. induction l as [| b l IH]; intros e; cbn.
  - apply quiet_refl.
  - eapply quiet_trans; [apply Hf | apply IH].
Qed.

Lemma quiet_createCard (cid : string) (x y : Q) (color : Z) (text : string)
    (image : option string) (e : CanvasEngine) :
  quiet e (CanvasEngine.createCard cid x y color text image e).
Proof.
  unfold CanvasEngine.createCard.
  destruct (CanvasEngine.cards e !! cid); repeat split.
Qed.

Lemma quiet_updateCardPosition (cid : string) (x y : Q) (e : CanvasEngine) :
  quiet e (CanvasEngine.updateCardPosition cid x y e).
Proof.
  unfold CanvasEngine.updateCardPosition.
  destruct (CanvasEngine.cards e !! cid); [| repeat split].
  destruct (negb _); repeat split.
Qed.

Lemma quiet_updateCardText (cid text : string) (e : CanvasEngine) :
  quiet e (CanvasEngine.updateCardText cid text e).
Proof.
  unfold CanvasEngine.updateCardText.
  destruct (CanvasEngine.cards e !! cid); repeat split.
Qed.

Lemma quiet_removeCard (cid : string) (e : CanvasEngine) :
  quiet e (CanvasEngine.removeCard cid e).
Proof.
  unfold CanvasEngine.removeCard.
  destruct (CanvasEngine.cards e !! cid); repeat split.
Qed.

Lemma quiet_hydrateCards (cs : list CardData) (e : CanvasEngine) :
  quiet e (CanvasEngine.hydrateCards cs e).
Proof.
  unfold CanvasEngine.hydrateCards. cbv zeta.
  match goal with
  | |- quiet ?a (fold_left ?f ?l (fold_left ?g ?k ?a)) =>
      apply (quiet_trans a (fold_left g k a)); apply quiet_fold; intros x b
  end.
  - apply quiet_removeCard.
  - unfold CanvasEngine.hydrateCard.
    destruct (CanvasEngine.cards x !! CardData.id b); [| apply quiet_createCard].
    eapply quiet_trans; [| apply quiet_updateCardText].
    destruct (negb _); [apply quiet_updateCardPosition | apply quiet_refl].
Qed.

Lemma quiet_hydrateConnections (conns : list ConnectionData) (e : CanvasEngine) :
  quiet e (CanvasEngine.hydrateConnections conns e).
Proof.
  unfold CanvasEngine.hydrateConnections. cbv zeta.
  match goal with
  | |- quiet ?a (fold_left ?f ?l (fold_left ?g ?k ?a)) =>
      apply (quiet_trans a (fold_left g k a)); apply quiet_fold; intros x b
  end.
  - repeat split.
  - destruct (CanvasEngine.connections x !! ConnectionData.id b); repeat split.
Qed.

(** X13. [hydrate] makes no call to a callback, whatever the snapshot and
    the engine, and leaves the viewport, the transform of the world and the
    stroke index as they were: in particular the strokes it loads are not
    entered in the stroke index. *)
Theorem hydrate_is_silent (cs : list CardData) (conns : list ConnectionData)
    (ss : list StrokeData) (e : CanvasEngine) :
  let e' := CanvasEngine.hydrate cs conns ss e in
  CanvasEngine.calls e' = CanvasEngine.calls e /\
  CanvasEngine.strokeQuadtree e' = CanvasEngine.strokeQuadtree e /\
  CanvasEngine.viewport e' = CanvasEngine.viewport e /\
  CanvasEngine.worldContainer e' = CanvasEngine.worldContainer e.
Proof.
  cbv zeta. unfold CanvasEngine.hydrate, CanvasEngine.hydrateStrokes.
  cbn [CanvasEngine.setStrokes CanvasEngine.calls CanvasEngine.strokeQuadtree
       CanvasEngine.viewport CanvasEngine.worldContainer].
  destruct (quiet_trans _ _ _ (quiet_hydrateCards cs e)
              (quiet_hydrateConnections conns (CanvasEngine.hydrateCards cs e)))
    as (A1 & A2 & _ & A4 & A5 & _).
  auto.
Qed.

Lemma keys_In {A : Type} (m : gmap string A) (k : string) :
  In k (CanvasEngine.keys m) <-> is_Some (m !! k).
Proof.
  unfold CanvasEngine.keys. rewrite in_map_iff. split.
  - intros ([k' v] & <- & Hin). exists v.
    apply elem_of_map_to_list, list_elem_of_In. exact Hin.
  - intros [v Hv]. exists (k, v). split; [reflexivity |].
    apply list_elem_of_In, elem_of_map_to_list. exact Hv.
Qed.

Lemma removeCards_lookup (l : list string) :
  forall (e : CanvasEngine) (k : string),
  CanvasEngine.cards (fold_left (fun e id => CanvasEngine.removeCard id e) l e) !! k =
  if includes l k then None else CanvasEngine.cards e !! k.
Proof.
  induction l as [| a l IH]; intros e k; cbn [fold_left includes existsb];
    [reflexivity |].
  rewrite IH. fold (includes l k).
  assert (R : CanvasEngine.cards (CanvasEngine.removeCard a e) =
              delete a (CanvasEngine.cards e)).
  { unfold CanvasEngine.removeCard.
    destruct (CanvasEngine.cards e !! a) eqn:L; [reflexivity |].
    symmetry. apply delete_id. exact L. }
  rewrite R. destruct (String.eqb_spec k a) as [-> | N]; cbn [orb].
  - rewrite lookup_delete_eq. destruct (includes l a); reflexivity.
  - rewrite lookup_delete_ne by congruence. reflexivity.
Qed.

Lemma hydrateCard_present (c : CardData) (e : CanvasEngine) :
  is_Some (CanvasEngine.cards (CanvasEngine.hydrateCard e c) !! CardData.id c).
Proof.
  destruct (CanvasEngine.cards e !! CardData.id c) as [card |] eqn:L.
  - rewrite (hydrateCard_same c card e L). eauto.
  - unfold CanvasEngine.hydrateCard. rewrite L, createCard_cards, L.
    rewrite lookup_insert_eq. eauto.
Qed.

Lemma hydrateCards_keys (cs : list CardData) :
  forall (e : CanvasEngine) (k : string),
  is_Some (CanvasEngine.cards (fold_left CanvasEngine.hydrateCard cs e) !! k) <->
  is_Some (CanvasEngine.cards e !! k) \/ In k (map CardData.id cs).
Proof.
  induction cs as [| c cs IH]; intros e k; cbn [fold_left map In]; [tauto |].
  rewrite IH.
  destruct (String.eqb_spec (CardData.id c) k) as [<- | N].
  - pose proof (hydrateCard_present c e). tauto.
  - rewrite (hydrateCard_other k c e N). tauto.
Qed.

Lemma deleteConnections_lookup (l : list string) :
  forall (e : CanvasEngine) (k : string),
  CanvasEngine.connections
    (fold_left
       (fun e id =>
          CanvasEngine.setConnections (delete id (CanvasEngine.connections e)) e)
       l e) !! k =
  if includes l k then None else CanvasEngine.connections e !! k.
Proof.
  induction l as [| a l IH]; intros e k; cbn [fold_left includes existsb];
    [reflexivity |].
  rewrite IH. fold (includes l k). cbn.
  destruct (String.eqb_spec k a) as [-> | N]; cbn [orb].
  - rewrite lookup_delete_eq. destruct (includes l a); reflexivity.
  - rewrite lookup_delete_ne by congruence. reflexivity.
Qed.

Lemma addConnections_keys (conns : list ConnectionData) :
  forall (e : CanvasEngine) (k : string),
  is_Some
    (CanvasEngine.connections
       (fold_left
          (fun e c =>
             match CanvasEngine.connections e !! ConnectionData.id c with
             | Some _ => e
             | None =>
                 CanvasEngine.setConnections
                   (<[ConnectionData.id c :=
                        Connection.mk (ConnectionData.id c)
                          (ConnectionData.fromId c) (ConnectionData.toId c)]>
                      (CanvasEngine.connections e)) e
             end)
          conns e) !! k) <->
  is_Some (CanvasEngine.connections e !! k) \/ In k (map ConnectionData.id conns).
Proof.
  induction conns as [| c conns IH]; intros e k; cbn [fold_left map In]; [tauto |].
  rewrite IH.
  destruct (CanvasEngine.connections e !! ConnectionData.id c) as [x |] eqn:L.
  - split; [tauto |]. intros [H | [<- | H]]; [tauto | | tauto].
    left. rewrite L. eauto.
  - cbn. destruct (String.eqb_spec (ConnectionData.id c) k) as [<- | N].
    + rewrite lookup_insert_eq. split; [tauto |]. intros _. left. eauto.
    + rewrite lookup_insert_ne by exact N. tauto.
Qed.

Lemma stale_or_incoming {A : Type} (m : gmap string A) (ids : list string)
    (k : string) :
  (if includes (List.filter (fun id => negb (includes ids id))
                            (CanvasEngine.keys m)) k
   then false else bool_decide (is_Some (m !! k))) = true ->
  In k ids.
Proof.
  destruct (includes _ k) eqn:I; [discriminate |].
  intros H. apply bool_decide_eq_true in H.
  destruct (includes ids k) eqn:J; [apply includes_In; exact J |].
  exfalso. assert (X : includes
                         (List.filter (fun id => negb (includes ids id))
                                      (CanvasEngine.keys m)) k = true).
  { apply includes_In, filter_In. split; [apply keys_In; exact H |].
    rewrite J. reflexivity. }
  congruence.
Qed.

(** X14. After [hydrate] the board has the cards and the connections of
    the snapshot and no others, it has a stroke for every stroke of the
    snapshot, and each of its strokes that has an id is a stroke of the
    snapshot. *)
Theorem hydrate_reconciles (cs : list CardData) (conns : list ConnectionData)
    (ss : list StrokeData) (e : CanvasEngine) :
  reconciled cs conns ss (CanvasEngine.hydrate cs conns ss e).
Proof.
  unfold reconciled. split; [| split; [| split]].
  - intros id. rewrite hydrate_cards. unfold CanvasEngine.hydrateCards. cbv zeta.
    rewrite hydrateCards_keys, removeCards_lookup. split; [| tauto].
    intros [H | H]; [| exact H].
    apply (stale_or_incoming (CanvasEngine.cards e)).
    destruct (includes _ id); [destruct H; discriminate |].
    apply bool_decide_eq_true. exact H.
  - intros id. unfold CanvasEngine.hydrate, CanvasEngine.hydrateStrokes.
    cbn [CanvasEngine.setStrokes CanvasEngine.connections].
    unfold CanvasEngine.hydrateConnections. cbv zeta.
    rewrite addConnections_keys, deleteConnections_lookup. split; [| tauto].
    intros [H | H]; [| exact H].
    apply (stale_or_incoming
             (CanvasEngine.connections (CanvasEngine.hydrateCards cs e))).
    destruct (includes _ id); [destruct H; discriminate |].
    apply bool_decide_eq_true. exact H.
  - intros id Hid. unfold CanvasEngine.hydrate, CanvasEngine.hydrateStrokes.
    cbv zeta. cbn [CanvasEngine.setStrokes CanvasEngine.strokes].
    set (kept := List.filter _ (CanvasEngine.strokes _)).
    rewrite map_app, in_app_iff.
    destruct (includes (map StrokeState.id kept) id) eqn:I.
    + left. apply includes_In. exact I.
    + right. apply in_map_iff in Hid. destruct Hid as (d & <- & Hd).
      apply in_map_iff. exists (StrokeState.mk (StrokeData.points d) (StrokeData.id d)).
      split; [reflexivity |]. apply in_map_iff. exists d.
      split; [reflexivity |]. apply filter_In.
      split; [exact Hd |]. fold kept. rewrite I. reflexivity.
  - intros s Hs Tr. unfold CanvasEngine.hydrate, CanvasEngine.hydrateStrokes in Hs.
    cbv zeta in Hs. cbn [CanvasEngine.setStrokes CanvasEngine.strokes] in Hs.
    apply in_app_iff in Hs. destruct Hs as [Hs | Hs].
    + apply filter_In in Hs. destruct Hs as (_ & F). rewrite Tr in F. cbn in F.
      apply negb_true_iff, negb_false_iff in F. apply includes_In. exact F.
    + apply in_map_iff in Hs. destruct Hs as (d & <- & Hd).
      apply filter_In in Hd. cbn. apply in_map. apply Hd.
Qed.

Lemma spliceStroke_other (id : string) (l : list StrokeState) (s : StrokeState) :
  In s l -> StrokeState.id s <> id -> In s (CanvasEngine.spliceStroke id l).
Proof.
  induction l as [| a l IH]; intros Hs N; [destruct Hs |].
  cbn. destruct (String.eqb_spec (StrokeState.id a) id) as [E | _].
  - destruct Hs as [-> | Hs]; [contradiction | exact Hs].
  - destruct Hs as [-> | Hs]; [left; reflexivity | right; auto].
Qed.

(** X15. [eraseAt] erases only strokes that are in the stroke index: a
    stroke of the board whose id no indexed item carries, such as a
    stroke that [hydrate] loaded, is still on the board afterwards,
    wherever the eraser is put. *)
Theorem eraseAt_spares_strokes_not_indexed (x y : Q) (e : CanvasEngine)
    (s : StrokeState) :
  In s (CanvasEngine.strokes e) ->
  (forall it, In it (getAll (CanvasEngine.strokeQuadtree e)) ->
              StrokeState.id (stroke it) <> StrokeState.id s) ->
  In s (CanvasEngine.strokes (CanvasEngine.eraseAt x y e)).
Proof.
  intros Hs Hfree. unfold CanvasEngine.eraseAt. cbv zeta.
  set (lp := Container.toLocal (CanvasEngine.worldContainer e) (x, y)).
  set (cands := retrieve (CanvasEngine.strokeQuadtree e) [] _).
  destruct (eraseStrokes_fields (CanvasEngine.collectHits (fst lp) (snd lp) cands) e)
    as (_ & Hstrokes & _).
  rewrite Hstrokes.
  assert (Hh : forall id, In id (CanvasEngine.collectHits (fst lp) (snd lp) cands) ->
                          id <> StrokeState.id s).
  { intros id Hid. apply collectHits_spec in Hid.
    destruct Hid as (it & Hit & _ & _ & ->).
    apply Hfree. unfold cands in Hit. apply retrieve_sound in Hit.
    destruct Hit as [[] | Hit]. exact Hit. }
  revert Hh Hs. generalize (CanvasEngine.collectHits (fst lp) (snd lp) cands).
  generalize (CanvasEngine.strokes e).
  intros l hits. revert l.
  induction hits as [| h hits IH]; intros l Hh Hs; cbn [fold_left]; [exact Hs |].
  apply IH.
  - intros id Hid. apply Hh. right. exact Hid.
  - apply spliceStroke_other; [exact Hs |].
    intros E. apply (Hh h); [left; reflexivity | symmetry; exact E].
Qed.

Lemma eraseAt_spares_strokes_not_indexed_witness :
  In hydratedStroke (CanvasEngine.strokes (CanvasEngine.eraseAt 5 0 boardHydrated)).
Proof.
  apply (eraseAt_spares_strokes_not_indexed 5 0 boardHydrated hydratedStroke).
  - vm_compute. left. reflexivity.
  - intros it Hit. vm_compute in Hit. destruct Hit.
Defined.

(** ** More about the viewport *)

Lemma viewportTick_once (v : ViewportState) :
  ViewportState.isDragging v = false ->
  ViewportState.isDragging (CanvasEngine.viewportTick v) = false /\
  (ViewportState.x (CanvasEngine.viewportTick v),
   ViewportState.vx (CanvasEngine.viewportTick v)) =
    coast (ViewportState.x v, ViewportState.vx v) /\
  (ViewportState.y (CanvasEngine.viewportTick v),
   ViewportState.vy (CanvasEngine.viewportTick v)) =
    coast (ViewportState.y v, ViewportState.vy v).
Proof.
  intros D. unfold CanvasEngine.viewportTick, coast. rewrite D.
  split; [reflexivity | split; reflexivity].
Qed.

Lemma viewportTick_coast (v : ViewportState) :
  ViewportState.isDragging v = false ->
  forall n,
  ViewportState.isDragging (Nat.iter n CanvasEngine.viewportTick v) = false /\
  (ViewportState.x (Nat.iter n CanvasEngine.viewportTick v),
   ViewportState.vx (Nat.iter n CanvasEngine.viewportTick v)) =
    Nat.iter n coast (ViewportState.x v, ViewportState.vx v) /\
  (ViewportState.y (Nat.iter n CanvasEngine.viewportTick v),
   ViewportState.vy (Nat.iter n CanvasEngine.viewportTick v)) =
    Nat.iter n coast (ViewportState.y v, ViewportState.vy v).
Proof.
  intros D. induction n as [| n (Dn & Xn & Yn)]; [repeat split; exact D |].
  rewrite !Nat.iter_succ.
  destruct (viewportTick_once _ Dn) as (D' & X' & Y').
  rewrite X', Y', Xn, Yn. split; [exact D' | split; reflexivity].
Qed.

Lemma coast_snd (pw : Q * Q) :
  snd (coast pw) =
  if Qltb (Qabs (snd pw * PHYSICS_CONFIG.friction)) PHYSICS_CONFIG.minVelocity
  then 0 else snd pw * PHYSICS_CONFIG.friction.
Proof. reflexivity. Qed.

Lemma coast_fst (pw : Q * Q) :
  fst (coast pw) = fst pw + snd pw * PHYSICS_CONFIG.friction.
Proof. reflexivity. Qed.

Lemma coast_velocity (p w : Q) (n : nat) :
  snd (Nat.iter n coast (p, w)) == 0 \/
  snd (Nat.iter n coast (p, w)) == w * frictionPow n.
Proof.
  induction n as [| n IH].
  - right. cbn. ring.
  - rewrite Nat.iter_succ, coast_snd.
    set (s := snd (Nat.iter n coast (p, w))) in *.
    destruct (Qltb _ _); [left; reflexivity |].
    destruct IH as [H | H]; [left | right]; rewrite H; cbn [frictionPow]; ring.
Qed.

Lemma coast_stops (p w : Q) (n : nat) :
  Qabs w * frictionPow (S n) < PHYSICS_CONFIG.minVelocity ->
  snd (Nat.iter (S n) coast (p, w)) == 0.
Proof.
  intros B. rewrite Nat.iter_succ, coast_snd.
  set (s := snd (Nat.iter n coast (p, w))).
  destruct (Qltb _ _) eqn:E; [reflexivity |].
  apply Qltb_ge in E.
  destruct (coast_velocity p w n) as [H | H]; fold s in H.
  - rewrite H. ring.
  - exfalso.
    assert (A : Qabs (s * PHYSICS_CONFIG.friction) == Qabs w * frictionPow (S n)).
    { rewrite H, !Qabs_Qmult. cbn [frictionPow].
      rewrite (Qabs_pos (frictionPow n)) by (apply Qlt_le_weak, frictionPow_pos).
      rewrite (Qabs_pos PHYSICS_CONFIG.friction) by (unfold PHYSICS_CONFIG.friction; lra).
      ring. }
    rewrite A in E. lra.
Qed.

(** Bernoulli's bound on the powers of the friction. *)
Lemma frictionPow_bound (n : nat) :
  frictionPow n * (1 + inject_Z (Z.of_nat n) * (2 # 25)) <= 1.
Proof.
  induction n as [| n IH].
  - change (inject_Z (Z.of_nat 0)) with 0. cbn [frictionPow]. lra.
  - rewrite Nat2Z.inj_succ. unfold Z.succ. rewrite inject_Z_plus.
    cbn [frictionPow]. unfold PHYSICS_CONFIG.friction.
    pose proof (frictionPow_pos n) as P.
    pose proof (frictionPow_decreasing 0 n (Nat.le_0_l n)) as L. cbn in L.
    set (F := frictionPow n) in *. set (k := inject_Z (Z.of_nat n)) in *.
    assert (E : (23 # 25) * F * (1 + (k + inject_Z 1) * (2 # 25)) ==
                (23 # 25) * (F * (1 + k * (2 # 25))) + (23 # 25) * (2 # 25) * F).
    { change (inject_Z 1) with 1. ring. }
    rewrite E. generalize dependent (F * (1 + k * (2 # 25))). intros G HG. lra.
Qed.

Lemma ticksToStop_enough (w : Q) (m : nat) :
  (ticksToStop w <= S m)%nat ->
  Qabs w * frictionPow (S m) < PHYSICS_CONFIG.minVelocity.
Proof.
  intros Hm. unfold ticksToStop in Hm.
  set (N := Z.to_nat (Qceiling (1250 * Qabs w))) in *.
  pose proof (Qabs_nonneg w) as A.
  assert (C : 1250 * Qabs w <= inject_Z (Z.of_nat N)).
  { unfold N. rewrite Z2Nat.id.
    - apply Qle_ceiling.
    - change 0%Z with (Qceiling 0). apply Qceiling_resp_le. lra. }
  pose proof (frictionPow_bound N) as B.
  pose proof (frictionPow_pos N) as P.
  pose proof (frictionPow_pos (S m)) as P'.
  assert (D : frictionPow (S m) <= frictionPow N)
    by (apply frictionPow_decreasing; lia).
  unfold PHYSICS_CONFIG.minVelocity.
  set (a := Qabs w) in *. set (F := frictionPow N) in *.
  set (k := inject_Z (Z.of_nat N)) in *. set (F' := frictionPow (S m)) in *.
  assert (H1 : a * F' <= a * F) by nra.
  assert (H2 : a * F * (1 + k * (2 # 25)) <= a) by nra.
  assert (H3 : 100 * a < 1 + k * (2 # 25)) by lra.
  assert (H4 : a * F < 1 # 100) by nra.
  lra.
Qed.

Lemma coast_rests (p w : Q) (n m : nat) :
  (ticksToStop w <= n)%nat -> (n <= m)%nat ->
  snd (Nat.iter m coast (p, w)) == 0 /\
  fst (Nat.iter m coast (p, w)) == fst (Nat.iter n coast (p, w)).
Proof.
  intros Hn Hm.
  assert (Z : forall k, (ticksToStop w <= k)%nat ->
                        snd (Nat.iter k coast (p, w)) == 0).
  { intros [| k] Hk; [unfold ticksToStop in Hk; lia |].
    apply coast_stops, ticksToStop_enough, Hk. }
  split; [apply Z; lia |].
  induction Hm as [| m Hm IH]; [reflexivity |].
  rewrite Nat.iter_succ, coast_fst.
  rewrite (Z m) by lia. rewrite <- IH. ring.
Qed.

(** X16. The inertia of the viewport stops.  A viewport that is not held
    comes to rest after finitely many ticks: from [ticksToStop] of the two
    velocities on, both velocities are zero and the viewport stays where
    it is. *)
Theorem viewport_inertia_stops (v : ViewportState) (n m : nat) :
  ViewportState.isDragging v = false ->
  (ticksToStop (ViewportState.vx v) <= n)%nat ->
  (ticksToStop (ViewportState.vy v) <= n)%nat ->
  (n <= m)%nat ->
  let rest := Nat.iter n CanvasEngine.viewportTick v in
  let v' := Nat.iter m CanvasEngine.viewportTick v in
  ViewportState.vx v' == 0 /\ ViewportState.vy v' == 0 /\
  ViewportState.x v' == ViewportState.x rest /\
  ViewportState.y v' == ViewportState.y rest /\
  ViewportState.scale v' = ViewportState.scale v.
Proof.
  intros D Nx Ny Hm. cbv zeta.
  destruct (viewportTick_coast v D m) as (_ & Xm & Ym).
  destruct (viewportTick_coast v D n) as (_ & Xn & Yn).
  destruct (coast_rests (ViewportState.x v) (ViewportState.vx v) n m Nx Hm) as (V1 & P1).
  destruct (coast_rests (ViewportState.y v) (ViewportState.vy v) n m Ny Hm) as (V2 & P2).
  rewrite <- Xm in V1, P1. rewrite <- Ym in V2, P2.
  rewrite <- Xn in P1. rewrite <- Yn in P2. cbn [fst snd] in *.
  repeat split; try assumption.
  clear. induction m as [| m IH]; [reflexivity |].
  rewrite Nat.iter_succ. unfold CanvasEngine.viewportTick at 1.
  destruct (negb _); cbn; exact IH.
Qed.

Lemma viewport_inertia_stops_witness :
  let v' := Nat.iter 26 CanvasEngine.viewportTick thrownViewport in
  ViewportState.vx v' == 0 /\ ViewportState.vy v' == 0.
Proof.
  cbv zeta.
  destruct (viewport_inertia_stops thrownViewport 26 26) as (X & Y & _).
  - reflexivity.
  - vm_compute. lia.
  - vm_compute. lia.
  - lia.
  - split; [exact X | exact Y].
Defined.

(** X17. A pan follows the pointer.  After [startPan] and a pointer move,
    with no stroke in progress and the move not an erasing one, the
    viewport is displaced by the displacement of the pointer, so every
    point of the world is drawn displaced by it; the scale is unchanged
    and the velocity of the viewport is that displacement. *)
Theorem pan_follows_pointer (e : CanvasEngine) (ev0 ev1 : PointerEvent)
    (mode : InteractionMode) (w : Q * Q) :
  CanvasEngine.currentStroke e = None ->
  bool_decide (mode = ERASING) && (PointerEvent.buttons ev1 =? 1)%Z = false ->
  let v := CanvasEngine.viewport e in
  let v' := CanvasEngine.viewport
              (CanvasEngine.onGlobalPointerMove mode ev1
                 (CanvasEngine.startPan ev0 e)) in
  let dx := PointerEvent.globalX ev1 - PointerEvent.globalX ev0 in
  let dy := PointerEvent.globalY ev1 - PointerEvent.globalY ev0 in
  fst (CanvasEngine.project v' w) == fst (CanvasEngine.project v w) + dx /\
  snd (CanvasEngine.project v' w) == snd (CanvasEngine.project v w) + dy /\
  ViewportState.scale v' = ViewportState.scale v /\
  ViewportState.vx v' = dx /\ ViewportState.vy v' = dy /\
  ViewportState.isDragging v' = true.
Proof.
  intros St G. cbv zeta. unfold CanvasEngine.onGlobalPointerMove. rewrite G.
  cbv zeta. unfold CanvasEngine.startPan.
  destruct (CanvasEngine.onCursorMove e) eqn:Cm; cbn; rewrite ?Cm; cbn;
    rewrite St; cbn; unfold CanvasEngine.project, Container.toGlobal; cbn;
    (repeat split; try reflexivity; ring).
Qed.

Lemma pan_follows_pointer_witness :
  let v' := CanvasEngine.viewport
              (CanvasEngine.onGlobalPointerMove PANNING
                 (PointerEvent.mk 140 90 0 1 false 0 None)
                 (CanvasEngine.startPan (PointerEvent.mk 100 50 0 1 false 0 None)
                    boardTwoCards)) in
  fst (CanvasEngine.project v' (300, 0)) ==
  fst (CanvasEngine.project (CanvasEngine.viewport boardTwoCards) (300, 0)) +
  (140 - 100).
Proof.
  cbv zeta.
  apply (pan_follows_pointer boardTwoCards
           (PointerEvent.mk 100 50 0 1 false 0 None)
           (PointerEvent.mk 140 90 0 1 false 0 None) PANNING (300, 0));
    reflexivity.
Defined.

(** X18. The wheel zooms in the direction of its turn and within the
    limits, on every engine: a positive [deltaY] never raises the scale,
    another one never lowers it, and the scale stays between 0.1 and 5. *)
Theorem wheel_direction (ops : list Op) (deltaY offsetX offsetY : Q) :
  let e := runAll ops CanvasEngine.new in
  let s := ViewportState.scale (CanvasEngine.viewport e) in
  let s' := ViewportState.scale
              (CanvasEngine.viewport (CanvasEngine.wheel deltaY offsetX offsetY e)) in
  (if Qgtb deltaY 0 then s' <= s else s <= s') /\ 1 # 10 <= s' /\ s' <= 5.
Proof.
  cbv zeta. destruct (scaleOk_runAll ops) as (Lo & Hi).
  unfold CanvasEngine.wheel, CanvasEngine.wheelViewport. cbn.
  set (s := ViewportState.scale (CanvasEngine.viewport (runAll ops CanvasEngine.new))) in *.
  split; [| apply clamp_range].
  destruct (Qgtb deltaY 0).
  - apply Q.max_lub; [exact Lo |].
    eapply Qle_trans; [apply Q.le_min_r |]. lra.
  - eapply Qle_trans; [| apply Q.le_max_r].
    apply Q.min_glb; [exact Hi | lra].
Qed.

(** ** What is drawn *)

Lemma renderSegments_polyline (p : Point) (rest : list Point) :
  map drawStart (renderSegments (p :: rest)) =
    map (fun q => Some (pointXY q)) (removelast (p :: rest)) /\
  map drawEnd (renderSegments (p :: rest)) =
    map (fun q => Some (pointXY q)) rest /\
  List.Forall wideEnough (renderSegments (p :: rest)) /\
  length (renderSegments (p :: rest)) = length rest.
Proof.
  revert p. induction rest as [| q rest IH]; intros p.
  - cbn. repeat split. constructor.
  - destruct (IH q) as (S & E & W & L).
    change (renderSegments (p :: q :: rest)) with
      (Segment (pointX p) (pointY p) (pointX q) (pointY q)
         (Qmax 2 (pressureOr ((pointPressure p + pointPressure q) / 2) * 16))
         16777215 :: renderSegments (q :: rest)).
    change (removelast (p :: q :: rest)) with (p :: removelast (q :: rest)).
    cbn [map drawStart drawEnd length]. rewrite S, E, L.
    repeat split. constructor; [| exact W]. cbn. apply Q.le_max_l.
Qed.

(** X19. A stroke of two points or more is drawn as a polyline through
    its points in their order: one segment for each pair of successive
    points, from the first of the pair to the second, none thinner than
    2. *)
Theorem renderStroke_polyline (points : list Point) :
  (2 <= length points)%nat ->
  map drawStart (renderStroke points) =
    map (fun q => Some (pointXY q)) (removelast points) /\
  map drawEnd (renderStroke points) =
    map (fun q => Some (pointXY q)) (tl points) /\
  List.Forall wideEnough (renderStroke points) /\
  length (renderStroke points) = (length points - 1)%nat.
Proof.
  intros L. unfold renderStroke.
  destruct (Nat.ltb_spec (length points) 2) as [H | _]; [lia |].
  destruct points as [| p rest]; [cbn in L; lia |].
  destruct (renderSegments_polyline p rest) as (S & E & W & Len).
  cbn [tl length]. rewrite Nat.sub_1_r. cbn [Nat.pred]. auto.
Qed.

Lemma renderStroke_polyline_witness :
  map drawStart (renderStroke [(0, 0, 1 # 2); (10, 0, 0); (10, 10, 1)]) =
  [Some (0, 0); Some (10, 0)].
Proof.
  destruct (renderStroke_polyline [(0, 0, 1 # 2); (10, 0, 0); (10, 10, 1)])
    as (S & _).
  - cbn. lia.
  - exact S.
Defined.

(** X20. [fitSprite] makes the sprite cover the box.  With a texture of
    positive size and a box of positive size, the sprite keeps the ratio
    of its texture, is as wide and as high as the box or more, fills one
    of the two dimensions exactly and is centred on the box. *)
Theorem fitSprite_covers (sprite : Sprite) (tw th width height : Q) :
  Sprite.texture sprite = Some (tw, th) ->
  0 < tw -> 0 < th -> 0 < width -> 0 < height ->
  let s := fitSprite sprite width height in
  width <= Sprite.width s /\ height <= Sprite.height s /\
  (Sprite.width s == width \/ Sprite.height s == height) /\
  Sprite.width s * th == Sprite.height s * tw /\
  Sprite.x s + Sprite.width s / 2 == width / 2 /\
  Sprite.y s + Sprite.height s / 2 == height / 2.
Proof.
  intros Tx Htw Hth Hw Hh. cbv zeta. unfold fitSprite. rewrite Tx.
  set (ratio := tw / th). set (target := width / height).
  assert (Er : ratio * th == tw) by (unfold ratio; field; lra).
  assert (Et : target * height == width) by (unfold target; field; lra).
  assert (Pr : 0 < ratio).
  { unfold ratio. apply Qlt_shift_div_l; lra. }
  destruct (Qgtb ratio target) eqn:G; cbn [Sprite.width Sprite.height Sprite.x Sprite.y].
  - apply Qltb_lt in G.
    assert (X : width < height * ratio) by nra.
    split; [lra |]. split; [lra |]. split; [right; reflexivity |].
    split; [rewrite <- Er; ring |]. split; field.
  - apply Qltb_ge in G.
    assert (Eh : width / ratio * ratio == width) by (field; lra).
    set (h := width / ratio) in *.
    assert (X : height <= h) by nra.
    split; [lra |]. split; [exact X |]. split; [left; reflexivity |].
    split; [rewrite <- Er; nra |]. split; field.
Qed.

Lemma fitSprite_covers_witness :
  let s := fitSprite wideSprite 200 150 in
  200 <= Sprite.width s /\ 150 <= Sprite.height s.
Proof.
  cbv zeta.
  destruct (fitSprite_covers wideSprite 400 100 200 150 eq_refl)
    as (W & H & _); try reflexivity.
  split; [exact W | exact H].
Defined.

(** ** The grid, in doubles *)

Lemma lineLoop_stalls (fuel : nat) (x end_ gridSize : float) :
  PrimFloat.add x gridSize = x -> PrimFloat.ltb x end_ = true ->
  Doubles.GridSystem.lineLoop fuel x end_ gridSize = None.
Proof.
  intros A L. induction fuel as [| fuel IH]; [reflexivity |].
  cbn [Doubles.GridSystem.lineLoop]. rewrite L, A, IH. reflexivity.
Qed.

(** X21.  [GridSystem.update] need not return.  When, along either axis,
    the first grid line is before the end of the view and adding the grid
    size to it rounds back to it, the loop over the lines tests the same
    position for ever: no number of iterations completes [update].  A grid
    of size 50 on a screen 1920 wide and 1080 high, at scale 1, with the
    viewport dragged to the offset [-2^59], is such a case. *)
Theorem grid_update_stalls (fuel : nat)
    (gridSize viewX viewY scale screenWidth screenHeight : float) :
  Doubles.GridSystem.stalls gridSize viewX scale screenWidth \/
  Doubles.GridSystem.stalls gridSize viewY scale screenHeight ->
  Doubles.GridSystem.update fuel gridSize viewX viewY scale screenWidth
                            screenHeight = None.
Proof.
  unfold Doubles.GridSystem.stalls, Doubles.GridSystem.firstLine,
    Doubles.GridSystem.update. cbv zeta.
  intros [[A L] | [A L]].
  - rewrite (lineLoop_stalls fuel _ _ _ A L). reflexivity.
  - rewrite (lineLoop_stalls fuel _ _ _ A L).
    destruct (Doubles.GridSystem.lineLoop fuel _ _ _); reflexivity.
Qed.

Lemma grid_update_stalls_witness :
  Doubles.GridSystem.update 1000 50 (- 0x1p+59) 0 1 1920 1080 = None.
Proof.
  apply (grid_update_stalls 1000 50 (- 0x1p+59) 0 1 1920 1080).
  left. split; vm_compute; reflexivity.
Defined.

(** Away from such offsets the loop ends: at the offset (-120, 30) and
    the scale 2, on a screen of 800 by 600, [update] draws the vertical
    lines from 50 to 450 and the horizontal lines from -50 to 250, every 50
    units, with a stroke of half a unit. *)
Lemma grid_update_example :
  Doubles.GridSystem.update 20 50 (-120) 30 2 800 600 =
  Some (Doubles.GridSystem.mkLines
          [50; 100; 150; 200; 250; 300; 350; 400; 450]%float
          [-50; 0; 50; 100; 150; 200; 250]%float
          60 (-15) 460 285 0.5).
Proof. vm_compute. reflexivity. Qed.

(** ** The cursors of the other users *)

Lemma showCursor_other (self : Z) (m : gmap Z Cursor)
    (entry : Z * AwarenessState) (id : Z) :
  fst entry <> id -> showCursor self m entry !! id = m !! id.
Proof.
  destruct entry as [cid st]. cbn [fst]. intros N. unfold showCursor.
  destruct (Z.eqb cid self); [reflexivity |].
  destruct (m !! cid) as [c |];
    destruct (AwarenessState.x st), (AwarenessState.y st);
    rewrite ?lookup_insert_ne by exact N; reflexivity.
Qed.

Lemma showCursor_self (self : Z) (m : gmap Z Cursor) (st : AwarenessState) :
  showCursor self m (self, st) = m.
Proof. unfold showCursor. rewrite Z.eqb_refl. reflexivity. Qed.

Lemma showCursor_shown (self : Z) (m : gmap Z Cursor) (cid : Z)
    (st : AwarenessState) :
  cid <> self ->
  exists c, showCursor self m (cid, st) !! cid = Some c /\
    forall x y, AwarenessState.x st = Some x -> AwarenessState.y st = Some y ->
                Cursor.x c = x /\ Cursor.y c = y /\
                Cursor.tint c = colorOr (AwarenessState.color st).
Proof.
  intros N. unfold showCursor.
  destruct (Z.eqb_spec cid self) as [E | _]; [contradiction |].
  destruct (m !! cid) as [c |] eqn:L;
    destruct (AwarenessState.x st) as [x |], (AwarenessState.y st) as [y |];
    rewrite ?lookup_insert_eq, ?L; eexists; (split; [reflexivity |]);
    intros x' y' Hx Hy; inversion Hx; inversion Hy; subst; repeat split.
Qed.

Lemma deleteAll_lookup (removed : list Z) :
  forall (m : gmap Z Cursor) (id : Z),
  fold_left (fun m clientId => delete clientId m) removed m !! id = None \/
  fold_left (fun m clientId => delete clientId m) removed m !! id = m !! id.
Proof.
  induction removed as [| a l IH]; intros m id; cbn [fold_left]; [right; reflexivity |].
  destruct (IH (delete a m) id) as [H | H]; [left; exact H |].
  rewrite H. destruct (decide (a = id)) as [-> | N].
  - left. apply lookup_delete_eq.
  - right. apply lookup_delete_ne. exact N.
Qed.

Lemma deleteAll_removed (removed : list Z) :
  forall (m : gmap Z Cursor) (id : Z),
  In id removed ->
  fold_left (fun m clientId => delete clientId m) removed m !! id = None.
Proof.
  induction removed as [| a l IH]; intros m id Hin; [destruct Hin |].
  cbn [fold_left]. destruct (decide (a = id)) as [-> | N].
  - destruct (deleteAll_lookup l (delete id m) id) as [H | H]; [exact H |].
    rewrite H. apply lookup_delete_eq.
  - destruct Hin as [E | Hin]; [contradiction |]. apply IH. exact Hin.
Qed.

Lemma showCursors_other (self : Z) (states : list (Z * AwarenessState)) :
  forall (m : gmap Z Cursor) (id : Z),
  ~ In id (map fst states) ->
  fold_left (showCursor self) states m !! id = m !! id.
Proof.
  induction states as [| en l IH]; intros m id Hn; cbn [fold_left]; [reflexivity |].
  rewrite IH by (intros H; apply Hn; right; exact H).
  apply showCursor_other. intros E. apply Hn. left. exact E.
Qed.

(** X22. The engine never shows the cursor of its own client: whatever
    the changes of the awareness, from the start on, no cursor is kept for
    [awareness.clientID]. *)
Theorem own_cursor_never_shown (self : Z) (changes : list AwarenessChange) :
  cursorsAfter self changes !! self = None.
Proof.
  unfold cursorsAfter.
  apply (fold_left_preserves
           (fun m ch => onAwarenessChange self (fst ch) (snd ch) m)
           (fun m => m !! self = None)); [| apply lookup_empty].
  intros m [removed states] Hm. cbn [fst snd]. unfold onAwarenessChange.
  assert (H0 : fold_left (fun m clientId => delete clientId m) removed m !! self = None).
  { destruct (deleteAll_lookup removed m self) as [H | H]; [exact H | congruence]. }
  revert H0. generalize (fold_left (fun m clientId => delete clientId m) removed m).
  induction states as [| [cid st] l IH]; intros m0 H0; cbn [fold_left]; [exact H0 |].
  apply IH. destruct (Z.eqb_spec cid self) as [-> | N].
  - rewrite showCursor_self. exact H0.
  - rewrite showCursor_other by exact N. exact H0.
Qed.

(** X23. After a change of the awareness every other client with a state
    has a cursor, at the position of its state when the state has one and
    tinted with its colour, red when it has none; and a client removed
    that has no state has no cursor.  The states are those of a map: no
    client has two. *)
Theorem awareness_change_shows_others (self : Z) (removed : list Z)
    (states : list (Z * AwarenessState)) (m : gmap Z Cursor) :
  List.NoDup (map fst states) ->
  let m' := onAwarenessChange self removed states m in
  (forall cid st, In (cid, st) states -> cid <> self ->
     exists c, m' !! cid = Some c /\
       forall x y, AwarenessState.x st = Some x -> AwarenessState.y st = Some y ->
                   Cursor.x c = x /\ Cursor.y c = y /\
                   Cursor.tint c = colorOr (AwarenessState.color st)) /\
  (forall cid, In cid removed -> ~ In cid (map fst states) -> m' !! cid = None).
Proof.
  intros Nd. cbv zeta. unfold onAwarenessChange. split.
  - generalize (fold_left (fun m clientId => delete clientId m) removed m).
    induction states as [| [k s] l IH]; intros m0 cid st Hin N; [destruct Hin |].
    cbn [map fst] in Nd. inversion Nd as [| ? ? Hk Nd']; subst.
    cbn [fold_left]. destruct Hin as [E | Hin].
    + inversion E; subst.
      rewrite showCursors_other by exact Hk.
      apply showCursor_shown. exact N.
    + apply IH; assumption.
  - intros cid Hr Hs. rewrite showCursors_other by exact Hs.
    apply deleteAll_removed. exact Hr.
Qed.

Lemma awareness_change_shows_others_witness :
  exists c, onAwarenessChange 1 [3%Z] twoClients ∅ !! 7%Z = Some c /\
            Cursor.x c = 10 /\ Cursor.y c = 20 /\ Cursor.tint c = 65280%Z.
Proof.
  destruct (awareness_change_shows_others 1 [3%Z] twoClients ∅) as (H & _).
  - cbn. repeat constructor; cbn; intuition discriminate.
  - destruct (H 7%Z (AwarenessState.mk (Some 10) (Some 20) (Some 65280%Z) (Some "Ada")))
      as (c & L & P).
    + left. reflexivity.
    + discriminate.
    + exists c. split; [exact L |]. apply (P 10 20); reflexivity.
Defined.

(** ** More about the interaction manager *)

Lemma keydown_held (typing : bool) (code key : string) (sc : System * string) :
  InteractionManager.isSpacePressed (InteractionManager.manager (fst sc)) = true ->
  InteractionManager.keydown typing code key sc = sc.
Proof.
  intros H. unfold InteractionManager.keydown.
  destruct typing; [reflexivity |]. rewrite H.
  rewrite andb_false_r. cbn. rewrite H. reflexivity.
Qed.

(** X24. Holding the space bar suspends the tool keys, and letting it go
    ends in Idle with the default cursor.  From a manager whose space bar
    is up, a press of the space bar outside an input switches to Panning
    and, when the engine is set, sets the cursor of the canvas to "grab";
    key presses while it is held change nothing; its release leaves the
    mode Idle, whatever the tool was before, and the cursor "default"
    (the cursor as it was when no engine is set), with the selection and
    the state of the engine as they were. *)
Theorem space_tap_ends_idle (s : System) (cursor key : string)
    (presses : list (bool * string * string)) :
  InteractionManager.isSpacePressed (InteractionManager.manager s) = false ->
  let held := InteractionManager.keydown false "Space" key (s, cursor) in
  let after := InteractionManager.keyup "Space" (keydowns presses held) in
  let withEngine (c : string) :=
    if InteractionManager.engineSet (InteractionManager.manager s)
    then c else cursor in
  keydowns presses held = held /\
  InteractionManager.mode (InteractionManager.manager (fst held)) = PANNING /\
  snd held = withEngine "grab"%string /\
  InteractionManager.mode (InteractionManager.manager (fst after)) = IDLE /\
  snd after = withEngine "default"%string /\
  InteractionManager.isSpacePressed (InteractionManager.manager (fst after)) = false /\
  InteractionManager.selectedCardIds (InteractionManager.manager (fst after)) =
    InteractionManager.selectedCardIds (InteractionManager.manager s) /\
  InteractionManager.engine (fst after) = InteractionManager.engine s.
Proof.
  intros Up. cbv zeta.
  set (held := InteractionManager.keydown false "Space" key (s, cursor)).
  assert (Hh : held =
               (InteractionManager.onManager
                  (fun m => InteractionManager.setMode PANNING
                              (InteractionManager.setSpacePressed true m)) s,
                InteractionManager.setCursor "grab" s cursor)).
  { unfold held, InteractionManager.keydown. cbn [fst snd]. rewrite Up. cbn. reflexivity. }
  assert (Hp : InteractionManager.isSpacePressed
                 (InteractionManager.manager (fst held)) = true)
    by (rewrite Hh; reflexivity).
  assert (Hk : keydowns presses held = held).
  { unfold keydowns. apply (fold_left_preserves _ (fun x => x = held)); [| reflexivity].
    intros a b ->. apply keydown_held. exact Hp. }
  rewrite Hk. split; [reflexivity |]. rewrite Hh.
  unfold InteractionManager.keyup, InteractionManager.setCursor.
  cbn. destruct (InteractionManager.engineSet (InteractionManager.manager s));
    repeat split.
Qed.

Lemma space_tap_ends_idle_witness :
  (InteractionManager.mode (InteractionManager.manager (fst systemDrawing)) = DRAWING /\
   snd systemDrawing = "crosshair"%string) /\
  let after :=
    InteractionManager.keyup "Space"
      (keydowns [(false, "KeyE", "e")]
         (InteractionManager.keydown false "Space" " " systemDrawing)) in
  InteractionManager.mode (InteractionManager.manager (fst after)) = IDLE /\
  snd after = "default"%string.
Proof.
  split; [split; reflexivity |]. cbv zeta.
  destruct (space_tap_ends_idle (fst systemDrawing) (snd systemDrawing) " "
              [(false, "KeyE", "e")] eq_refl) as (_ & _ & _ & M & C & _).
  split; [exact M | exact C].
Defined.

Lemma band_normalised (a b : Q) :
  Qmin (Qmin a b) (Qmin a b + Qabs (b - a)) == Qmin a b /\
  Qmax (Qmin a b) (Qmin a b + Qabs (b - a)) == Qmax a b.
Proof.
  pose proof (Qabs_nonneg (b - a)) as P.
  destruct (Qlt_le_dec b a) as [H | H].
  - rewrite (Q.min_r a b) by lra. rewrite (Q.max_l a b) by lra.
    rewrite (Qabs_neg (b - a)) by lra.
    rewrite Q.min_l by lra. rewrite Q.max_r by lra. split; lra.
  - rewrite (Q.min_l a b) by lra. rewrite (Q.max_r a b) by lra.
    rewrite (Qabs_pos (b - a)) by lra.
    rewrite Q.min_l by lra. rewrite Q.max_r by lra. split; lra.
Qed.

(** X25. The rubber band selects overlapping cards only.  In Idle mode,
    with the space bar up and the engine set, a press of a button other
    than the middle one on the canvas empties the selection and starts
    Selecting; a pointer move then selects ids of cards of the board
    only, each overlapping the rectangle spanned by the two pointer
    positions in world coordinates; the pointer-up returns to Idle and
    keeps that selection. *)
Theorem rubber_band_selects_overlapping (s : System) (uuid : string)
    (ev0 ev1 : PointerEvent) :
  InteractionManager.mode (InteractionManager.manager s) = IDLE ->
  InteractionManager.isSpacePressed (InteractionManager.manager s) = false ->
  InteractionManager.engineSet (InteractionManager.manager s) = true ->
  PointerEvent.button ev0 <> 1%Z ->
  let s1 := InteractionManager.handleCanvasDown uuid ev0 s in
  let s2 := InteractionManager.stagePointerMove ev1 s1 in
  let s3 := InteractionManager.stagePointerUp s2 in
  let world := CanvasEngine.worldContainer (InteractionManager.engine s) in
  InteractionManager.mode (InteractionManager.manager s1) = SELECTING /\
  InteractionManager.selectedCardIds (InteractionManager.manager s1) = ∅ /\
  InteractionManager.mode (InteractionManager.manager s3) = IDLE /\
  InteractionManager.dragStart (InteractionManager.manager s3) = None /\
  InteractionManager.selectedCardIds (InteractionManager.manager s3) =
    InteractionManager.selectedCardIds (InteractionManager.manager s2) /\
  set_Forall
    (fun id => exists card,
       CanvasEngine.cards (InteractionManager.engine s) !! id = Some card /\
       inBand (Container.toLocal world (PointerEvent.global ev0))
              (Container.toLocal world (PointerEvent.global ev1)) card)
    (InteractionManager.selectedCardIds (InteractionManager.manager s3)).
Proof.
  intros Md Sp Es Bt. cbv zeta.
  assert (B : (PointerEvent.button ev0 =? 1)%Z = false) by (apply Z.eqb_neq; exact Bt).
  assert (E1 : InteractionManager.handleCanvasDown uuid ev0 s =
               InteractionManager.onManager
                 (fun m => InteractionManager.setDragStart
                             (Some (PointerEvent.globalX ev0, PointerEvent.globalY ev0))
                             (InteractionManager.setMode SELECTING m))
                 (InteractionManager.deselectAll s)).
  { unfold InteractionManager.handleCanvasDown. rewrite Sp, B, Md. reflexivity. }
  rewrite E1.
  unfold InteractionManager.stagePointerUp, InteractionManager.stagePointerMove,
    InteractionManager.handleGlobalMove, InteractionManager.handleGlobalUp.
  cbn. rewrite Es. cbn.
  repeat split.
  intros id Hid. apply elem_of_list_to_set in Hid. apply list_elem_of_In in Hid.
  pose proof (getCardsInRect_sound
                (Qmin (fst (Container.toLocal
                              (CanvasEngine.worldContainer (InteractionManager.engine s))
                              (PointerEvent.globalX ev0, PointerEvent.globalY ev0)))
                      (fst (Container.toLocal
                              (CanvasEngine.worldContainer (InteractionManager.engine s))
                              (PointerEvent.global ev1))))
                (Qmin (snd (Container.toLocal
                              (CanvasEngine.worldContainer (InteractionManager.engine s))
                              (PointerEvent.globalX ev0, PointerEvent.globalY ev0)))
                      (snd (Container.toLocal
                              (CanvasEngine.worldContainer (InteractionManager.engine s))
                              (PointerEvent.global ev1))))
                (Qabs (fst (Container.toLocal
                              (CanvasEngine.worldContainer (InteractionManager.engine s))
                              (PointerEvent.global ev1)) -
                       fst (Container.toLocal
                              (CanvasEngine.worldContainer (InteractionManager.engine s))
                              (PointerEvent.globalX ev0, PointerEvent.globalY ev0))))
                (Qabs (snd (Container.toLocal
                              (CanvasEngine.worldContainer (InteractionManager.engine s))
                              (PointerEvent.global ev1)) -
                       snd (Container.toLocal
                              (CanvasEngine.worldContainer (InteractionManager.engine s))
                              (PointerEvent.globalX ev0, PointerEvent.globalY ev0))))
                (InteractionManager.engine s)) as Snd.
  unfold selectsOverlapping in Snd. rewrite List.Forall_forall in Snd.
  destruct (Snd id Hid) as (card & L & O).
  exists card. split; [exact L |].
  unfold cardOverlaps in O. unfold inBand, PointerEvent.global. cbv zeta in *.
  match type of O with
  | Qmin (Qmin ?a ?b) _ < _ /\ _ < Qmax _ _ /\ Qmin (Qmin ?c ?d) _ < _ /\ _ =>
      destruct (band_normalised a b) as (X1 & X2);
      destruct (band_normalised c d) as (Y1 & Y2)
  end.
  rewrite X1, X2, Y1, Y2 in O. exact O.
Qed.

Lemma rubber_band_selects_overlapping_witness :
  let s3 :=
    InteractionManager.stagePointerUp
      (InteractionManager.stagePointerMove
         (PointerEvent.mk 250 100 0 1 false 0 None)
         (InteractionManager.handleCanvasDown "u"
            (PointerEvent.mk (-10) (-10) 0 1 false 0 None) systemTwoCards)) in
  InteractionManager.mode (InteractionManager.manager s3) = IDLE /\
  "a" ∈ InteractionManager.selectedCardIds (InteractionManager.manager s3).
Proof.
  cbv zeta.
  destruct (rubber_band_selects_overlapping systemTwoCards "u"
              (PointerEvent.mk (-10) (-10) 0 1 false 0 None)
              (PointerEvent.mk 250 100 0 1 false 0 None)
              eq_refl eq_refl eq_refl) as (_ & _ & M & _).
  - discriminate.
  - split; [exact M |]. refine (bool_decide_unpack _ _). vm_compute. exact I.
Defined.

Lemma handleCardUp_lastClick (cardId : string) (s : System) :
  let s' := InteractionManager.handleCardUp cardId s in
  InteractionManager.lastClickedCardId (InteractionManager.manager s') =
    InteractionManager.lastClickedCardId (InteractionManager.manager s) /\
  InteractionManager.lastClickTime (InteractionManager.manager s') =
    InteractionManager.lastClickTime (InteractionManager.manager s) /\
  InteractionManager.isSpacePressed (InteractionManager.manager s') =
    InteractionManager.isSpacePressed (InteractionManager.manager s) /\
  InteractionManager.onEditStart (InteractionManager.manager s') =
    InteractionManager.onEditStart (InteractionManager.manager s) /\
  InteractionManager.editStarts (InteractionManager.manager s') =
    InteractionManager.editStarts (InteractionManager.manager s) /\
  InteractionManager.selectedCardIds (InteractionManager.manager s') =
    InteractionManager.selectedCardIds (InteractionManager.manager s) /\
  InteractionManager.mode (InteractionManager.manager s') =
    InteractionManager.mode (InteractionManager.manager s).
Proof.
  cbv zeta. unfold InteractionManager.handleCardUp.
  destruct (InteractionManager.connectionStartId (InteractionManager.manager s));
    [| repeat split].
  destruct (bool_decide _ && truthy _); [| repeat split].
  destruct (negb _); [| repeat split].
  unfold InteractionManager.withEngine.
  destruct (InteractionManager.engineSet (InteractionManager.manager s)); repeat split.
Qed.

Lemma stagePointerUp_lastClick (s : System) :
  let s' := InteractionManager.stagePointerUp s in
  InteractionManager.lastClickedCardId (InteractionManager.manager s') =
    InteractionManager.lastClickedCardId (InteractionManager.manager s) /\
  InteractionManager.lastClickTime (InteractionManager.manager s') =
    InteractionManager.lastClickTime (InteractionManager.manager s) /\
  InteractionManager.isSpacePressed (InteractionManager.manager s') =
    InteractionManager.isSpacePressed (InteractionManager.manager s) /\
  InteractionManager.onEditStart (InteractionManager.manager s') =
    InteractionManager.onEditStart (InteractionManager.manager s) /\
  InteractionManager.editStarts (InteractionManager.manager s') =
    InteractionManager.editStarts (InteractionManager.manager s) /\
  InteractionManager.selectedCardIds (InteractionManager.manager s') =
    InteractionManager.selectedCardIds (InteractionManager.manager s).
Proof.
  cbv zeta. unfold InteractionManager.stagePointerUp, InteractionManager.handleGlobalUp.
  destruct (bool_decide _); repeat split.
Qed.

Lemma handleCardDown_single (now : Z) (ev : PointerEvent) (cardId : string)
    (s : System) :
  InteractionManager.isSpacePressed (InteractionManager.manager s) = false ->
  ~ (InteractionManager.lastClickedCardId (InteractionManager.manager s) = Some cardId /\
     (now - InteractionManager.lastClickTime (InteractionManager.manager s) < 500)%Z) ->
  let s' := InteractionManager.handleCardDown now ev cardId s in
  InteractionManager.lastClickedCardId (InteractionManager.manager s') = Some cardId /\
  InteractionManager.lastClickTime (InteractionManager.manager s') = now /\
  InteractionManager.isSpacePressed (InteractionManager.manager s') = false /\
  InteractionManager.onEditStart (InteractionManager.manager s') =
    InteractionManager.onEditStart (InteractionManager.manager s) /\
  InteractionManager.editStarts (InteractionManager.manager s') =
    InteractionManager.editStarts (InteractionManager.manager s) /\
  InteractionManager.selectedCardIds (InteractionManager.manager s') =
    (if PointerEvent.shiftKey ev ||
        bool_decide (cardId ∈ InteractionManager.selectedCardIds
                                (InteractionManager.manager s))
     then {[cardId]} ∪ InteractionManager.selectedCardIds (InteractionManager.manager s)
     else {[cardId]} ∪ ∅) /\
  (InteractionManager.mode (InteractionManager.manager s) <> CONNECTING ->
   InteractionManager.mode (InteractionManager.manager s') = DRAGGING /\
   InteractionManager.engine s' =
     if InteractionManager.engineSet (InteractionManager.manager s)
     then CanvasEngine.startDrag ev cardId
            (Some (InteractionManager.selectedCardIds (InteractionManager.manager s')))
            (InteractionManager.engine s)
     else InteractionManager.engine s).
Proof.
  intros Sp Nd. cbv zeta. unfold InteractionManager.handleCardDown. rewrite Sp.
  assert (D : bool_decide
                (InteractionManager.lastClickedCardId (InteractionManager.manager s) =
                 Some cardId) &&
              (now - InteractionManager.lastClickTime (InteractionManager.manager s) <? 500)%Z
              = false).
  { apply not_true_is_false. intros H. apply andb_prop in H. destruct H as (H1 & H2).
    apply bool_decide_eq_true in H1. apply Z.ltb_lt in H2. apply Nd. split; assumption. }
  rewrite D. cbv zeta.
  destruct (PointerEvent.shiftKey ev); cbn [negb orb];
    [| destruct (bool_decide (cardId ∈ _)) eqn:In; cbn [negb] ];
    cbn; rewrite ?Sp;
    destruct (bool_decide (InteractionManager.mode (InteractionManager.manager s) =
                           CONNECTING)) eqn:C;
    cbn; unfold InteractionManager.withEngine; cbn;
    destruct (InteractionManager.engineSet (InteractionManager.manager s)) eqn:Es;
    cbn; rewrite ?Es;
    (repeat split; try reflexivity; try assumption;
     try (exfalso; apply bool_decide_eq_true in C;
          match goal with H : _ <> CONNECTING |- _ => exact (H C) end)).
Qed.

(** X26. A second press on a card within 500 ms of the first starts
    editing.  With the space bar up, after a press on a card that is not
    itself a second press, the release of the pointer and a press on the
    same card less than 500 ms after the first, the mode is Editing, the
    edit callback, when one is registered, was called once more, with the
    id of the card, and the second press changed neither the engine nor
    the selection. *)
Theorem double_click_starts_editing (s : System) (now1 now2 : Z)
    (ev1 ev2 : PointerEvent) (cardId : string) :
  InteractionManager.isSpacePressed (InteractionManager.manager s) = false ->
  ~ (InteractionManager.lastClickedCardId (InteractionManager.manager s) = Some cardId /\
     (now1 - InteractionManager.lastClickTime (InteractionManager.manager s) < 500)%Z) ->
  (now2 - now1 < 500)%Z ->
  let s1 := InteractionManager.handleCardDown now1 ev1 cardId s in
  let s2 := InteractionManager.stagePointerUp
              (InteractionManager.handleCardUp cardId s1) in
  let s3 := InteractionManager.handleCardDown now2 ev2 cardId s2 in
  InteractionManager.mode (InteractionManager.manager s3) = EDITING /\
  InteractionManager.editStarts (InteractionManager.manager s3) =
    InteractionManager.editStarts (InteractionManager.manager s) ++
    (if InteractionManager.onEditStart (InteractionManager.manager s)
     then [cardId] else []) /\
  InteractionManager.engine s3 = InteractionManager.engine s2 /\
  InteractionManager.selectedCardIds (InteractionManager.manager s3) =
    InteractionManager.selectedCardIds (InteractionManager.manager s2).
Proof.
  intros Sp Nd Fast. cbv zeta.
  destruct (handleCardDown_single now1 ev1 cardId s Sp Nd)
    as (L1 & T1 & P1 & O1 & E1 & _).
  set (s1 := InteractionManager.handleCardDown now1 ev1 cardId s) in *.
  destruct (handleCardUp_lastClick cardId s1) as (L2 & T2 & P2 & O2 & E2 & _).
  set (s1' := InteractionManager.handleCardUp cardId s1) in *.
  destruct (stagePointerUp_lastClick s1') as (L3 & T3 & P3 & O3 & E3 & _).
  set (s2 := InteractionManager.stagePointerUp s1') in *.
  unfold InteractionManager.handleCardDown.
  rewrite P3, P2, P1, L3, L2, L1, T3, T2, T1.
  rewrite bool_decide_eq_true_2 by reflexivity.
  assert (F : (now2 - now1 <? 500)%Z = true) by (apply Z.ltb_lt; exact Fast).
  rewrite F. cbn [andb].
  assert (O : InteractionManager.onEditStart (InteractionManager.manager s2) =
              InteractionManager.onEditStart (InteractionManager.manager s))
    by congruence.
  assert (E : InteractionManager.editStarts (InteractionManager.manager s2) =
              InteractionManager.editStarts (InteractionManager.manager s))
    by congruence.
  clearbody s2. clear - O E.
  unfold InteractionManager.onManager, InteractionManager.callEditStart. cbn.
  rewrite O.
  destruct (InteractionManager.onEditStart (InteractionManager.manager s)); cbn;
    rewrite ?E, ?app_nil_r; repeat split.
Qed.

Lemma double_click_starts_editing_witness :
  InteractionManager.mode
    (InteractionManager.manager
       (InteractionManager.handleCardDown 1300
          (PointerEvent.mk 10 10 0 1 false 0 None) "a"
          (InteractionManager.stagePointerUp
             (InteractionManager.handleCardUp "a"
                (InteractionManager.handleCardDown 1000
                   (PointerEvent.mk 10 10 0 1 false 0 None) "a" systemTwoCards)))))
  = EDITING.
Proof.
  apply (double_click_starts_editing systemTwoCards 1000 1300
           (PointerEvent.mk 10 10 0 1 false 0 None)
           (PointerEvent.mk 10 10 0 1 false 0 None) "a").
  - reflexivity.
  - intros (H & _). discriminate H.
  - reflexivity.
Defined.

(** X27. The mode stays Dragging after a drag.  With the space bar up and
    not in Connecting mode, after a press on a card that is not a second
    press and the release of the pointer, the mode is still Dragging; a
    press of a button other than the middle one on the canvas then
    changes nothing: it neither clears the selection nor starts a rubber
    band. *)
Theorem mode_stays_dragging (s : System) (now : Z) (ev ev' : PointerEvent)
    (cardId uuid : string) :
  InteractionManager.isSpacePressed (InteractionManager.manager s) = false ->
  ~ (InteractionManager.lastClickedCardId (InteractionManager.manager s) = Some cardId /\
     (now - InteractionManager.lastClickTime (InteractionManager.manager s) < 500)%Z) ->
  InteractionManager.mode (InteractionManager.manager s) <> CONNECTING ->
  PointerEvent.button ev' <> 1%Z ->
  let s2 := InteractionManager.stagePointerUp
              (InteractionManager.handleCardUp cardId
                 (InteractionManager.handleCardDown now ev cardId s)) in
  InteractionManager.mode (InteractionManager.manager s2) = DRAGGING /\
  InteractionManager.handleCanvasDown uuid ev' s2 = s2.
Proof.
  intros Sp Nd Nc Bt. cbv zeta.
  destruct (handleCardDown_single now ev cardId s Sp Nd)
    as (_ & _ & P1 & _ & _ & _ & M1).
  destruct (M1 Nc) as (M & _).
  set (s1 := InteractionManager.handleCardDown now ev cardId s) in *.
  destruct (handleCardUp_lastClick cardId s1) as (_ & _ & P2 & _ & _ & _ & M2).
  set (s1' := InteractionManager.handleCardUp cardId s1) in *.
  destruct (stagePointerUp_lastClick s1') as (_ & _ & P3 & _).
  assert (M3 : InteractionManager.mode
                 (InteractionManager.manager (InteractionManager.stagePointerUp s1')) =
               DRAGGING).
  { unfold InteractionManager.stagePointerUp, InteractionManager.handleGlobalUp.
    rewrite M2, M. rewrite bool_decide_eq_false_2 by discriminate.
    cbn. rewrite M2. exact M. }
  split; [exact M3 |].
  unfold InteractionManager.handleCanvasDown.
  rewrite P3, P2, P1, M3.
  assert (B : (PointerEvent.button ev' =? 1)%Z = false) by (apply Z.eqb_neq; exact Bt).
  rewrite B. reflexivity.
Qed.

Lemma mode_stays_dragging_witness :
  let s2 := InteractionManager.stagePointerUp
              (InteractionManager.handleCardUp "a"
                 (InteractionManager.handleCardDown 1000
                    (PointerEvent.mk 10 10 0 1 false 0 None) "a" systemTwoCards)) in
  InteractionManager.mode (InteractionManager.manager s2) = DRAGGING /\
  InteractionManager.handleCanvasDown "u"
    (PointerEvent.mk 500 500 0 1 false 0 None) s2 = s2.
Proof.
  cbv zeta.
  apply (mode_stays_dragging systemTwoCards 1000
           (PointerEvent.mk 10 10 0 1 false 0 None)
           (PointerEvent.mk 500 500 0 1 false 0 None) "a" "u").
  - reflexivity.
  - intros (H & _). discriminate H.
  - discriminate.
  - discriminate.
Defined.

Lemma includes_elements (X : gset string) (k : string) :
  includes (elements X) k = bool_decide (k ∈ X).
Proof.
  destruct (bool_decide (k ∈ X)) eqn:B.
  - apply bool_decide_eq_true in B. apply includes_In, list_elem_of_In, elem_of_elements.
    exact B.
  - apply bool_decide_eq_false in B. apply not_true_is_false. intros H.
    apply B. apply includes_In, list_elem_of_In, elem_of_elements in H. exact H.
Qed.

(** X28. A press on a card selects it and takes hold of the selection.
    With the space bar up, the engine set and the mode not Connecting, a
    press on a card that is not a second press adds the card to the
    selection when shift is held or the card is selected already, and
    otherwise makes it the only selected card; the engine then holds every
    selected card of the board and leaves the others as they were. *)
Theorem card_press_selects_and_holds (s : System) (now : Z) (ev : PointerEvent)
    (cardId : string) :
  InteractionManager.isSpacePressed (InteractionManager.manager s) = false ->
  ~ (InteractionManager.lastClickedCardId (InteractionManager.manager s) = Some cardId /\
     (now - InteractionManager.lastClickTime (InteractionManager.manager s) < 500)%Z) ->
  InteractionManager.mode (InteractionManager.manager s) <> CONNECTING ->
  InteractionManager.engineSet (InteractionManager.manager s) = true ->
  let s' := InteractionManager.handleCardDown now ev cardId s in
  let old := InteractionManager.selectedCardIds (InteractionManager.manager s) in
  let sel := InteractionManager.selectedCardIds (InteractionManager.manager s') in
  sel = (if PointerEvent.shiftKey ev || bool_decide (cardId ∈ old)
         then {[cardId]} ∪ old else {[cardId]} ∪ ∅) /\
  map_Forall
    (fun id card =>
       exists card', CanvasEngine.cards (InteractionManager.engine s') !! id = Some card' /\
         if bool_decide (id ∈ sel)
         then PhysicsState.isDragging (Card.state card') = true /\
              PhysicsState.x (Card.state card') = PhysicsState.x (Card.state card) /\
              PhysicsState.y (Card.state card') = PhysicsState.y (Card.state card)
         else card' = card)
    (CanvasEngine.cards (InteractionManager.engine s)).
Proof.
  intros Sp Nd Nc Es. cbv zeta.
  destruct (handleCardDown_single now ev cardId s Sp Nd)
    as (_ & _ & _ & _ & _ & Sel & M1).
  destruct (M1 Nc) as (_ & En). rewrite Es in En.
  split; [exact Sel |].
  set (sel := InteractionManager.selectedCardIds
                (InteractionManager.manager
                   (InteractionManager.handleCardDown now ev cardId s))) in *.
  assert (Hin : cardId ∈ sel).
  { rewrite Sel. destruct (_ || _); apply elem_of_union_l, elem_of_singleton; reflexivity. }
  intros id card L. rewrite En, startDrag_cards, L.
  unfold dragTargets. rewrite (bool_decide_eq_true_2 _ Hin), includes_elements.
  destruct (bool_decide (id ∈ sel)); cbn; eexists; split; try reflexivity.
  repeat split.
Qed.

Lemma card_press_selects_and_holds_witness :
  InteractionManager.selectedCardIds
    (InteractionManager.manager
       (InteractionManager.handleCardDown 1000
          (PointerEvent.mk 10 10 0 1 false 0 None) "a" systemTwoCards)) =
  {["a"]} ∪ ∅.
Proof.
  destruct (card_press_selects_and_holds systemTwoCards 1000
              (PointerEvent.mk 10 10 0 1 false 0 None) "a") as (S & _).
  - reflexivity.
  - intros (H & _). discriminate H.
  - discriminate.
  - reflexivity.
  - exact S.
Defined.

(** ** From the eraser to the store, and the keys of the store *)

Lemma persistAll_deleted (now : Z) (hits : list string) :
  forall d : DocumentStore,
  let d' := persistAll now (map StrokeDeleted hits) d in
  (forall id, DocumentStore.strokesMap d' !! id =
              if includes hits id then None else DocumentStore.strokesMap d !! id) /\
  DocumentStore.cardsMap d' = DocumentStore.cardsMap d /\
  DocumentStore.connectionsMap d' = DocumentStore.connectionsMap d.
Proof.
  induction hits as [| h hits IH]; intros d; cbv zeta.
  - cbn. repeat split.
  - cbn [map]. change (persistAll now (StrokeDeleted h :: map StrokeDeleted hits) d)
      with (persistAll now (map StrokeDeleted hits) (DocumentStore.deleteStroke h d)).
    destruct (IH (DocumentStore.deleteStroke h d)) as (S & C & K).
    split; [| split; [rewrite C | rewrite K]; reflexivity].
    intros id. rewrite S. cbn [includes existsb]. fold (includes hits id).
    cbn [DocumentStore.deleteStroke DocumentStore.strokesMap].
    destruct (String.eqb_spec id h) as [-> | N]; cbn [orb].
    + rewrite lookup_delete_eq. destruct (includes hits h); reflexivity.
    + rewrite lookup_delete_ne by congruence. reflexivity.
Qed.

(** X29. What the eraser hits leaves the store.  With the deletion
    callback registered, [eraseAt] makes one deletion call for each
    stroke id it hits, in the order of the hits, and no other call; with
    the callbacks wired as in App.tsx the store then has no stroke with
    one of these ids, and its other strokes, its cards and its connections
    are as before. *)
Theorem erase_reaches_store (x y : Q) (e : CanvasEngine) (now : Z)
    (d : DocumentStore) :
  CanvasEngine.onStrokeDeleted e = true ->
  let localPos := Container.toLocal (CanvasEngine.worldContainer e) (x, y) in
  let hits :=
    CanvasEngine.collectHits (fst localPos) (snd localPos)
      (retrieve (CanvasEngine.strokeQuadtree e) []
                (searchBounds (fst localPos) (snd localPos))) in
  let d' := persistAll now (map StrokeDeleted hits) d in
  CanvasEngine.calls (CanvasEngine.eraseAt x y e) =
    CanvasEngine.calls e ++ map StrokeDeleted hits /\
  (forall id, DocumentStore.strokesMap d' !! id =
              if includes hits id then None else DocumentStore.strokesMap d !! id) /\
  DocumentStore.cardsMap d' = DocumentStore.cardsMap d /\
  DocumentStore.connectionsMap d' = DocumentStore.connectionsMap d.
Proof.
  intros Reg. cbv zeta. split; [| apply persistAll_deleted].
  unfold CanvasEngine.eraseAt. cbv zeta.
  match goal with
  | |- CanvasEngine.calls (fold_left _ ?h _) = _ =>
      destruct (eraseStrokes_fields h e) as (_ & _ & K & _)
  end.
  rewrite K, Reg. reflexivity.
Qed.

Lemma erase_reaches_store_witness :
  exists hits,
    CanvasEngine.calls (CanvasEngine.eraseAt 105 105 boardStrokesInside) =
      CanvasEngine.calls boardStrokesInside ++ map StrokeDeleted hits /\
    forall id,
      DocumentStore.strokesMap
        (persistAll 0 (map StrokeDeleted hits) DocumentStore.empty) !! id =
      if includes hits id then None
      else DocumentStore.strokesMap DocumentStore.empty !! id.
Proof.
  destruct (erase_reaches_store 105 105 boardStrokesInside 0 DocumentStore.empty)
    as (K & S & _).
  - reflexivity.
  - eexists. split; [exact K | exact S].
Defined.

Lemma linksKeyed_run (op : StoreOp) (d : DocumentStore) :
  linksKeyed d -> linksKeyed (runStore d op).
Proof.
  intros (C & S). destruct op; cbn [runStore]; try (split; assumption).
  - unfold DocumentStore.updateCardPosition.
    destruct (DocumentStore.cardsMap d !! id); split; assumption.
  - unfold DocumentStore.updateCard.
    destruct (DocumentStore.cardsMap d !! id); split; assumption.
  - unfold DocumentStore.createConnection. cbv zeta.
    destruct (DocumentStore.connectionsMap d !! connectionId fromId toId);
      [split; assumption |].
    split; [| exact S]. cbn. apply map_Forall_insert_2; [| exact C].
    split; reflexivity.
  - split; [| exact S]. cbn. apply map_Forall_delete. exact C.
  - split; [exact C |]. cbn. apply map_Forall_insert_2; [reflexivity | exact S].
  - split; [exact C |]. cbn. apply map_Forall_delete. exact S.
Qed.

Lemma cardsKeyed_run (op : StoreOp) (d : DocumentStore) :
  keepsId op -> cardsKeyed d -> cardsKeyed (runStore d op).
Proof.
  intros K C. unfold cardsKeyed in *. destruct op; cbn [runStore]; try exact C.
  - cbn. apply map_Forall_insert_2; [reflexivity | exact C].
  - unfold DocumentStore.updateCardPosition.
    destruct (DocumentStore.cardsMap d !! id) as [c |] eqn:L; [| exact C].
    cbn. apply map_Forall_insert_2; [| exact C]. cbn. apply (C id c L).
  - unfold DocumentStore.updateCard.
    destruct (DocumentStore.cardsMap d !! id) as [c |] eqn:L; [| exact C].
    cbn. apply map_Forall_insert_2; [| exact C].
    cbn in K. unfold DocumentStore.spread. rewrite K. cbn. apply (C id c L).
  - cbn. apply map_Forall_delete. exact C.
  - unfold DocumentStore.createConnection. cbv zeta.
    destruct (DocumentStore.connectionsMap d !! connectionId fromId toId); exact C.
Qed.

(** X30. The records of the store are kept under their ids.  Whatever
    the operations made on a store, every connection is stored under its
    id, which is made of its two ends, and every stroke under its id; of
    the cards this holds too when no update of a card carries an id. *)
Theorem store_records_keyed (ops : list StoreOp) :
  linksKeyed (runStoreAll ops) /\
  (List.Forall keepsId ops -> cardsKeyed (runStoreAll ops)).
Proof.
  unfold runStoreAll. split.
  - apply (fold_left_preserves runStore linksKeyed).
    + intros a b. apply linksKeyed_run.
    + split; apply map_Forall_empty.
  - generalize DocumentStore.empty
      (map_Forall_empty (fun k c => CardData.id c = k) : cardsKeyed DocumentStore.empty).
    induction ops as [| op ops IH]; intros d Hd Hk; cbn [fold_left]; [exact Hd |].
    inversion Hk; subst. apply IH; [| assumption].
    apply cardsKeyed_run; assumption.
Qed.

Lemma store_records_keyed_witness :
  linksKeyed (runStoreAll storeSession) /\ cardsKeyed (runStoreAll storeSession).
Proof.
  destruct (store_records_keyed storeSession) as (L & C).
  split; [exact L |]. apply C.
  unfold storeSession. repeat constructor.
Defined.
